(** * demo-recorder: the animation engine, the recorder and the record command

    A shallow embedding of [PlaywrightRecorder] (playwright-recorder.ts),
    of [convertToMp4] / [checkFfmpegInstalled] (video-processor.ts) and of
    [recordCommand], [createCommand] and [listCommand] (cli/commands.ts).

    Conventions of the embedding.
    - A JavaScript [number] is an exact rational ([Q]); rounding of IEEE
      doubles, [NaN] and the infinities are outside the model.  Where a
      property depends on them it says so in its hypotheses, and the last
      section of the definitions writes the arithmetic concerned in
      binary64.
    - An [async] method is a computation in the monad [M]: it reads a fixed
      environment (what the page, the file system and the host answer),
      threads a state, appends to a trace of observable events and either
      returns a value or throws (a rejected promise).
    - Every call into Playwright or the file system may reject: the
      environment holds a fault schedule [fault], asked once per call. *)

From Stdlib Require Import List String Ascii Bool Arith ZArith QArith Qround Qminmax Lia Lqa.
From Stdlib Require Import DecimalString.
From Stdlib Require Import Floats Uint63.
Import ListNotations.

Local Open Scope Q_scope.

(** ** Data *)

(** [{x, y, width, height}]: what [boundingBox()] returns and, with
    [left = x] and [top = y], what [getBoundingClientRect()] returns. *)
Record Rect : Type := mkRect
  { rect_x : Q; rect_y : Q; rect_width : Q; rect_height : Q }.

(** An element the page holds for some selector. *)
Record Element : Type := mkElement
  { boundingBox : option Rect;        (* [null] when the element is not visible *)
    getBoundingClientRect : Rect }.

(** The [#__demo-cursor] element: what [parseFloat] makes of its
    [style.left] and [style.top]; [None] stands for [NaN]. *)
Record Cursor : Type := mkCursor
  { style_left : option Q; style_top : option Q }.

Inductive OverlayKind : Type := HighlightBox | Ripple | ZoomFrame.

(** The lines [logger.info] and the spinner print, kept structured (several
    interpolate numbers). *)
Inductive Info : Type :=
| StartingRecording (name : string)
| Resolution (width height : Q)
| Url (url : string)
| NavigatingToUrl
| RunningDemoScript
| RecordingComplete (videoPath : string)
| DurationSeconds (durationMs : Q)
| ConvertingToMp4 (inputPath : string)
| ConversionComplete (outputPath : string)
| LoadingDemoDefinition
| LoadedDemo (name : string)
| RecordingDemo
| RecordingCompleteIn (durationMs : Q)
| ConvertingToMP4
| ConversionDone.

(** Observable events, in the order they happen. *)
Inductive Event : Type :=
| LoggerInfo (msg : Info)
| LoggerWarn (msg : string)
| LoggerError
| ConsoleWarn (msg : string)                    (* [console.warn] inside the page *)
| ConsoleLog (msg : string)
| WaitForTimeout (ms : Q)
| KeyboardType (char : ascii)
| MouseMove (x y : Q)
| UpdateCursorPosition (x y : Q)
| OverlayAppended (kind : OverlayKind) (box : Rect) (removedAfter : Q)
| StyleAppended (id : string)
| Click (selector : string)
| StyleTagAdded
| CursorCreated
| Mkdir (dir : string)
| BrowserLaunched (headless : bool)
| ContextCreated (width height : Q) (dir : string)
| PageCreated
| Goto (url : string)
| ContextClose (ok : bool)                      (* a call of [context.close()] *)
| BrowserClose (ok : bool)                      (* a call of [browser.close()] *)
| Readdir (dir : string)
| FfmpegRun (inputPath outputPath : string)
| SpinnerStart (msg : Info)
| SpinnerSucceed (msg : Info)
| SpinnerWarn (msg : string)
| SpinnerFail (msg : string)
| ProcessExit (code : Z)
| FromScript (e : Event).                       (* an event of the user's demo script *)

(** What the outside world answers. *)
Record Env : Type := mkEnv
  { querySelector : string -> option Element;   (* the page's elements *)
    scrollX : Q;
    scrollY : Q;
    fault : nat -> bool;                        (* does the n-th external call reject? *)
    random : nat -> Q;                          (* the n-th value of [Math.random()] *)
    now : nat -> Q;                             (* [Date.now()] after n external calls *)
    readdir : string -> list string;            (* [fs.readdir] *)
    path_resolve : string -> string;            (* [path.resolve] *)
    ffmpeg_installed : bool }.

(** The state the page-level helpers thread. *)
Record PageSt : Type := mkPageSt
  { cursor : option Cursor;
    ripple_style : bool;                        (* [#__demo-ripple-style] present *)
    zoom_style : bool;                          (* [#__demo-zoom-style] present *)
    tick : nat;                                 (* external calls made so far *)
    draws : nat }.                              (* [Math.random()] calls made so far *)

(** ** The monad of asynchronous methods *)

Inductive Outcome (A : Type) : Type :=
| Ok (a : A)
| Throw.
Arguments Ok {A} a.
Arguments Throw {A}.

Definition M (S A : Type) : Type := Env -> S -> Outcome A * S * list Event.

Definition ret {S A} (a : A) : M S A := fun _ s => (Ok a, s, []).

Definition throw {S A} : M S A := fun _ s => (Throw, s, []).

Definition bind {S A B} (m : M S A) (k : A -> M S B) : M S B :=
  fun env s =>
    match m env s with
    | (Ok a, s1, t1) => let '(o, s2, t2) := k a env s1 in (o, s2, t1 ++ t2)
    | (Throw, s1, t1) => (Throw, s1, t1)
    end.

(** [try { m } catch { h }] *)
Definition try_catch {S A} (m : M S A) (h : M S A) : M S A :=
  fun env s =>
    match m env s with
    | (Ok a, s1, t1) => (Ok a, s1, t1)
    | (Throw, s1, t1) => let '(o, s2, t2) := h env s1 in (o, s2, t1 ++ t2)
    end.

(** [try { m } finally { f }] *)
Definition try_finally {S A} (m : M S A) (f : M S unit) : M S A :=
  fun env s =>
    let '(o, s1, t1) := m env s in
    match f env s1 with
    | (Ok _, s2, t2) => (o, s2, t1 ++ t2)
    | (Throw, s2, t2) => (Throw, s2, t1 ++ t2)
    end.

Definition emit {S} (e : Event) : M S unit := fun _ s => (Ok tt, s, [e]).

Definition get {S} : M S S := fun _ s => (Ok s, s, []).

Definition put {S} (s : S) : M S unit := fun _ _ => (Ok tt, s, []).

Definition ask {S} : M S Env := fun env s => (Ok env, s, []).

Declare Scope async_scope.
Delimit Scope async_scope with async.
Notation "x <- m ;; k" := (bind m (fun x => k))
  (at level 61, m at next level, right associativity) : async_scope.
Notation "m ;; k" := (bind m (fun _ => k))
  (at level 61, right associativity) : async_scope.
Local Open Scope async_scope.

(** [for (const a of l) { body a }] *)
Fixpoint for_of {S A} (l : list A) (body : A -> M S unit) : M S unit :=
  match l with
  | [] => ret tt
  | a :: l' => body a ;; for_of l' body
  end.

Definition outcome_of {S A} (r : Outcome A * S * list Event) : Outcome A := fst (fst r).
Definition state_of {S A} (r : Outcome A * S * list Event) : S := snd (fst r).
Definition trace_of {S A} (r : Outcome A * S * list Event) : list Event := snd r.

(** ** The page-automation capability (Playwright's [Page]) *)

Definition bump (s : PageSt) : PageSt :=
  mkPageSt (cursor s) (ripple_style s) (zoom_style s) (S (tick s)) (draws s).

(** An awaited call into Playwright: it rejects when the fault schedule says
    so, and otherwise has the effect [effect]. *)
Definition external {A} (effect : M PageSt A) : M PageSt A :=
  fun env s => if fault env (tick s) then (Throw, bump s, []) else effect env (bump s).

(** [page.evaluate(callback)]: the callback runs inside the page. *)
Definition page_evaluate {A} (callback : M PageSt A) : M PageSt A := external callback.

Definition page_waitForTimeout (ms : Q) : M PageSt unit := external (emit (WaitForTimeout ms)).

Definition page_keyboard_type (char : ascii) : M PageSt unit := external (emit (KeyboardType char)).

Definition page_mouse_move (x y : Q) : M PageSt unit := external (emit (MouseMove x y)).

(** [page.click(selector)] waits for the element and rejects (timeout) when
    there is none. *)
Definition page_click (selector : string) : M PageSt unit :=
  external (env <- ask ;;
            match querySelector env selector with
            | Some _ => emit (Click selector)
            | None => throw
            end).

(** [page.$(selector)] *)
Definition page_query (selector : string) : M PageSt (option Element) :=
  external (env <- ask ;; ret (querySelector env selector)).

Definition element_boundingBox (element : Element) : M PageSt (option Rect) :=
  external (ret (boundingBox element)).

Definition page_addStyleTag : M PageSt unit := external (emit StyleTagAdded).

Definition logger_info {S} (msg : Info) : M S unit := emit (LoggerInfo msg).
Definition logger_warn {S} (msg : string) : M S unit := emit (LoggerWarn msg).

(** [Math.random()] *)
Definition Math_random : M PageSt Q :=
  fun env s =>
    (Ok (random env (draws s)),
     mkPageSt (cursor s) (ripple_style s) (zoom_style s) (tick s) (S (draws s)), []).

(** [a ?? b] *)
Definition nullish {A} (a : option A) (b : A) : A :=
  match a with Some v => v | None => b end.

(** [options?.field] *)
Definition optional {O A} (options : option O) (field : O -> option A) : option A :=
  match options with Some o => field o | None => None end.

(** [a || b] on numbers: [b] when [a] is [NaN] or [0]. *)
Definition or_else (a : option Q) (b : Q) : Q :=
  match a with
  | Some v => if Qeq_bool v 0 then b else v
  | None => b
  end.

Record TypeOptions : Type := mkTypeOptions
  { type_delay : option Q; type_variation : option Q }.
Record MoveOptions : Type := mkMoveOptions
  { move_duration : option Q; move_steps : option Q }.
Record ClickOptions : Type := mkClickOptions
  { click_hoverDuration : option Q; click_moveDuration : option Q }.
Record ZoomOptions : Type := mkZoomOptions
  { zoom_scale : option Q; zoom_duration : option Q }.

(** ** The animation engine: the private helpers of [PlaywrightRecorder] *)

Definition highlightElement (selector : string) (durationMs : Q) : M PageSt unit :=
  try_catch
    (page_evaluate
       (env <- ask ;;
        match querySelector env selector with
        | None =>
            emit (ConsoleWarn ("Highlight: Element not found for selector: " ++ selector))
        | Some element =>
            let rect := getBoundingClientRect element in
            emit (OverlayAppended HighlightBox
                    (mkRect (rect_x rect + scrollX env - 3) (rect_y rect + scrollY env - 3)
                            (rect_width rect + 6) (rect_height rect + 6))
                    (durationMs + 200))
        end) ;;
     page_waitForTimeout (durationMs + 200))
    (logger_warn ("Failed to highlight element: " ++ selector)).

Definition hideDevTools : M PageSt unit := page_addStyleTag.

Definition initFakeCursor : M PageSt unit :=
  page_evaluate
    (s <- get ;;
     match cursor s with
     | Some _ => ret tt
     | None =>
         put (mkPageSt (Some (mkCursor (Some 0) (Some 0)))
                       (ripple_style s) (zoom_style s) (tick s) (draws s)) ;;
         emit CursorCreated
     end).

Definition updateCursorPosition (x y : Q) : M PageSt unit :=
  page_evaluate
    (emit (UpdateCursorPosition x y) ;;
     s <- get ;;
     match cursor s with
     | Some _ =>
         put (mkPageSt (Some (mkCursor (Some x) (Some y)))
                       (ripple_style s) (zoom_style s) (tick s) (draws s))
     | None => ret tt
     end).

(** [delay + Math.floor(Math.random() * variation * 2) - variation], where
    [r] is what [Math.random()] returned. *)
Definition actualDelay (delay variation r : Q) : Q :=
  delay + inject_Z (Qfloor (r * variation * 2)) - variation.

(** [for (const char of text)] is taken over the characters of an ASCII
    string. *)
Definition typeAnimated (selector text : string) (options : option TypeOptions)
  : M PageSt unit :=
  let delay := nullish (optional options type_delay) 50 in
  let variation := nullish (optional options type_variation) 20 in
  try_catch
    (page_click selector ;;
     page_waitForTimeout 100 ;;
     for_of (list_ascii_of_string text)
       (fun char =>
          page_keyboard_type char ;;
          r <- Math_random ;;
          page_waitForTimeout (Qmax 10 (actualDelay delay variation r))))
    (logger_warn ("Failed to type in element: " ++ selector)).

(** The values [i] takes in [for (let i = 1; i <= steps; i++)]. *)
Definition loop_indices (steps : Q) : list Z :=
  map Z.of_nat (seq 1 (Z.to_nat (Qfloor steps))).

(** Ease-out cubic: [1 - Math.pow(1 - progress, 3)]. *)
Definition eased (progress : Q) : Q := 1 - (1 - progress) ^ 3.

(** The point of step [i]: [current + (target - current) * eased]. *)
Definition interpolate (current target steps : Q) (i : Z) : Q :=
  current + (target - current) * eased (inject_Z i / steps).

(** What the callback of [moveTo] returns for the cursor element it finds:
    [parseFloat(cursor.style.left) || 100] and the same for [top], or
    [{x: 100, y: 100}] without a cursor element. *)
Definition read_cursor (cursor : option Cursor) : Q * Q :=
  match cursor with
  | Some c => (or_else (style_left c) 100, or_else (style_top c) 100)
  | None => (100, 100)
  end.

Definition currentPos : M PageSt (Q * Q) :=
  s <- get ;; ret (read_cursor (cursor s)).

Definition moveTo (selector : string) (options : option MoveOptions) : M PageSt unit :=
  let duration := nullish (optional options move_duration) 500 in
  let steps := nullish (optional options move_steps) 20 in
  try_catch
    (element <- page_query selector ;;
     match element with
     | None => logger_warn ("Element not found for moveTo: " ++ selector)
     | Some element =>
         box <- element_boundingBox element ;;
         match box with
         | None => ret tt
         | Some box =>
             let targetX := rect_x box + rect_width box / 2 in
             let targetY := rect_y box + rect_height box / 2 in
             pos <- page_evaluate currentPos ;;
             let stepDelay := duration / steps in
             for_of (loop_indices steps)
               (fun i =>
                  let x := interpolate (fst pos) targetX steps i in
                  let y := interpolate (snd pos) targetY steps i in
                  updateCursorPosition x y ;;
                  page_mouse_move x y ;;
                  page_waitForTimeout stepDelay)
         end
     end)
    (logger_warn ("Failed to move to element: " ++ selector)).

Definition clickAnimated (selector : string) (options : option ClickOptions)
  : M PageSt unit :=
  let hoverDuration := nullish (optional options click_hoverDuration) 200 in
  let moveDuration := nullish (optional options click_moveDuration) 400 in
  try_catch
    (moveTo selector (Some (mkMoveOptions (Some moveDuration) None)) ;;
     page_waitForTimeout hoverDuration ;;
     page_evaluate
       (env <- ask ;;
        match querySelector env selector with
        | None => ret tt
        | Some element =>
            let rect := getBoundingClientRect element in
            s <- get ;;
            (if ripple_style s then ret tt
             else put (mkPageSt (cursor s) true (zoom_style s) (tick s) (draws s)) ;;
                  emit (StyleAppended "__demo-ripple-style")) ;;
            emit (OverlayAppended Ripple
                    (mkRect (rect_x rect + rect_width rect / 2)
                            (rect_y rect + rect_height rect / 2) 10 10)
                    400)
        end) ;;
     page_click selector)
    (logger_warn ("Failed to click element: " ++ selector)).

Definition zoomHighlight (selector : string) (options : option ZoomOptions)
  : M PageSt unit :=
  let scale := nullish (optional options zoom_scale) (105 # 100) in
  let duration := nullish (optional options zoom_duration) 600 in
  try_catch
    (page_evaluate
       (env <- ask ;;
        match querySelector env selector with
        | None => ret tt
        | Some element =>
            let rect := getBoundingClientRect element in
            s <- get ;;
            (if zoom_style s then ret tt
             else put (mkPageSt (cursor s) (ripple_style s) true (tick s) (draws s)) ;;
                  emit (StyleAppended "__demo-zoom-style")) ;;
            emit (OverlayAppended ZoomFrame
                    (mkRect (rect_x rect - 4) (rect_y rect - 4)
                            (rect_width rect + 8) (rect_height rect + 8))
                    duration)
        end) ;;
     page_waitForTimeout duration)
    (logger_warn ("Failed to zoom highlight element: " ++ selector)).

(** ** Paths and file names *)

(** [s.endsWith(suffix)] *)
Fixpoint endsWith (s suffix : string) : bool :=
  String.eqb s suffix ||
  match s with
  | EmptyString => false
  | String _ s' => endsWith s' suffix
  end.

(** [path.join(dir, file)] for a directory and a file name (the
    normalisation of [.], [..] and doubled separators is left out). *)
Definition path_join (dir file : string) : string := (dir ++ "/" ++ file)%string.

(** [inputPath.replace(/\.webm$/, '.mp4')] *)
Fixpoint replace_webm (inputPath : string) : string :=
  if String.eqb inputPath ".webm" then ".mp4"%string
  else match inputPath with
       | EmptyString => EmptyString
       | String c s' => String c (replace_webm s')
       end.

(** ** The recorder *)

Inductive Browser : Type := mkBrowser (id : nat).
Inductive BrowserContext : Type := mkBrowserContext (id : nat).

Record RecorderOptions : Type := mkRecorderOptions { headed : option bool }.

Record PlaywrightRecorder : Type := mkPlaywrightRecorder
  { this_browser : option Browser;
    this_context : option BrowserContext;
    this_options : RecorderOptions }.

(** [new PlaywrightRecorder(options)] *)
Definition new_PlaywrightRecorder (options : RecorderOptions) : PlaywrightRecorder :=
  mkPlaywrightRecorder None None options.

Record RecSt : Type := mkRecSt
  { this : PlaywrightRecorder; world : PageSt }.

(** The helpers handed to the demo script. *)
Record DemoContext : Type := mkDemoContext
  { ctx_browser : Browser;
    ctx_context : BrowserContext;
    ctx_wait : Q -> M PageSt unit;
    ctx_highlight : string -> option Q -> M PageSt unit;
    ctx_hideDevTools : M PageSt unit;
    ctx_typeAnimated : string -> string -> option TypeOptions -> M PageSt unit;
    ctx_moveTo : string -> option MoveOptions -> M PageSt unit;
    ctx_clickAnimated : string -> option ClickOptions -> M PageSt unit;
    ctx_zoomHighlight : string -> option ZoomOptions -> M PageSt unit }.

Record VideoSettings : Type := mkVideoSettings
  { video_width : option Q; video_height : option Q }.

Record DemoDefinition : Type := mkDemoDefinition
  { demo_id : string;
    demo_name : string;
    demo_url : string;
    demo_video : option VideoSettings;
    demo_run : DemoContext -> M PageSt unit }.

Record RecordingResult : Type := mkRecordingResult
  { videoPath : string; durationMs : Q }.

(** A page-level computation run by the recorder itself. *)
Definition on_page {A} (m : M PageSt A) : M RecSt A :=
  fun env s =>
    let '(o, p, t) := m env (world s) in (o, mkRecSt (this s) p, t).

(** The user's script: its events are marked as the script's. *)
Definition run_script (m : M PageSt unit) : M RecSt unit :=
  fun env s =>
    let '(o, p, t) := m env (world s) in (o, mkRecSt (this s) p, map FromScript t).

Definition set_browser (b : option Browser) : M RecSt unit :=
  fun _ s =>
    (Ok tt, mkRecSt (mkPlaywrightRecorder b (this_context (this s)) (this_options (this s)))
                    (world s), []).

Definition set_context (c : option BrowserContext) : M RecSt unit :=
  fun _ s =>
    (Ok tt, mkRecSt (mkPlaywrightRecorder (this_browser (this s)) c (this_options (this s)))
                    (world s), []).

Definition fs_mkdir (dir : string) : M PageSt unit := external (emit (Mkdir dir)).

Definition fs_readdir (dir : string) : M PageSt (list string) :=
  external (emit (Readdir dir) ;; env <- ask ;; ret (readdir env dir)).

Definition Date_now : M PageSt Q := fun env s => (Ok (now env (tick s)), s, []).

Definition chromium_launch (headless : bool) : M PageSt Browser :=
  external (emit (BrowserLaunched headless) ;; s <- get ;; ret (mkBrowser (tick s))).

Definition browser_newContext (width height : Q) (dir : string) : M PageSt BrowserContext :=
  external (emit (ContextCreated width height dir) ;; s <- get ;; ret (mkBrowserContext (tick s))).

(** A new page holds no cursor and no injected style. *)
Definition context_newPage : M PageSt unit :=
  external (s <- get ;; put (mkPageSt None false false (tick s) (draws s)) ;; emit PageCreated).

Definition page_goto (url : string) : M PageSt unit := external (emit (Goto url)).

(** [context.close()] and [browser.close()]: the call is recorded whether it
    resolves or rejects. *)
Definition close_call (ev : bool -> Event) : M PageSt unit :=
  fun env s =>
    if fault env (tick s) then (Throw, bump s, [ev false]) else (Ok tt, bump s, [ev true]).

Definition findRecordedVideo (dir : string) : M PageSt string :=
  files <- fs_readdir dir ;;
  match find (fun f => endsWith f ".webm") files with
  | None => throw
  | Some webmFile => ret (path_join dir webmFile)
  end.

Definition cleanup : M RecSt unit :=
  s <- get ;;
  match this_context (this s) with
  | Some _ =>
      try_catch (on_page (close_call ContextClose)) (ret tt) ;;
      set_context None
  | None => ret tt
  end ;;
  s <- get ;;
  match this_browser (this s) with
  | Some _ =>
      try_catch (on_page (close_call BrowserClose)) (ret tt) ;;
      set_browser None
  | None => ret tt
  end.

Definition record (demo : DemoDefinition) (outputDir : string) : M RecSt RecordingResult :=
  let width := nullish (optional (demo_video demo) video_width) 1920 in
  let height := nullish (optional (demo_video demo) video_height) 1080 in
  let videoDir := path_join outputDir (demo_id demo) in
  on_page (fs_mkdir videoDir) ;;
  startTime <- on_page Date_now ;;
  logger_info (StartingRecording (demo_name demo)) ;;
  logger_info (Resolution width height) ;;
  logger_info (Url (demo_url demo)) ;;
  try_finally
    (s <- get ;;
     browser <- on_page (chromium_launch (negb (nullish (headed (this_options (this s))) false))) ;;
     set_browser (Some browser) ;;
     context <- on_page (browser_newContext width height videoDir) ;;
     set_context (Some context) ;;
     on_page context_newPage ;;
     logger_info NavigatingToUrl ;;
     on_page (page_goto (demo_url demo)) ;;
     on_page hideDevTools ;;
     on_page initFakeCursor ;;
     let demoContext :=
       mkDemoContext browser context
         page_waitForTimeout
         (fun selector durationMs => highlightElement selector (nullish durationMs 500))
         hideDevTools typeAnimated moveTo clickAnimated zoomHighlight in
     logger_info RunningDemoScript ;;
     run_script (demo_run demo demoContext) ;;
     on_page (page_waitForTimeout 500) ;;
     on_page (close_call ContextClose) ;;
     set_context None ;;
     videoPath <- on_page (findRecordedVideo videoDir) ;;
     endTime <- on_page Date_now ;;
     let durationMs := endTime - startTime in
     logger_info (RecordingComplete videoPath) ;;
     logger_info (DurationSeconds durationMs) ;;
     ret (mkRecordingResult videoPath durationMs))
    cleanup.

(** ** Transcoding (video-processor.ts) *)

(** The paths of [ConversionOptions]; [codec] and [crf] only reach the
    arguments of the FFmpeg process. *)
Record ConversionOptions : Type := mkConversionOptions
  { inputPath : string; outputPath : option string }.

(** [spawn('ffmpeg', ['-version'])] resolving to [code === 0]; never rejects. *)
Definition checkFfmpegInstalled : M PageSt bool :=
  env <- ask ;; ret (ffmpeg_installed env).

(** [options.outputPath || inputPath.replace(...)]: the empty string is falsy. *)
Definition conversion_target (options : ConversionOptions) : string :=
  match outputPath options with
  | Some p => if String.eqb p "" then replace_webm (inputPath options) else p
  | None => replace_webm (inputPath options)
  end.

(** Spawns FFmpeg: rejects when it is not installed ([ENOENT]) or exits with
    a code other than 0, and resolves to the output path otherwise.  With
    what code FFmpeg exits is the environment's answer (the fault schedule);
    [FfmpegRun] records a run that exited with 0. *)
Definition convertToMp4 (options : ConversionOptions) : M PageSt string :=
  let outputPath := conversion_target options in
  logger_info (ConvertingToMp4 (inputPath options)) ;;
  env <- ask ;;
  if ffmpeg_installed env
  then external (emit (FfmpegRun (inputPath options) outputPath) ;;
                 logger_info (ConversionComplete outputPath) ;;
                 ret outputPath)
  else throw.

(** ** The record command (cli/commands.ts) *)

Record RecordOptions : Type := mkRecordOptions
  { output : string; convert : bool; opt_headed : bool }.

(** Runs a recorder method on a recorder of its own. *)
Definition with_recorder {A} (r : PlaywrightRecorder) (m : M RecSt A) : M PageSt A :=
  fun env p =>
    let '(o, s, t) := m env (mkRecSt r p) in (o, world s, t).

(** Code the user wrote, run at page level: its events are marked. *)
Definition user_code {A} (m : M PageSt A) : M PageSt A :=
  fun env p =>
    let '(o, p', t) := m env p in (o, p', map FromScript t).

(** [loadDemo] (core/demo-loader) imports the user's demo file; it is passed
    in, and resolves to a demo definition or rejects. *)
Definition recordCommand (loadDemo : string -> M PageSt DemoDefinition)
    (demoFile : string) (options : RecordOptions) : M PageSt unit :=
  emit (SpinnerStart LoadingDemoDefinition) ;;
  try_catch
    (env <- ask ;;
     let demoPath := path_resolve env demoFile in
     demo <- user_code (loadDemo demoPath) ;;
     emit (SpinnerSucceed (LoadedDemo (demo_name demo))) ;;
     (if convert options
      then hasFfmpeg <- checkFfmpegInstalled ;;
           if hasFfmpeg then ret tt
           else emit (SpinnerWarn "FFmpeg not found - video will be saved as WebM")
      else ret tt) ;;
     emit (SpinnerStart RecordingDemo) ;;
     result <- with_recorder
                 (new_PlaywrightRecorder (mkRecorderOptions (Some (opt_headed options))))
                 (record demo (output options)) ;;
     emit (SpinnerSucceed (RecordingCompleteIn (durationMs result))) ;;
     finalPath <-
       (if convert options
        then hasFfmpeg <- checkFfmpegInstalled ;;
             if hasFfmpeg
             then emit (SpinnerStart ConvertingToMP4) ;;
                  converted <- convertToMp4 (mkConversionOptions (videoPath result) None) ;;
                  emit (SpinnerSucceed ConversionDone) ;;
                  ret converted
             else ret (videoPath result)
        else ret (videoPath result)) ;;
     emit (ConsoleLog "
========================================") ;;
     emit (ConsoleLog "Recording saved!") ;;
     emit (ConsoleLog ("File: " ++ finalPath)) ;;
     emit (ConsoleLog "========================================
"))
    (emit (SpinnerFail "Recording failed") ;;
     emit LoggerError ;;
     emit (ProcessExit 1)).

(** ** Reading a trace *)

Definition is_warning (e : Event) : bool :=
  match e with LoggerWarn _ | ConsoleWarn _ => true | _ => false end.

Definition is_overlay (e : Event) : bool :=
  match e with OverlayAppended _ _ _ => true | _ => false end.

Definition mouse_moves (tr : list Event) : list (Q * Q) :=
  flat_map (fun e => match e with MouseMove x y => [(x, y)] | _ => [] end) tr.

Definition cursor_updates (tr : list Event) : list (Q * Q) :=
  flat_map (fun e => match e with UpdateCursorPosition x y => [(x, y)] | _ => [] end) tr.

Definition waits (tr : list Event) : list Q :=
  flat_map (fun e => match e with WaitForTimeout ms => [ms] | _ => [] end) tr.

Definition keyboard_inputs (tr : list Event) : list ascii :=
  flat_map (fun e => match e with KeyboardType c => [c] | _ => [] end) tr.

(** The characters typed, each with the wait that follows it at once. *)
Fixpoint key_waits (tr : list Event) : list (ascii * Q) :=
  match tr with
  | [] => []
  | KeyboardType c :: rest =>
      match rest with
      | WaitForTimeout ms :: _ => (c, ms) :: key_waits rest
      | _ => key_waits rest
      end
  | _ :: rest => key_waits rest
  end.

(** No call into Playwright or the file system rejects. *)
Definition no_faults (env : Env) : Prop := forall n, fault env n = false.

(** The events of one step of [moveTo]'s loop. *)
Definition step_events (pos : Q * Q) (targetX targetY steps stepDelay : Q) (i : Z)
  : list Event :=
  let x := interpolate (fst pos) targetX steps i in
  let y := interpolate (snd pos) targetY steps i in
  [UpdateCursorPosition x y; MouseMove x y; WaitForTimeout stepDelay].

(** The centre of a bounding box. *)
Definition center (box : Rect) : Q * Q :=
  (rect_x box + rect_width box / 2, rect_y box + rect_height box / 2).

(** The events of typing [chars], the first of them with draw number [d]. *)
Fixpoint typing_events (env : Env) (delay variation : Q) (d : nat) (chars : list ascii)
  : list Event :=
  match chars with
  | [] => []
  | c :: chars' =>
      KeyboardType c
        :: WaitForTimeout (Qmax 10 (actualDelay delay variation (random env d)))
        :: typing_events env delay variation (S d) chars'
  end.

(** ** Sample pages *)

Definition btn : Element :=
  mkElement (Some (mkRect 250 180 100 40)) (mkRect 250 180 100 40).

(** A page whose only element is [#btn], centred at (300, 200); no call
    rejects, and [Math.random()] alternates between 0 and 39/40. *)
Definition sample_env : Env :=
  mkEnv (fun selector => if String.eqb selector "#btn" then Some btn else None)
        0 0 (fun _ => false)
        (fun n => if Nat.even n then 0 else 39 # 40)
        (fun n => inject_Z (Z.of_nat n))
        (fun _ => ["a1b2c3.webm"%string])
        (fun p => p) false.

Definition fresh_page : PageSt := mkPageSt None false false 0 0.

(** The page right after [initFakeCursor]: the cursor sits at (0, 0). *)
Definition page_with_cursor : PageSt :=
  mkPageSt (Some (mkCursor (Some 0) (Some 0))) false false 0 0.

(** ** Properties of traces *)

(** Every event [m] emits, in any environment and from any state,
    satisfies [P]. *)
Definition emits_only {S A} (P : Event -> Prop) (m : M S A) : Prop :=
  forall env s, Forall P (trace_of (m env s)).

(** A wait is at least 10 ms long. *)
Definition wait_at_least_10 (e : Event) : Prop :=
  match e with WaitForTimeout ms => 10 <= ms | _ => True end.

(** ** Handles acquired and released *)

Definition is_launch (e : Event) : bool :=
  match e with BrowserLaunched _ => true | _ => false end.

Definition is_browser_close (e : Event) : bool :=
  match e with BrowserClose _ => true | _ => false end.

Definition is_context_created (e : Event) : bool :=
  match e with ContextCreated _ _ _ => true | _ => false end.

Definition is_context_close (e : Event) : bool :=
  match e with ContextClose _ => true | _ => false end.

(** Every event that [acq] accepts is followed, later in the trace, by one
    that [cls] accepts. *)
Fixpoint followed_by (acq cls : Event -> bool) (tr : list Event) : bool :=
  match tr with
  | [] => true
  | e :: rest => (negb (acq e) || existsb cls rest) && followed_by acq cls rest
  end.

(** The recorder closed, or tried to close, every browser and every context
    it opened. *)
Definition released (tr : list Event) : bool :=
  followed_by is_launch is_browser_close tr &&
  followed_by is_context_created is_context_close tr.

(** A demo whose script waits for one second. *)
Definition sample_demo : DemoDefinition :=
  mkDemoDefinition "example-demo" "Example Demo" "http://localhost:3000" None
                   (fun ctx => ctx_wait ctx 1000).

(** A demo whose script throws at once. *)
Definition failing_demo : DemoDefinition :=
  mkDemoDefinition "failing-demo" "Failing Demo" "http://localhost:3000" None
                   (fun _ => throw).

(** ** A program logic for [M] *)

(** In the environment [env], started in a state [s] after a trace [t0]
    with [P s t0], the computation [m] ends with [Q] of its outcome, its
    final state and the trace so far. *)
Definition hoare {S A} (env : Env) (P : S -> list Event -> Prop) (m : M S A)
    (Q : Outcome A -> S -> list Event -> Prop) : Prop :=
  forall s t0,
    P s t0 -> Q (outcome_of (m env s)) (state_of (m env s)) (t0 ++ trace_of (m env s)).

(** An event that opens neither a browser nor a context. *)
Definition neutral (e : Event) : Prop :=
  is_launch e = false /\ is_context_created e = false.

(** A recorder method that leaves the recorder's fields alone. *)
Definition keeps_this {A} (m : M RecSt A) : Prop :=
  forall env s, this (state_of (m env s)) = this s.

(** Nothing was opened yet and the recorder is as [new] left it. *)
Definition Untouched (options : RecorderOptions) (s : RecSt) (t : list Event) : Prop :=
  this s = new_PlaywrightRecorder options /\
  existsb is_launch t = false /\
  existsb is_context_created t = false.

(** The recorder's fields account for what is open: a browser was launched
    only if [this.browser] holds it, and every context created was closed
    unless [this.context] holds it. *)
Definition Tracked (options : RecorderOptions) (s : RecSt) (t : list Event) : Prop :=
  this_options (this s) = options /\
  (this_browser (this s) = None -> existsb is_launch t = false) /\
  (this_context (this s) = None ->
   followed_by is_context_created is_context_close t = true).

(** Both fields are [null] again and whatever was opened was closed. *)
Definition Released (options : RecorderOptions) (s : RecSt) (t : list Event) : Prop :=
  this s = new_PlaywrightRecorder options /\ released t = true.

(** ** What the command prints *)

Definition is_console_log (e : Event) : bool :=
  match e with ConsoleLog _ => true | _ => false end.

Definition not_console_log (e : Event) : Prop := is_console_log e = false.

(** The record command run on the sample page: the demo file loads. *)
Definition sample_loadDemo (demoPath : string) : M PageSt DemoDefinition :=
  ret sample_demo.

(** ** Further readings of a trace and of a page *)

Definition is_click (e : Event) : bool :=
  match e with Click _ => true | _ => false end.

Definition is_style (e : Event) : bool :=
  match e with StyleAppended _ => true | _ => false end.

Definition is_key (e : Event) : bool :=
  match e with KeyboardType _ => true | _ => false end.

(** [x] lies on the segment from [a] to [b]. *)
Definition between (a b x : Q) : Prop :=
  (a <= x /\ x <= b) \/ (b <= x /\ x <= a).

(** The page after one step of [moveTo]'s loop to the point [p]: three
    calls were made, and the cursor element, if there is one, sits at [p]. *)
Definition moved (s : PageSt) (p : Q * Q) : PageSt :=
  mkPageSt (match cursor s with
            | Some _ => Some (mkCursor (Some (fst p)) (Some (snd p)))
            | None => None
            end)
           (ripple_style s) (zoom_style s) (3 + tick s) (draws s).

(** An element that is in the page but not visible: it has no bounding box. *)
Definition hidden_element : Element := mkElement None (mkRect 0 0 0 0).

(** The sample page with a second, hidden element [#hidden]. *)
Definition sample_env_hidden : Env :=
  mkEnv (fun selector =>
           if String.eqb selector "#btn" then Some btn
           else if String.eqb selector "#hidden" then Some hidden_element
           else None)
        0 0 (fun _ => false)
        (fun n => if Nat.even n then 0 else 39 # 40)
        (fun n => inject_Z (Z.of_nat n))
        (fun _ => ["a1b2c3.webm"%string])
        (fun p => p) false.

(** [file] is the first entry of [files] whose name ends in [.webm]. *)
Definition first_webm (files : list string) (file : string) : Prop :=
  exists before after,
    files = before ++ file :: after /\
    Forall (fun f => endsWith f ".webm" = false) before /\
    endsWith file ".webm" = true.

(** A recorder that still holds a browser and a context. *)
Definition busy_recorder : RecSt :=
  mkRecSt (mkPlaywrightRecorder (Some (mkBrowser 1)) (Some (mkBrowserContext 2))
                                (mkRecorderOptions None))
          fresh_page.

(** The sample page on which every call rejects. *)
Definition failing_env : Env :=
  mkEnv (querySelector sample_env) 0 0 (fun _ => true) (random sample_env)
        (now sample_env) (readdir sample_env) (path_resolve sample_env) false.

(** ** The script inside [record] *)

Definition is_running (e : Event) : bool :=
  match e with LoggerInfo RunningDemoScript => true | _ => false end.

Definition not_running (e : Event) : Prop := is_running e = false.

Definition is_complete (e : Event) : bool :=
  match e with LoggerInfo (RecordingComplete _) => true | _ => false end.

Definition not_complete (e : Event) : Prop := is_complete e = false.

(** The [demoContext] that [record] builds for the script. *)
Definition demoContext_of (browser : Browser) (context : BrowserContext) : DemoContext :=
  mkDemoContext browser context
    page_waitForTimeout
    (fun selector durationMs => highlightElement selector (nullish durationMs 500))
    hideDevTools typeAnimated moveTo clickAnimated zoomHighlight.

(** A page as [newPage] hands it out. *)
Definition blank (p : PageSt) : Prop :=
  cursor p = None /\ ripple_style p = false /\ zoom_style p = false.

(** A page on which the cursor element was just created. *)
Definition ready (p : PageSt) : Prop :=
  cursor p = Some (mkCursor (Some 0) (Some 0)) /\
  ripple_style p = false /\ zoom_style p = false.

(** The trace shows the script being started on a ready page, right after
    the style tag and the cursor were added. *)
Definition script_started (env : Env) (demo : DemoDefinition) (tr : list Event) : Prop :=
  exists before browser context page rest,
    tr = before ++ [StyleTagAdded; CursorCreated; LoggerInfo RunningDemoScript] ++
         map FromScript (trace_of (demo_run demo (demoContext_of browser context) env page)) ++
         rest /\
    ready page.

(** ** How the record command ends *)

Definition is_exit (e : Event) : bool :=
  match e with ProcessExit _ => true | _ => false end.

(** Neither a [console.log] line nor a call of [process.exit]. *)
Definition unreported (e : Event) : Prop :=
  is_console_log e = false /\ is_exit e = false.

(** The four lines the command prints when the recording is saved. *)
Definition saved_lines (finalPath : string) : list Event :=
  [ConsoleLog "
========================================";
   ConsoleLog "Recording saved!";
   ConsoleLog ("File: " ++ finalPath);
   ConsoleLog "========================================
"].

(** What the [catch] block of the command does. *)
Definition failure_lines : list Event :=
  [SpinnerFail "Recording failed"; LoggerError; ProcessExit 1].

(** An event of the conversion to MP4, or the warning that stands for it. *)
Definition is_conversion (e : Event) : bool :=
  match e with
  | FfmpegRun _ _ | SpinnerWarn _ | SpinnerStart ConvertingToMP4
  | SpinnerSucceed ConversionDone
  | LoggerInfo (ConvertingToMp4 _) | LoggerInfo (ConversionComplete _) => true
  | _ => false
  end.

Definition not_conversion (e : Event) : Prop := is_conversion e = false.

(** The sample page on a machine that has FFmpeg. *)
Definition sample_env_ffmpeg : Env :=
  mkEnv (querySelector sample_env) 0 0 (fun _ => false) (random sample_env)
        (now sample_env) (readdir sample_env) (path_resolve sample_env) true.

(** The same machine when the thirteenth external call, the FFmpeg run that
    follows the sample recording, fails. *)
Definition sample_env_ffmpeg_fails : Env :=
  mkEnv (querySelector sample_env) 0 0 (Nat.eqb 12) (random sample_env)
        (now sample_env) (readdir sample_env) (path_resolve sample_env) true.

(** ** What [record] opens *)

(** The trace starts with the creation of [dir], and the browsers launched
    and the contexts created in it are [launched] and [created]. *)
Definition opened (dir : string) (launched created : list Event) (t : list Event) : Prop :=
  (exists rest, t = Mkdir dir :: rest) /\
  filter is_launch t = launched /\
  filter is_context_created t = created.

(** * The create and list commands (cli/commands.ts)

    These commands work on the file system and may end the process.  A
    command is a computation in [Cli]: like [M], with the files on disk in
    its state and with a third way to end, [process.exit]. *)

(** What the commands do that can be observed. *)
Inductive CliEvent : Type :=
| Inner (e : Event)                   (* an event of the record command or of user code *)
| Spinner_start (msg : string)
| Spinner_succeed (msg : string)
| Spinner_fail (msg : string)
| Spinner_info (msg : string)
| Console_log (msg : string)
| Console_log_error                   (* the line [    Error: <message>] *)
| Logger_error
| Fs_mkdir (dir : string)
| Fs_access (path : string)
| Fs_writeFile (path content : string)
| Process_exit (code : Z).

Record CliSt : Type := mkCliSt
  { disk : string -> option string;   (* the files and their contents *)
    cli_page : PageSt }.

Inductive Ending (A : Type) : Type :=
| Returned (a : A)
| Threw
| Exited (code : Z).                  (* [process.exit(code)]: nothing runs after it *)
Arguments Returned {A} a.
Arguments Threw {A}.
Arguments Exited {A} code.

Definition Cli (A : Type) : Type := Env -> CliSt -> Ending A * CliSt * list CliEvent.

Definition cli_ret {A} (a : A) : Cli A := fun _ s => (Returned a, s, []).

Definition cli_bind {A B} (m : Cli A) (k : A -> Cli B) : Cli B :=
  fun env s =>
    match m env s with
    | (Returned a, s1, t1) => let '(o, s2, t2) := k a env s1 in (o, s2, t1 ++ t2)
    | (Threw, s1, t1) => (Threw, s1, t1)
    | (Exited code, s1, t1) => (Exited code, s1, t1)
    end.

(** [try { m } catch { h }]: [process.exit] is not an exception. *)
Definition cli_try_catch {A} (m h : Cli A) : Cli A :=
  fun env s =>
    match m env s with
    | (Threw, s1, t1) => let '(o, s2, t2) := h env s1 in (o, s2, t1 ++ t2)
    | r => r
    end.

Definition cli_emit (e : CliEvent) : Cli unit := fun _ s => (Returned tt, s, [e]).

Definition cli_ask : Cli Env := fun env s => (Returned env, s, []).

Definition process_exit {A} (code : Z) : Cli A :=
  fun _ s => (Exited code, s, [Process_exit code]).

Declare Scope cli_scope.
Delimit Scope cli_scope with cli.
Notation "x <- m ;; k" := (cli_bind m (fun x => k))
  (at level 61, m at next level, right associativity) : cli_scope.
Notation "m ;; k" := (cli_bind m (fun _ => k))
  (at level 61, right associativity) : cli_scope.

(** [for (const a of l) { body a }] *)
Fixpoint cli_for_of {A} (l : list A) (body : A -> Cli unit) : Cli unit :=
  match l with
  | [] => cli_ret tt
  | a :: l' => (body a ;; cli_for_of l' body)%cli
  end.

Definition ending_of {A} (r : Ending A * CliSt * list CliEvent) : Ending A := fst (fst r).
Definition disk_of {A} (r : Ending A * CliSt * list CliEvent) : string -> option string :=
  disk (snd (fst r)).
Definition events_of {A} (r : Ending A * CliSt * list CliEvent) : list CliEvent := snd r.

(** An awaited call into [fs]: it may reject, as the fault schedule says. *)
Definition cli_external {A} (effect : Cli A) : Cli A :=
  fun env s =>
    let s' := mkCliSt (disk s) (bump (cli_page s)) in
    if fault env (tick (cli_page s)) then (Threw, s', []) else effect env s'.

(** [fs.mkdir(dir, { recursive: true })] *)
Definition cli_mkdir (dir : string) : Cli unit := cli_external (cli_emit (Fs_mkdir dir)).

(** [fs.access(path)] rejects when there is no such file. *)
Definition fs_access (path : string) : Cli unit :=
  cli_external
    (fun _ s =>
       (match disk s path with Some _ => Returned tt | None => Threw end,
        s, [Fs_access path])).

(** [fs.writeFile(path, content)] creates the file or replaces its content. *)
Definition fs_writeFile (path content : string) : Cli unit :=
  cli_external
    (fun _ s =>
       (Returned tt,
        mkCliSt (fun p => if String.eqb p path then Some content else disk s p) (cli_page s),
        [Fs_writeFile path content])).

(** The code [process.exit] was called with, if it was called. *)
Fixpoint exit_code (t : list Event) : option Z :=
  match t with
  | [] => None
  | ProcessExit code :: _ => Some code
  | _ :: rest => exit_code rest
  end.

(** Runs the record command, or code of the user, inside a command: a
    [process.exit] in it ends the command as well. *)
Definition lift {A} (m : M PageSt A) : Cli A :=
  fun env s =>
    let '(o, p, t) := m env (cli_page s) in
    (match exit_code t with
     | Some code => Exited code
     | None => match o with Ok a => Returned a | Throw => Threw end
     end,
     mkCliSt (disk s) p, map Inner t).

(** ** The name of a new demo *)

(** [c.toUpperCase()] for an ASCII character. *)
Definition toUpperCase (c : ascii) : ascii :=
  let n := nat_of_ascii c in
  if (97 <=? n)%nat && (n <=? 122)%nat then ascii_of_nat (n - 32) else c.

(** [id.split('-')] *)
Fixpoint split_hyphen (s : string) : list string :=
  match s with
  | EmptyString => [EmptyString]
  | String c rest =>
      if Ascii.eqb c "-" then EmptyString :: split_hyphen rest
      else match split_hyphen rest with
           | w :: ws => String c w :: ws
           | [] => [String c EmptyString]
           end
  end.

(** [w.charAt(0).toUpperCase() + w.slice(1)] *)
Definition capitalize (w : string) : string :=
  match w with
  | EmptyString => EmptyString
  | String c rest => String (toUpperCase c) rest
  end.

(** [id.split('-').map(w => w.charAt(0).toUpperCase() + w.slice(1)).join(' ')] *)
Definition default_name (id : string) : string :=
  String.concat " " (map capitalize (split_hyphen id)).

Definition generateDemoTemplate (id name url : string) : string :=
  ("import type { DemoDefinition } from '../src/core/types';

const demo: DemoDefinition = {
  id: '" ++ id ++ "',
  name: '" ++ name ++ "',
  url: '" ++ url ++ "',

  run: async ({ page, wait, highlight }) => {
    // Wait for page to load
    await wait(1500);

    // TODO: Add your demo steps here
    // Examples:
    //   await highlight('button.submit', 500);  // Highlight an element
    //   await page.click('button.submit');       // Click an element
    //   await page.fill('input#email', 'test@example.com');  // Fill input
    //   await page.waitForSelector('.result');   // Wait for element
    //   await wait(2000);                        // Pause for 2 seconds

    // Final pause
    await wait(2000);
  },
};

export default demo;
")%string.

(** ** createCommand *)

Record CreateOptions : Type := mkCreateOptions
  { create_url : string;
    create_name : option string;
    create_dir : string;
    create_record : bool;
    create_output : string;
    create_headed : bool }.

(** [options.name || <the name made from the id>]: the empty string is falsy. *)
Definition demo_name_for (id : string) (options : CreateOptions) : string :=
  match create_name options with
  | Some name => if String.eqb name "" then default_name id else name
  | None => default_name id
  end.

Definition createCommand (loadDemo : string -> M PageSt DemoDefinition)
    (id : string) (options : CreateOptions) : Cli unit :=
  (cli_emit (Spinner_start "Creating demo file...") ;;
   cli_try_catch
     (env <- cli_ask ;;
      let demosDir := path_resolve env (create_dir options) in
      cli_mkdir demosDir ;;
      let filename := (id ++ ".demo.ts")%string in
      let filepath := path_join demosDir filename in
      cli_try_catch
        (fs_access filepath ;;
         cli_emit (Spinner_fail ("Demo file already exists: " ++ filepath)) ;;
         process_exit 1)
        (cli_ret tt) ;;
      let name := demo_name_for id options in
      let template := generateDemoTemplate id name (create_url options) in
      fs_writeFile filepath template ;;
      cli_emit (Spinner_succeed ("Created demo: " ++ filepath)) ;;
      cli_emit (Console_log "
Next steps:") ;;
      cli_emit (Console_log ("  1. Edit " ++ filename ++ " to define your demo flow")) ;;
      cli_emit (Console_log ("  2. Run: demo-recorder record " ++ filepath)) ;;
      if create_record options
      then cli_emit (Console_log "
") ;;
           lift (recordCommand loadDemo filepath
                   (mkRecordOptions (create_output options) true (create_headed options)))
      else cli_ret tt)
     (cli_emit (Spinner_fail "Failed to create demo") ;;
      cli_emit Logger_error ;;
      process_exit 1))%cli.

(** ** listCommand *)

(** [`Found ${n} demo file(s)`] *)
Definition found_message (n : nat) : string :=
  ("Found " ++ NilZero.string_of_uint (Nat.to_uint n) ++ " demo file(s)")%string.

(** What a rejected promise carries, as far as the command looks at it.
    [null] and [undefined] have no properties: reading [error.message] from
    them throws a [TypeError].  Any other value has a [message] to print,
    be it [undefined]. *)
Inductive Thrown : Type := Nullish | Described.

(** How a call of [loadDemo] settles: fulfilled with a demo, or rejected
    with a value. *)
Definition Loader : Type :=
  string -> Env -> PageSt -> (DemoDefinition + Thrown) * PageSt * list Event.

Definition cli_throw {A} : Cli A := fun _ s => (Threw, s, []).

(** Awaits a call of [loadDemo] and hands on how it settled: the demo, or
    the value that [catch (error)] binds. *)
Definition settle (load : Env -> PageSt -> (DemoDefinition + Thrown) * PageSt * list Event)
  : Cli (DemoDefinition + Thrown) :=
  fun env s =>
    let '(r, p, t) := load env (cli_page s) in
    (Returned r, mkCliSt (disk s) p, map Inner (map FromScript t)).

(** The body of the loop of [listCommand]:
    [try { const demo = await loadDemo(file); ... } catch (error) { ... }].
    The lines printed in the [try] block cannot throw, so the handler runs
    exactly when [loadDemo] rejects; the handler itself throws when it
    reads [.message] from [null] or [undefined]. *)
Definition list_one (loadDemo : Loader) (basename : string -> string) (file : string)
  : Cli unit :=
  (settled <- settle (loadDemo file) ;;
   match settled with
   | inl demo =>
       cli_emit (Console_log ("  " ++ basename file)) ;;
       cli_emit (Console_log ("    ID: " ++ demo_id demo)) ;;
       cli_emit (Console_log ("    Name: " ++ demo_name demo)) ;;
       cli_emit (Console_log ("    URL: " ++ demo_url demo)) ;;
       cli_emit (Console_log "")
   | inr error =>
       cli_emit (Console_log ("  " ++ basename file)) ;;
       match error with
       | Described => cli_emit Console_log_error ;; cli_emit (Console_log "")
       | Nullish => cli_throw
       end
   end)%cli.

(** [listDemos] and [loadDemo] (core/demo-loader) and [path.basename] are
    passed in. *)
Definition listCommand (listDemos : string -> M PageSt (list string))
    (loadDemo : Loader) (basename : string -> string) (dir : string) : Cli unit :=
  (cli_emit (Spinner_start "Finding demo files...") ;;
   cli_try_catch
     (env <- cli_ask ;;
      let demosDir := path_resolve env dir in
      demoFiles <- lift (user_code (listDemos demosDir)) ;;
      match demoFiles with
      | [] =>
          cli_emit (Spinner_info "No demo files found") ;;
          cli_emit (Console_log ("
Looking in: " ++ demosDir)) ;;
          cli_emit (Console_log
                      "Demo files should have the extension: .demo.ts, .demo.js, or .demo.mjs
")
      | _ :: _ =>
          cli_emit (Spinner_succeed (found_message (List.length demoFiles))) ;;
          cli_emit (Console_log "
Available demos:
") ;;
          cli_for_of demoFiles (list_one loadDemo basename)
      end)
     (cli_emit (Spinner_fail "Failed to list demos") ;;
      cli_emit Logger_error ;;
      process_exit 1))%cli.

(** The name spelt in one pass over the id: a hyphen becomes a space, and a
    character that starts a word ([start]) is put in upper case. *)
Fixpoint respell (start : bool) (s : string) : string :=
  match s with
  | EmptyString => EmptyString
  | String c rest =>
      if Ascii.eqb c "-" then String " " (respell true rest)
      else String (if start then toUpperCase c else c) (respell false rest)
  end.

(** A machine on which nothing rejects and [demos/my-feature.demo.ts] exists. *)
Definition sample_cli : CliSt :=
  mkCliSt (fun p => if String.eqb p "demos/my-feature.demo.ts"
                    then Some "export default {}"%string else None)
          fresh_page.

Definition sample_create : CreateOptions :=
  mkCreateOptions "http://localhost:3000" None "demos" false "./output" false.

(** The only code the record command exits with is 1. *)
Definition exits_with_1 (e : Event) : Prop :=
  match e with ProcessExit code => code = 1%Z | _ => True end.

(** The lines [listCommand] prints for one demo file: what loading it made
    the user's code do, then the name of the file, then either the three
    lines that describe the demo or the error line, then an empty line. *)
Definition listed (basename : string -> string) (file : string) (block : list CliEvent)
  : Prop :=
  exists loading details,
    block = map Inner (map FromScript loading) ++
            Console_log ("  " ++ basename file) :: details ++ [Console_log ""] /\
    (details = [Console_log_error] \/
     exists demo,
       details = [Console_log ("    ID: " ++ demo_id demo);
                  Console_log ("    Name: " ++ demo_name demo);
                  Console_log ("    URL: " ++ demo_url demo)]).

(** A demos directory with two demo files, the second of which does not load. *)
Definition sample_listDemos (dir : string) : M PageSt (list string) :=
  ret ["demos/example.demo.ts"%string; "demos/broken.demo.ts"%string].

(** Loading it rejects with an [Error]. *)
Definition sample_loadDemo_or_fail : Loader :=
  fun file _ p =>
    (if String.eqb file "demos/broken.demo.ts" then inr Described else inl sample_demo,
     p, []).

(** A loader whose demo files all reject with [null]. *)
Definition sample_loadDemo_null : Loader := fun _ _ p => (inr Nullish, p, []).


(** * Numbers as the engine computes them

    A JavaScript [number] is an IEEE 754 binary64 number.  The embedding
    above computes with exact rationals; it agrees with the engine wherever
    the engine's arithmetic does not round and meets neither [NaN] nor an
    infinity.  This section says where that is, and writes the two pieces of
    arithmetic on which the difference shows -- the last position of
    [moveTo] and the wait of [typeAnimated] -- in binary64 as well. *)

(** [x] is a whole multiple of 1/1024 of magnitude at most 2^42.  The sum
    and the difference of two such numbers have 53 significant bits at
    most: binary64 computes them without rounding.  Whole pixels, half
    pixels and Chromium's layout units (1/64 px) are of this kind. *)
Definition on_pixel_grid (x : Q) : Prop :=
  exists m : Z, x == m # 1024 /\ (Z.abs m <= 2 ^ 52)%Z.

(** A whole number of pixels below a million: [style.left] and [style.top]
    give such a number back as it was written. *)
Definition whole_pixel (x : Q) : Prop :=
  exists m : Z, x == inject_Z m /\ (Z.abs m <= 999999)%Z.

(** [Math.pow(x, 3)]; the engine's value may differ from this product in the
    last bit, except at 0 and 1, where both are exact. *)
Definition Math_pow3 (x : float) : float := (x * x * x)%float.

(** [1 - Math.pow(1 - i / steps, 3)] *)
Definition eased64 (i steps : float) : float :=
  let progress := (i / steps)%float in
  (1 - Math_pow3 (1 - progress))%float.

(** [current + (target - current) * eased] *)
Definition interpolate64 (current target i steps : float) : float :=
  (current + (target - current) * eased64 i steps)%float.

(** [Math.floor(x)] *)
Definition Math_floor (x : float) : float :=
  match Prim2SF x with
  | S754_finite s m e =>
      if (0 <=? e)%Z then x
      else
        let d := (2 ^ (- e))%Z in
        let q := (Z.pos m / d)%Z in
        if (Z.pos m mod d =? 0)%Z then x
        else if s then PrimFloat.opp (PrimFloat.of_uint63 (Uint63.of_Z (q + 1)))
        else PrimFloat.of_uint63 (Uint63.of_Z q)
  | _ => x
  end.

(** [Math.max(a, b)]: [NaN] when either is [NaN], and [+0] above [-0]. *)
Definition Math_max (a b : float) : float :=
  if PrimFloat.is_nan a || PrimFloat.is_nan b then PrimFloat.nan
  else if PrimFloat.ltb a b then b
  else if PrimFloat.ltb b a then a
  else if PrimFloat.get_sign a then b else a.

(** [Math.max(10, delay + Math.floor(Math.random() * variation * 2) - variation)],
    where [r] is what [Math.random()] returned. *)
Definition key_wait64 (delay variation r : float) : float :=
  Math_max 10 (delay + Math_floor (r * variation * 2) - variation)%float.


(** * Properties *)

(** ** The monad *)

Lemma try_catch_warn_never_throws {S} (m : M S unit) (msg : string) env s :
  outcome_of (try_catch m (logger_warn msg) env s) = Ok tt.
Proof.
  unfold try_catch, outcome_of.
  destruct (m env s) as [[[[]|] s1] t1]; reflexivity.
Qed.

Lemma try_catch_warn_trace {S} (m : M S unit) (msg : string) env s :
  trace_of (try_catch m (logger_warn msg) env s) =
  trace_of (m env s) ++
  match outcome_of (m env s) with Ok _ => [] | Throw => [LoggerWarn msg] end.
Proof.
  unfold try_catch, trace_of, outcome_of.
  destruct (m env s) as [[[a|] s1] t1]; simpl; [now rewrite app_nil_r | reflexivity].
Qed.

Lemma bind_run {S A B} (m : M S A) (k : A -> M S B) env s :
  bind m k env s =
  match m env s with
  | (Ok a, s1, t1) => let '(o, s2, t2) := k a env s1 in (o, s2, t1 ++ t2)
  | (Throw, s1, t1) => (Throw, s1, t1)
  end.
Proof. reflexivity. Qed.

Lemma bind_trace_prefix {S A B} (m : M S A) (k : A -> M S B) env s :
  exists t, trace_of (bind m k env s) = trace_of (m env s) ++ t.
Proof.
  unfold bind, trace_of.
  destruct (m env s) as [[[a|] s1] t1]; simpl.
  - destruct (k a env s1) as [[o s2] t2]. now exists t2.
  - exists []. now rewrite app_nil_r.
Qed.

Lemma bind_throws {S A B} (m : M S A) (k : A -> M S B) env s :
  outcome_of (m env s) = Throw -> outcome_of (bind m k env s) = Throw.
Proof.
  unfold bind, outcome_of.
  destruct (m env s) as [[[a|] s1] t1]; simpl; [discriminate | reflexivity].
Qed.

(** A body that throws or warns makes [try { body } catch { warn }] warn. *)
Lemma try_catch_warns {S} (m : M S unit) (msg : string) env s :
  outcome_of (m env s) = Throw \/ existsb is_warning (trace_of (m env s)) = true ->
  existsb is_warning (trace_of (try_catch m (logger_warn msg) env s)) = true.
Proof.
  rewrite try_catch_warn_trace, existsb_app. intros [H | H].
  - rewrite H. simpl. apply orb_true_r.
  - now rewrite H.
Qed.

Lemma bind_throws_or_warns {S A B} (m : M S A) (k : A -> M S B) env s :
  outcome_of (m env s) = Throw \/ existsb is_warning (trace_of (m env s)) = true ->
  outcome_of (bind m k env s) = Throw \/
  existsb is_warning (trace_of (bind m k env s)) = true.
Proof.
  intros [H | H].
  - left. now apply bind_throws.
  - right. destruct (bind_trace_prefix m k env s) as [t ->].
    now rewrite existsb_app, H.
Qed.

(** ** Calls of [external] *)

Lemma external_quiet {A} (effect : M PageSt A) env s :
  no_faults env -> external effect env s = effect env (bump s).
Proof. intros H. unfold external. now rewrite H. Qed.

Lemma external_cases {A} (effect : M PageSt A) env s :
  external effect env s = (Throw, bump s, []) \/
  external effect env s = effect env (bump s).
Proof. unfold external. destruct (fault env (tick s)); auto. Qed.

(** ** Helpers on a selector that matches nothing *)

Section Missing.
Variable env : Env.
Variable selector : string.
Hypothesis missing : querySelector env selector = None.

Lemma page_click_missing s : outcome_of (page_click selector env s) = Throw.
Proof.
  unfold page_click.
  destruct (external_cases
              (env0 <- ask ;;
               match querySelector env0 selector with
               | Some _ => emit (Click selector)
               | None => throw
               end) env s) as [-> | ->]; [reflexivity|].
  unfold bind, ask, outcome_of. simpl. now rewrite missing.
Qed.

Lemma highlightElement_missing_warns durationMs s :
  existsb is_warning (trace_of (highlightElement selector durationMs env s)) = true.
Proof.
  unfold highlightElement. apply try_catch_warns, bind_throws_or_warns.
  unfold page_evaluate.
  match goal with |- context [external ?e env s] =>
    destruct (external_cases e env s) as [-> | ->] end; [now left|].
  right. unfold bind, ask, trace_of. simpl. now rewrite missing.
Qed.

Lemma moveTo_missing_warns options s :
  existsb is_warning (trace_of (moveTo selector options env s)) = true.
Proof.
  unfold moveTo. apply try_catch_warns.
  unfold page_query. rewrite bind_run.
  match goal with |- context [external ?e env s] =>
    destruct (external_cases e env s) as [-> | ->] end; [now left|].
  right. unfold bind, ask, ret. simpl. now rewrite missing.
Qed.

Lemma typeAnimated_missing_warns text options s :
  existsb is_warning (trace_of (typeAnimated selector text options env s)) = true.
Proof.
  unfold typeAnimated. apply try_catch_warns. left.
  apply bind_throws, page_click_missing.
Qed.

Lemma clickAnimated_missing_warns options s :
  existsb is_warning (trace_of (clickAnimated selector options env s)) = true.
Proof.
  unfold clickAnimated. apply try_catch_warns, bind_throws_or_warns.
  right. apply moveTo_missing_warns.
Qed.
End Missing.

(** C3, as the code has it: on a selector that matches no element, each of
    highlight, clickAnimated, typeAnimated, moveTo and zoomHighlight
    completes normally, whatever calls reject underneath; highlight,
    clickAnimated, typeAnimated and moveTo also log a warning. *)
Theorem helpers_never_raise_on_missing
    env selector s durationMs text (topts : option TypeOptions)
    (mopts : option MoveOptions) (copts : option ClickOptions)
    (zopts : option ZoomOptions) :
  querySelector env selector = None ->
  (outcome_of (highlightElement selector durationMs env s) = Ok tt /\
   outcome_of (clickAnimated selector copts env s) = Ok tt /\
   outcome_of (typeAnimated selector text topts env s) = Ok tt /\
   outcome_of (moveTo selector mopts env s) = Ok tt /\
   outcome_of (zoomHighlight selector zopts env s) = Ok tt) /\
  (existsb is_warning (trace_of (highlightElement selector durationMs env s)) = true /\
   existsb is_warning (trace_of (clickAnimated selector copts env s)) = true /\
   existsb is_warning (trace_of (typeAnimated selector text topts env s)) = true /\
   existsb is_warning (trace_of (moveTo selector mopts env s)) = true).
Proof.
  intros Hq. split.
  - repeat split; apply try_catch_warn_never_throws.
  - repeat split.
    + now apply highlightElement_missing_warns.
    + now apply clickAnimated_missing_warns.
    + now apply typeAnimated_missing_warns.
    + now apply moveTo_missing_warns.
Qed.

Lemma helpers_never_raise_on_missing_witness :
  querySelector sample_env ".missing" = None /\
  outcome_of (zoomHighlight ".missing" None sample_env fresh_page) = Ok tt /\
  existsb is_warning (trace_of (moveTo ".missing" None sample_env fresh_page)) = true.
Proof.
  split; [reflexivity|].
  pose proof (helpers_never_raise_on_missing sample_env ".missing" fresh_page
                500 "hi" None None None None eq_refl) as [[_ [_ [_ [_ Hz]]]] [_ [_ [_ Hm]]]].
  split; assumption.
Defined.

(** C3 as stated fails for zoomHighlight: on a missing selector it returns
    silently after its wait, and no warning is logged. *)
Lemma zoomHighlight_missing_logs_no_warning :
  querySelector sample_env ".missing" = None /\
  trace_of (zoomHighlight ".missing" None sample_env fresh_page) = [WaitForTimeout 600] /\
  ~ (outcome_of (zoomHighlight ".missing" None sample_env fresh_page) = Ok tt /\
     existsb is_warning (trace_of (zoomHighlight ".missing" None sample_env fresh_page)) = true).
Proof.
  split; [reflexivity|]. split; [reflexivity|].
  intros [_ H]. vm_compute in H. discriminate.
Qed.

(** ** highlight *)

(** C1, as the code has it: when the selector matches no element (and no
    page call rejects), highlight writes a warning to the page console,
    creates no overlay and then waits [durationMs + 200] before it returns;
    that is the very wait of the success path. *)
Theorem highlight_missing_warns_then_waits env s selector durationMs :
  no_faults env ->
  querySelector env selector = None ->
  highlightElement selector durationMs env s =
    (Ok tt, bump (bump s),
     [ConsoleWarn ("Highlight: Element not found for selector: " ++ selector);
      WaitForTimeout (durationMs + 200)]) /\
  existsb is_overlay (trace_of (highlightElement selector durationMs env s)) = false /\
  forall found element,
    querySelector env found = Some element ->
    waits (trace_of (highlightElement found durationMs env s)) = [durationMs + 200].
Proof.
  intros Hnf Hq.
  assert (E : highlightElement selector durationMs env s =
    (Ok tt, bump (bump s),
     [ConsoleWarn ("Highlight: Element not found for selector: " ++ selector);
      WaitForTimeout (durationMs + 200)])).
  { unfold highlightElement, try_catch, bind, page_evaluate, page_waitForTimeout.
    rewrite !external_quiet by assumption.
    unfold bind, ask. rewrite Hq. unfold emit.
    rewrite external_quiet by assumption. reflexivity. }
  split; [exact E|]. split; [now rewrite E|].
  intros found element Hf.
  unfold highlightElement, try_catch, bind, page_evaluate, page_waitForTimeout.
  rewrite !external_quiet by assumption.
  unfold bind, ask. rewrite Hf. unfold emit.
  rewrite external_quiet by assumption. reflexivity.
Qed.

Lemma highlight_missing_warns_then_waits_witness :
  trace_of (highlightElement ".missing" 500 sample_env fresh_page) =
    [ConsoleWarn "Highlight: Element not found for selector: .missing";
     WaitForTimeout 700].
Proof.
  destruct (highlight_missing_warns_then_waits sample_env fresh_page
              ".missing" 500 (fun _ => eq_refl) eq_refl) as [E _].
  rewrite E. reflexivity.
Defined.

(** C1 as stated fails: highlight('.missing', 500) does incur the 700 ms
    wait. *)
Lemma highlight_missing_incurs_wait :
  let tr := trace_of (highlightElement ".missing" 500 sample_env fresh_page) in
  querySelector sample_env ".missing" = None /\
  waits tr = [700] /\
  ~ (existsb is_warning tr = true /\ existsb is_overlay tr = false /\
     ~ In (WaitForTimeout (500 + 200)) tr).
Proof.
  cbv zeta. split; [reflexivity|]. split; [reflexivity|].
  intros [_ [_ H]]. apply H. vm_compute. right. left. reflexivity.
Qed.

(** ** moveTo *)

Lemma move_step_quiet env s x y d :
  no_faults env ->
  exists s',
    (updateCursorPosition x y ;; page_mouse_move x y ;; page_waitForTimeout d) env s =
    (Ok tt, s', [UpdateCursorPosition x y; MouseMove x y; WaitForTimeout d]) /\
    (cursor s = None -> cursor s' = None).
Proof.
  intros Hnf.
  unfold updateCursorPosition, page_evaluate, page_mouse_move, page_waitForTimeout.
  rewrite bind_run, external_quiet by assumption.
  unfold bind at 1 2, emit at 1, get. simpl.
  destruct (cursor s) eqn:Hc; unfold put, ret; rewrite bind_run, external_quiet by assumption;
    unfold emit at 1; rewrite external_quiet by assumption; unfold emit;
    eexists; (split; [reflexivity|]); simpl; intros; congruence.
Qed.

Lemma move_loop_quiet env pos tx ty steps d :
  no_faults env ->
  forall l s,
  exists s',
    for_of l
      (fun i =>
         updateCursorPosition (interpolate (fst pos) tx steps i)
                              (interpolate (snd pos) ty steps i) ;;
         page_mouse_move (interpolate (fst pos) tx steps i)
                         (interpolate (snd pos) ty steps i) ;;
         page_waitForTimeout d) env s =
    (Ok tt, s', flat_map (step_events pos tx ty steps d) l).
Proof.
  intros Hnf. induction l as [|i l IH]; intros s.
  - exists s. reflexivity.
  - simpl for_of. rewrite bind_run.
    destruct (move_step_quiet env s (interpolate (fst pos) tx steps i)
                (interpolate (snd pos) ty steps i) d Hnf) as [s1 [-> _]].
    destruct (IH s1) as [s2 ->]. exists s2. reflexivity.
Qed.

(** A moveTo that finds its element and meets no rejection performs the
    steps of its loop, and nothing else. *)
Lemma moveTo_quiet env s selector options element box :
  no_faults env ->
  querySelector env selector = Some element ->
  boundingBox element = Some box ->
  let duration := nullish (optional options move_duration) 500 in
  let steps := nullish (optional options move_steps) 20 in
  exists s',
    moveTo selector options env s =
    (Ok tt, s',
     flat_map (step_events (read_cursor (cursor s)) (fst (center box)) (snd (center box))
                           steps (duration / steps))
              (loop_indices steps)).
Proof.
  intros Hnf Hq Hb duration steps.
  unfold moveTo, try_catch.
  fold duration. fold steps.
  unfold page_query, element_boundingBox, page_evaluate.
  rewrite bind_run, external_quiet by assumption.
  unfold bind at 1, ask, ret. cbn iota beta. rewrite Hq. cbn iota beta zeta.
  rewrite bind_run, external_quiet by assumption. rewrite Hb. cbn iota beta zeta.
  rewrite bind_run, external_quiet by assumption.
  unfold currentPos, bind at 1, get, ret. cbn iota beta zeta.
  match goal with |- context [for_of ?l ?body env ?s0] =>
    destruct (move_loop_quiet env (read_cursor (cursor s)) (fst (center box))
                (snd (center box)) steps (duration / steps) Hnf l s0) as [s' E] end.
  simpl fst in E. simpl snd in E.
  unfold center. simpl fst. simpl snd.
  simpl cursor. rewrite E. exists s'. reflexivity.
Qed.

Lemma mouse_moves_steps pos tx ty steps d l :
  mouse_moves (flat_map (step_events pos tx ty steps d) l) =
  map (fun i => (interpolate (fst pos) tx steps i, interpolate (snd pos) ty steps i)) l.
Proof. induction l as [|i l IH]; simpl; [reflexivity | now rewrite <- IH]. Qed.

Lemma cursor_updates_steps pos tx ty steps d l :
  cursor_updates (flat_map (step_events pos tx ty steps d) l) =
  map (fun i => (interpolate (fst pos) tx steps i, interpolate (snd pos) ty steps i)) l.
Proof. induction l as [|i l IH]; simpl; [reflexivity | now rewrite <- IH]. Qed.

Lemma steps_as_positions pos tx ty steps d l :
  flat_map (step_events pos tx ty steps d) l =
  flat_map (fun p => [UpdateCursorPosition (fst p) (snd p);
                      MouseMove (fst p) (snd p);
                      WaitForTimeout d])
           (map (fun i => (interpolate (fst pos) tx steps i,
                           interpolate (snd pos) ty steps i)) l).
Proof. induction l as [|i l IH]; simpl; [reflexivity | now rewrite <- IH]. Qed.

Lemma waits_steps pos tx ty steps d l :
  waits (flat_map (step_events pos tx ty steps d) l) = repeat d (List.length l).
Proof. induction l as [|i l IH]; simpl; [reflexivity | now rewrite <- IH]. Qed.

(** The loop [for (let i = 1; i <= steps; i++)] visits exactly the integers
    from 1 to [steps]. *)
Lemma loop_indices_spec steps i :
  In i (loop_indices steps) <-> (1 <= i)%Z /\ inject_Z i <= steps.
Proof.
  unfold loop_indices. rewrite in_map_iff. split.
  - intros [k [<- Hk]]. apply in_seq in Hk. split; [lia|].
    apply Qle_trans with (inject_Z (Qfloor steps)); [|apply Qfloor_le].
    rewrite <- Zle_Qle. lia.
  - intros [H1 H2]. exists (Z.to_nat i). split; [lia|].
    apply in_seq. apply Qfloor_resp_le in H2. rewrite Qfloor_Z in H2. lia.
Qed.

Lemma loop_indices_integer steps n :
  steps == inject_Z n ->
  loop_indices steps = map Z.of_nat (seq 1 (Z.to_nat n)).
Proof. intros H. unfold loop_indices. now rewrite H, Qfloor_Z. Qed.

Lemma loop_indices_last steps n :
  (1 <= n)%Z -> steps == inject_Z n ->
  exists before, loop_indices steps = before ++ [n] /\ List.length before = Z.to_nat (n - 1).
Proof.
  intros Hn H. rewrite (loop_indices_integer _ _ H).
  replace (Z.to_nat n) with (S (Z.to_nat (n - 1))) by lia.
  rewrite seq_S, map_app. simpl.
  exists (map Z.of_nat (seq 1 (Z.to_nat (n - 1)))). split.
  - f_equal. f_equal. lia.
  - now rewrite length_map, length_seq.
Qed.

Lemma eased_one n steps :
  (1 <= n)%Z -> steps == inject_Z n -> eased (inject_Z n / steps) == 1.
Proof.
  intros Hn H. unfold eased. rewrite H. field.
  intros E. unfold Qeq in E. simpl in E. lia.
Qed.

Lemma interpolate_last current target steps n :
  (1 <= n)%Z -> steps == inject_Z n -> interpolate current target steps n == target.
Proof.
  intros Hn H. unfold interpolate. rewrite (eased_one n steps Hn H). ring.
Qed.

(** Ease-out cubic grows with its argument. *)
Lemma eased_le p q : p <= q -> eased p <= eased q.
Proof.
  intros H. unfold eased.
  set (a := 1 - q). set (b := 1 - p).
  assert (Hab : 0 <= b - a) by (unfold a, b; lra).
  assert (Hsq : forall x, 0 <= x * x).
  { intros x. destruct (Qlt_le_dec x 0) as [Hx | Hx].
    - setoid_replace (x * x) with ((- x) * (- x)) by ring.
      apply Qmult_le_0_compat; lra.
    - now apply Qmult_le_0_compat. }
  assert (Hq : 0 <= (2 * a + b) * (2 * a + b) + 3 * (b * b)).
  { pose proof (Hsq (2 * a + b)). pose proof (Hsq b). lra. }
  pose proof (Qmult_le_0_compat _ _ Hab Hq) as Hprod.
  assert (Heq : (b - a) * ((2 * a + b) * (2 * a + b) + 3 * (b * b)) ==
                4 * (b ^ 3 - a ^ 3)) by ring.
  rewrite Heq in Hprod. lra.
Qed.

(** C4: for [steps >= 1], the eased value [1 - (1 - i/steps)^3] that moveTo
    computes does not decrease as the loop index [i] runs over [1..steps]. *)
Theorem eased_monotone_over_steps steps i j :
  1 <= steps ->
  In i (loop_indices steps) -> In j (loop_indices steps) ->
  (i <= j)%Z ->
  eased (inject_Z i / steps) <= eased (inject_Z j / steps).
Proof.
  intros Hs _ _ Hij. apply eased_le.
  unfold Qdiv. apply Qmult_le_compat_r.
  - now rewrite <- Zle_Qle.
  - apply Qinv_le_0_compat. lra.
Qed.

Lemma eased_monotone_over_steps_witness :
  eased (inject_Z 3 / 20) <= eased (inject_Z 7 / 20).
Proof.
  apply (eased_monotone_over_steps 20 3 7).
  - unfold Qle. simpl. lia.
  - vm_compute. tauto.
  - vm_compute. tauto.
  - lia.
Defined.

(** Proves [x] to be the multiple [m / 1024]. *)
Ltac grid_point m := exists m; split; [vm_compute; reflexivity | vm_compute; discriminate].

(** C2, as the code has it: for every whole number of steps [n >= 1], and
    for a starting position and a centre of the target on the pixel grid
    -- where the engine's [current + (target - current) * 1] does not
    round -- a moveTo that finds its element ends exactly on the centre of
    the target: at the last step [progress = 1], [eased = 1], and the
    position handed to the cursor overlay and to the mouse is the centre.
    (The four grid hypotheses say where the exact arithmetic of the proof is
    the arithmetic of the engine; off the grid the last position is the
    centre up to the rounding of that sum.) *)
Theorem moveTo_ends_on_target env s selector options element box n :
  no_faults env ->
  querySelector env selector = Some element ->
  boundingBox element = Some box ->
  (1 <= n)%Z ->
  nullish (optional options move_steps) 20 == inject_Z n ->
  on_pixel_grid (fst (read_cursor (cursor s))) ->
  on_pixel_grid (snd (read_cursor (cursor s))) ->
  on_pixel_grid (fst (center box)) ->
  on_pixel_grid (snd (center box)) ->
  let steps := nullish (optional options move_steps) 20 in
  let tr := trace_of (moveTo selector options env s) in
  eased (inject_Z n / steps) == 1 /\
  exists before x y,
    mouse_moves tr = before ++ [(x, y)] /\
    cursor_updates tr = before ++ [(x, y)] /\
    x == fst (center box) /\ y == snd (center box).
Proof.
  intros Hnf Hq Hb Hn Hsteps _ _ _ _ steps tr.
  split; [now apply eased_one|].
  destruct (moveTo_quiet env s selector options element box Hnf Hq Hb) as [s' E].
  unfold tr. rewrite E. unfold trace_of. simpl snd.
  rewrite mouse_moves_steps, cursor_updates_steps.
  destruct (loop_indices_last _ n Hn Hsteps) as [before [-> _]].
  rewrite map_app. simpl map at 2.
  eexists. eexists. eexists. split; [reflexivity|]. split; [reflexivity|].
  split; now apply interpolate_last.
Qed.

Lemma moveTo_ends_on_target_witness :
  exists before x y,
    mouse_moves (trace_of (moveTo "#btn" None sample_env fresh_page)) = before ++ [(x, y)] /\
    x == 300 /\ y == 200.
Proof.
  destruct (moveTo_ends_on_target sample_env fresh_page "#btn" None btn
              (mkRect 250 180 100 40) 20 (fun _ => eq_refl) eq_refl eq_refl
              ltac:(lia) ltac:(reflexivity)
              ltac:(grid_point 102400%Z) ltac:(grid_point 102400%Z)
              ltac:(grid_point 307200%Z) ltac:(grid_point 204800%Z))
    as [_ [before [x [y [Hm [_ [Hx Hy]]]]]]].
  exists before, x, y. split; [exact Hm|]. split.
  - rewrite Hx. reflexivity.
  - rewrite Hy. reflexivity.
Defined.

(** C2 as stated fails when [steps] is not a whole number: with
    [steps = 2.5] the loop runs for [i = 1, 2], the last progress is 0.8,
    and the cursor stops at (298.4, 199.2), short of the centre (300, 200). *)
Lemma moveTo_fractional_steps_stops_short :
  let options := Some (mkMoveOptions (Some 500) (Some (5 # 2))) in
  let tr := trace_of (moveTo "#btn" options sample_env fresh_page) in
  1 <= 5 # 2 /\
  map (fun p => (Qred (fst p), Qred (snd p))) (mouse_moves tr) =
    [(1284 # 5, 892 # 5); (1492 # 5, 996 # 5)] /\
  ~ exists before x y,
      mouse_moves tr = before ++ [(x, y)] /\
      x == fst (center (mkRect 250 180 100 40)) /\
      y == snd (center (mkRect 250 180 100 40)).
Proof.
  cbv zeta. split; [unfold Qle; simpl; lia|]. split; [reflexivity|].
  intros [before [x [y [Hm [Hx _]]]]].
  assert (E : mouse_moves
                (trace_of (moveTo "#btn" (Some (mkMoveOptions (Some 500) (Some (5 # 2))))
                             sample_env fresh_page)) =
              [(64200 # 250, 44600 # 250)] ++ [(74600 # 250, 49800 # 250)])
    by (vm_compute; reflexivity).
  rewrite E in Hm. apply app_inj_tail in Hm. destruct Hm as [_ Hm].
  injection Hm as <- _. vm_compute in Hx. discriminate.
Qed.

(** C2 as stated fails in two ways.  With [steps = 2.5] the loop stops at
    [i = 2], short of the centre.  And with whole [steps] off the pixel
    grid the last step rounds: in binary64, moving in 20 steps from
    x = 990.227 to a centre at x = -318.515625, the last progress and the
    last eased value are exactly 1, and still the last position
    [current + (target - current) * 1] is -318.5156249999999, above the
    centre by one unit in the last place. *)
Lemma moveTo_misses_target :
  let fractional := Some (mkMoveOptions (Some 500) (Some (5 # 2))) in
  let start := 0x1.ef1d0e5604189p+9%float in
  let centre := (-318.515625)%float in
  (~ exists before x y,
       mouse_moves (trace_of (moveTo "#btn" fractional sample_env fresh_page)) =
         before ++ [(x, y)] /\
       x == fst (center (mkRect 250 180 100 40)) /\
       y == snd (center (mkRect 250 180 100 40))) /\
  (20 / 20)%float = 1%float /\
  eased64 20 20 = 1%float /\
  PrimFloat.eqb (interpolate64 start centre 20 20) centre = false /\
  PrimFloat.ltb centre (interpolate64 start centre 20 20) = true.
Proof.
  cbv zeta. split.
  - pose proof moveTo_fractional_steps_stops_short as H. cbv zeta in H. apply H.
  - repeat split; vm_compute; reflexivity.
Qed.

(** On the pixel grid the same arithmetic does not round: in binary64,
    from (100, 100) to a centre at (300.5, 200.015625) the last position is
    the centre. *)
Example moveTo_last_step_on_the_grid :
  interpolate64 100 300.5 20 20 = 300.5%float /\
  interpolate64 100 200.015625 20 20 = 200.015625%float.
Proof. split; vm_compute; reflexivity. Qed.

(** C5, as the code has it: for every whole number of steps [n >= 0], a
    moveTo that finds its element performs exactly [n] position updates
    (cursor overlay and mouse together), each followed by a wait of
    [duration / steps]; for [n >= 1] the last one is on the centre of the
    target.  So moveTo('#btn', {duration: 500, steps: 20}) from (100, 100)
    to a target centred at (300, 200) makes 20 updates, 25 ms apart, and
    ends on (300, 200). *)
Theorem moveTo_performs_steps env s selector options element box n :
  no_faults env ->
  querySelector env selector = Some element ->
  boundingBox element = Some box ->
  (0 <= n)%Z ->
  nullish (optional options move_steps) 20 == inject_Z n ->
  let duration := nullish (optional options move_duration) 500 in
  let steps := nullish (optional options move_steps) 20 in
  let tr := trace_of (moveTo selector options env s) in
  (exists positions,
     Z.of_nat (List.length positions) = n /\
     tr = flat_map (fun p => [UpdateCursorPosition (fst p) (snd p);
                              MouseMove (fst p) (snd p);
                              WaitForTimeout (duration / steps)]) positions /\
     cursor_updates tr = positions /\ mouse_moves tr = positions /\
     waits tr = repeat (duration / steps) (Z.to_nat n) /\
     ((1 <= n)%Z ->
      exists before x y,
        positions = before ++ [(x, y)] /\
        x == fst (center box) /\ y == snd (center box))) /\
  (options = Some (mkMoveOptions (Some 500) (Some 20)) ->
   read_cursor (cursor s) = (100, 100) ->
   fst (center box) == 300 -> snd (center box) == 200 ->
   List.length (cursor_updates tr) = 20%nat /\
   List.length (mouse_moves tr) = 20%nat /\
   Forall (fun ms => ms == 25) (waits tr) /\
   exists before x y,
     mouse_moves tr = before ++ [(x, y)] /\ x == 300 /\ y == 200).
Proof.
  intros Hnf Hq Hb Hn Hsteps duration steps tr.
  destruct (moveTo_quiet env s selector options element box Hnf Hq Hb) as [s' E].
  assert (Etr : tr = flat_map (step_events (read_cursor (cursor s)) (fst (center box))
                                 (snd (center box)) steps (duration / steps))
                              (loop_indices steps))
    by (unfold tr; rewrite E; reflexivity).
  assert (Hlen : List.length (loop_indices steps) = Z.to_nat n).
  { rewrite (loop_indices_integer steps n Hsteps). now rewrite length_map, length_seq. }
  assert (Hlast : (1 <= n)%Z ->
           exists before x y,
             mouse_moves tr = before ++ [(x, y)] /\
             x == fst (center box) /\ y == snd (center box)).
  { intros Hn1. rewrite Etr, mouse_moves_steps.
    destruct (loop_indices_last steps n Hn1 Hsteps) as [before [-> _]].
    rewrite map_app. simpl map at 2.
    eexists. eexists. eexists. split; [reflexivity|].
    split; now apply interpolate_last. }
  split.
  - exists (map (fun i => (interpolate (fst (read_cursor (cursor s))) (fst (center box)) steps i,
                           interpolate (snd (read_cursor (cursor s))) (snd (center box)) steps i))
                (loop_indices steps)).
    rewrite length_map.
    split; [rewrite Hlen; lia|]. split; [rewrite Etr; apply steps_as_positions|].
    split; [now rewrite Etr, cursor_updates_steps|].
    split; [now rewrite Etr, mouse_moves_steps|].
    split; [now rewrite Etr, waits_steps, Hlen|].
    intros Hn1. specialize (Hlast Hn1).
    rewrite Etr, mouse_moves_steps in Hlast. exact Hlast.
  - intros Hopt Hpos Hx Hy.
    assert (Hn20 : n = 20%Z).
    { subst options. simpl in Hsteps. unfold Qeq in Hsteps. simpl in Hsteps. lia. }
    subst n.
    split; [now rewrite Etr, cursor_updates_steps, length_map|].
    split; [now rewrite Etr, mouse_moves_steps, length_map|].
    split.
    + rewrite Etr, waits_steps. apply Forall_forall. intros ms Hin.
      apply repeat_spec in Hin. subst ms. unfold duration, steps. subst options.
      reflexivity.
    + destruct (Hlast ltac:(lia)) as [before [x [y [Hm [Hx' Hy']]]]].
      exists before, x, y. split; [exact Hm|].
      split; [now rewrite Hx' | now rewrite Hy'].
Qed.

Lemma moveTo_performs_steps_witness :
  let tr := trace_of (moveTo "#btn" (Some (mkMoveOptions (Some 500) (Some 20)))
                        sample_env fresh_page) in
  List.length (cursor_updates tr) = 20%nat /\
  List.length (mouse_moves tr) = 20%nat /\
  Forall (fun ms => ms == 25) (waits tr) /\
  exists before x y,
    mouse_moves tr = before ++ [(x, y)] /\ x == 300 /\ y == 200.
Proof.
  cbv zeta.
  apply (moveTo_performs_steps sample_env fresh_page "#btn"
           (Some (mkMoveOptions (Some 500) (Some 20))) btn (mkRect 250 180 100 40) 20
           (fun _ => eq_refl) eq_refl eq_refl ltac:(lia) ltac:(reflexivity));
    reflexivity.
Defined.

(** C5 as stated fails when [steps] is not a whole number, or is negative:
    with [steps = 2.5] moveTo makes 2 position updates, and with
    [steps = -1] it makes none; neither is [steps] of them. *)
Lemma moveTo_fractional_steps_count :
  let fractional := Some (mkMoveOptions (Some 500) (Some (5 # 2))) in
  let negative := Some (mkMoveOptions (Some 500) (Some (- 1))) in
  let tr := trace_of (moveTo "#btn" fractional sample_env fresh_page) in
  let tr' := trace_of (moveTo "#btn" negative sample_env fresh_page) in
  (outcome_of (moveTo "#btn" fractional sample_env fresh_page) = Ok tt /\
   List.length (cursor_updates tr) = 2%nat /\
   List.length (mouse_moves tr) = 2%nat /\
   ~ inject_Z (Z.of_nat (List.length (cursor_updates tr))) == 5 # 2) /\
  (outcome_of (moveTo "#btn" negative sample_env fresh_page) = Ok tt /\
   tr' = [] /\
   ~ inject_Z (Z.of_nat (List.length (cursor_updates tr'))) == - 1).
Proof.
  cbv zeta. split.
  - split; [reflexivity|]. split; [reflexivity|]. split; [reflexivity|].
    intros H. vm_compute in H. discriminate.
  - split; [reflexivity|]. split; [reflexivity|].
    intros H. vm_compute in H. discriminate.
Qed.

(** C10: when the cursor element exists and its [left] (or [top]) style
    parses to 0, moveTo interpolates that axis from 100, the value it also
    uses when there is no cursor element, and not from 0. *)
Theorem moveTo_cursor_at_zero_starts_from_100 env s selector options element box c :
  no_faults env ->
  querySelector env selector = Some element ->
  boundingBox element = Some box ->
  cursor s = Some c ->
  let steps := nullish (optional options move_steps) 20 in
  let tr := trace_of (moveTo selector options env s) in
  (forall v, style_left c = Some v -> v == 0 ->
     fst (read_cursor (cursor s)) = 100 /\
     map fst (mouse_moves tr) =
       map (interpolate 100 (fst (center box)) steps) (loop_indices steps)) /\
  (forall v, style_top c = Some v -> v == 0 ->
     snd (read_cursor (cursor s)) = 100 /\
     map snd (mouse_moves tr) =
       map (interpolate 100 (snd (center box)) steps) (loop_indices steps)) /\
  read_cursor None = (100, 100).
Proof.
  intros Hnf Hq Hb Hc steps tr.
  destruct (moveTo_quiet env s selector options element box Hnf Hq Hb) as [s' E].
  assert (Etr : mouse_moves tr =
                map (fun i => (interpolate (fst (read_cursor (cursor s))) (fst (center box)) steps i,
                               interpolate (snd (read_cursor (cursor s))) (snd (center box)) steps i))
                    (loop_indices steps))
    by (unfold tr; rewrite E; apply mouse_moves_steps).
  split; [|split; [|reflexivity]].
  - intros v Hv Hz.
    assert (H100 : fst (read_cursor (cursor s)) = 100).
    { rewrite Hc. simpl. rewrite Hv. simpl.
      apply Qeq_bool_iff in Hz. now rewrite Hz. }
    split; [exact H100|]. rewrite Etr, map_map, H100. reflexivity.
  - intros v Hv Hz.
    assert (H100 : snd (read_cursor (cursor s)) = 100).
    { rewrite Hc. simpl. rewrite Hv. simpl.
      apply Qeq_bool_iff in Hz. now rewrite Hz. }
    split; [exact H100|]. rewrite Etr, map_map, H100. reflexivity.
Qed.

Lemma moveTo_cursor_at_zero_starts_from_100_witness :
  cursor page_with_cursor = Some (mkCursor (Some 0) (Some 0)) /\
  read_cursor (cursor page_with_cursor) = (100, 100) /\
  map fst (mouse_moves (trace_of (moveTo "#btn" None sample_env page_with_cursor))) =
    map (interpolate 100 (fst (center (mkRect 250 180 100 40))) 20) (loop_indices 20).
Proof.
  split; [reflexivity|].
  destruct (moveTo_cursor_at_zero_starts_from_100 sample_env page_with_cursor "#btn" None
              btn (mkRect 250 180 100 40) (mkCursor (Some 0) (Some 0))
              (fun _ => eq_refl) eq_refl eq_refl eq_refl) as [Hl [_ _]].
  destruct (Hl 0 eq_refl ltac:(reflexivity)) as [_ Hmoves].
  split; [reflexivity | exact Hmoves].
Defined.

(** ** What a computation can emit *)

Section EmitsOnly.
Variable P : Event -> Prop.

Lemma emits_ret {S A} (a : A) : emits_only P (@ret S A a).
Proof. intros env s. constructor. Qed.

Lemma emits_throw {S A} : emits_only P (@throw S A).
Proof. intros env s. constructor. Qed.

Lemma emits_get {S} : emits_only P (@get S).
Proof. intros env s. constructor. Qed.

Lemma emits_put {S} (s0 : S) : emits_only P (put s0).
Proof. intros env s. constructor. Qed.

Lemma emits_ask {S} : emits_only P (@ask S).
Proof. intros env s. constructor. Qed.

Lemma emits_emit {S} e : P e -> emits_only P (@emit S e).
Proof. intros H env s. repeat constructor. exact H. Qed.

Lemma emits_bind {S A B} (m : M S A) (k : A -> M S B) :
  emits_only P m -> (forall a, emits_only P (k a)) -> emits_only P (bind m k).
Proof.
  intros Hm Hk env s. specialize (Hm env s). unfold bind, trace_of in *.
  destruct (m env s) as [[[a|] s1] t1]; simpl in *; [|exact Hm].
  specialize (Hk a env s1). unfold trace_of in Hk.
  destruct (k a env s1) as [[o s2] t2]. simpl in *.
  apply Forall_app. now split.
Qed.

Lemma emits_try_catch {S A} (m h : M S A) :
  emits_only P m -> emits_only P h -> emits_only P (try_catch m h).
Proof.
  intros Hm Hh env s. specialize (Hm env s). unfold try_catch, trace_of in *.
  destruct (m env s) as [[[a|] s1] t1]; simpl in *; [exact Hm|].
  specialize (Hh env s1). unfold trace_of in Hh.
  destruct (h env s1) as [[o s2] t2]. simpl in *.
  apply Forall_app. now split.
Qed.

Lemma emits_try_finally {S A} (m : M S A) (f : M S unit) :
  emits_only P m -> emits_only P f -> emits_only P (try_finally m f).
Proof.
  intros Hm Hf env s. specialize (Hm env s). unfold try_finally, trace_of in *.
  destruct (m env s) as [[o s1] t1]. simpl in *.
  specialize (Hf env s1). unfold trace_of in Hf.
  destruct (f env s1) as [[[u|] s2] t2]; simpl in *; apply Forall_app; now split.
Qed.

Lemma emits_for_of {S A} (l : list A) (body : A -> M S unit) :
  (forall a, emits_only P (body a)) -> emits_only P (for_of l body).
Proof.
  intros Hb. induction l as [|a l IH]; simpl.
  - apply emits_ret.
  - apply emits_bind; [apply Hb | intros _; exact IH].
Qed.

Lemma emits_external {A} (m : M PageSt A) :
  emits_only P m -> emits_only P (external m).
Proof.
  intros Hm env s. unfold external.
  destruct (fault env (tick s)); [constructor | apply Hm].
Qed.

Lemma emits_Math_random : emits_only P Math_random.
Proof. intros env s. constructor. Qed.

Lemma emits_Date_now : emits_only P Date_now.
Proof. intros env s. constructor. Qed.

Lemma emits_on_page {A} (m : M PageSt A) :
  emits_only P m -> emits_only P (on_page m).
Proof.
  intros Hm env s. specialize (Hm env (world s)). unfold on_page, trace_of in *.
  destruct (m env (world s)) as [[o p] t]. exact Hm.
Qed.

Lemma emits_with_recorder {A} r (m : M RecSt A) :
  emits_only P m -> emits_only P (with_recorder r m).
Proof.
  intros Hm env p. specialize (Hm env (mkRecSt r p)). unfold with_recorder, trace_of in *.
  destruct (m env (mkRecSt r p)) as [[o s] t]. exact Hm.
Qed.

Lemma emits_close_call ev :
  (forall ok, P (ev ok)) -> emits_only P (close_call ev).
Proof.
  intros H env s. unfold close_call.
  destruct (fault env (tick s)); repeat constructor; apply H.
Qed.

Lemma emits_set_browser b : emits_only P (set_browser b).
Proof. intros env s. constructor. Qed.

Lemma emits_set_context c : emits_only P (set_context c).
Proof. intros env s. constructor. Qed.

Hypothesis script_events : forall e, P (FromScript e).

Lemma emits_run_script (m : M PageSt unit) : emits_only P (run_script m).
Proof.
  intros env s. unfold run_script, trace_of.
  destruct (m env (world s)) as [[o p] t]. simpl.
  apply Forall_forall. intros e He. apply in_map_iff in He.
  destruct He as [e' [<- _]]. apply script_events.
Qed.

Lemma emits_user_code {A} (m : M PageSt A) : emits_only P (user_code m).
Proof.
  intros env s. unfold user_code, trace_of.
  destruct (m env s) as [[o p] t]. simpl.
  apply Forall_forall. intros e He. apply in_map_iff in He.
  destruct He as [e' [<- _]]. apply script_events.
Qed.
End EmitsOnly.

(** Breaks a goal [emits_only P m] down along the structure of [m]. *)
Ltac emits_step :=
  match goal with
  | |- emits_only _ (bind _ _) => apply emits_bind; [|intros]
  | |- emits_only _ (try_catch _ _) => apply emits_try_catch
  | |- emits_only _ (try_finally _ _) => apply emits_try_finally
  | |- emits_only _ (for_of _ _) => apply emits_for_of; intros
  | |- emits_only _ (external _) => apply emits_external
  | |- emits_only _ (on_page _) => apply emits_on_page
  | |- emits_only _ (with_recorder _ _) => apply emits_with_recorder
  | |- emits_only _ (close_call _) => apply emits_close_call; intros
  | |- emits_only _ (ret _) => apply emits_ret
  | |- emits_only _ throw => apply emits_throw
  | |- emits_only _ get => apply emits_get
  | |- emits_only _ (put _) => apply emits_put
  | |- emits_only _ ask => apply emits_ask
  | |- emits_only _ Math_random => apply emits_Math_random
  | |- emits_only _ Date_now => apply emits_Date_now
  | |- emits_only _ (set_browser _) => apply emits_set_browser
  | |- emits_only _ (set_context _) => apply emits_set_context
  | |- emits_only _ (emit _) => apply emits_emit
  | |- emits_only _ (logger_warn _) => apply emits_emit
  | |- emits_only _ (logger_info _) => apply emits_emit
  | |- emits_only _ (match ?x with _ => _ end) => destruct x
  | |- emits_only _ (if ?x then _ else _) => destruct x
  end.

(** ** typeAnimated *)

Lemma key_waits_in tr c ms :
  In (c, ms) (key_waits tr) -> In (WaitForTimeout ms) tr.
Proof.
  induction tr as [|e rest IH]; simpl; [tauto|].
  destruct e; try (intros H; right; now apply IH).
  destruct rest as [|e' rest']; [simpl; tauto|].
  destruct e'; try (intros H; right; now apply IH).
  intros [H | H].
  - injection H as _ ->. right. now left.
  - right. now apply IH.
Qed.

Lemma typeAnimated_emits_long_waits selector text options :
  emits_only wait_at_least_10 (typeAnimated selector text options).
Proof.
  unfold typeAnimated, page_click, page_waitForTimeout, page_keyboard_type.
  repeat emits_step; simpl; try exact I.
  - unfold Qle. simpl. lia.
  - apply Q.le_max_l.
Qed.

(** C7, as the code has it: whatever finite numbers [delay] and
    [variation] are configured (the numbers of the embedding are the finite
    ones: negative, zero, fractional, as large as one likes), whatever
    [Math.random()] returns and whatever rejects on the way, the wait that
    typeAnimated applies after a character is at least 10 ms long. *)
Theorem typeAnimated_wait_floor env s selector text options :
  Forall (fun cw => 10 <= snd cw)
         (key_waits (trace_of (typeAnimated selector text options env s))).
Proof.
  apply Forall_forall. intros [c ms] Hin. simpl.
  apply key_waits_in in Hin.
  pose proof (typeAnimated_emits_long_waits selector text options env s) as H.
  rewrite Forall_forall in H. exact (H _ Hin).
Qed.

(** C7 as stated fails for the extreme values [Infinity] and [NaN]: in
    binary64, with [variation = Infinity] the wait is
    [Math.max(10, 50 + Infinity - Infinity) = Math.max(10, NaN) = NaN], and
    with [delay = NaN] it is [NaN] as well; [NaN] is not at least 10.  For
    finite values the floor holds: a [delay] of -1000 gives 10. *)
Lemma typeAnimated_wait_can_be_nan :
  key_wait64 50 infinity 0.5 = nan /\
  key_wait64 nan 10 0.5 = nan /\
  PrimFloat.leb 10 (key_wait64 50 infinity 0.5) = false /\
  key_wait64 (-1000) 10 0.5 = 10%float /\
  key_wait64 50 10 0.75 = 55%float.
Proof. repeat split; vm_compute; reflexivity. Qed.

Lemma typing_loop_quiet env delay variation :
  no_faults env ->
  forall chars s,
  exists s',
    for_of chars
      (fun char =>
         page_keyboard_type char ;;
         r <- Math_random ;;
         page_waitForTimeout (Qmax 10 (actualDelay delay variation r))) env s =
    (Ok tt, s', typing_events env delay variation (draws s) chars).
Proof.
  intros Hnf. induction chars as [|c chars IH]; intros s.
  - exists s. reflexivity.
  - simpl for_of. rewrite bind_run.
    unfold page_keyboard_type at 1, page_waitForTimeout at 1.
    rewrite bind_run, external_quiet by assumption. unfold emit at 1.
    rewrite bind_run. unfold Math_random at 1.
    rewrite external_quiet by assumption. unfold emit at 1. simpl.
    match goal with |- context [for_of chars ?body env ?s0] =>
      destruct (IH s0) as [s' ->] end.
    exists s'. reflexivity.
Qed.

(** A typeAnimated that finds its element and meets no rejection: the
    click, the 100 ms pause, then one key and one wait per character. *)
Lemma typeAnimated_quiet env s selector text options element :
  no_faults env ->
  querySelector env selector = Some element ->
  let delay := nullish (optional options type_delay) 50 in
  let variation := nullish (optional options type_variation) 20 in
  exists s',
    typeAnimated selector text options env s =
    (Ok tt, s',
     Click selector :: WaitForTimeout 100
       :: typing_events env delay variation (draws s) (list_ascii_of_string text)).
Proof.
  intros Hnf Hq delay variation.
  unfold typeAnimated, try_catch. fold delay. fold variation.
  unfold page_click, page_waitForTimeout at 1.
  rewrite bind_run, external_quiet by assumption.
  unfold bind at 1, ask. cbn iota beta. rewrite Hq. unfold emit at 1. cbn iota beta zeta.
  rewrite bind_run, external_quiet by assumption. unfold emit at 1. cbn iota beta zeta.
  match goal with |- context [for_of ?l ?body env ?s0] =>
    destruct (typing_loop_quiet env delay variation Hnf l s0) as [s' ->] end.
  exists s'. reflexivity.
Qed.

Lemma keyboard_inputs_typing env delay variation d chars :
  keyboard_inputs (typing_events env delay variation d chars) = chars.
Proof.
  revert d. induction chars as [|c chars IH]; intros d; simpl; [reflexivity|].
  now rewrite IH.
Qed.

Lemma key_waits_typing env delay variation d chars :
  key_waits (typing_events env delay variation d chars) =
  combine chars
    (map (fun k => Qmax 10 (actualDelay delay variation (random env k)))
         (seq d (List.length chars))).
Proof.
  revert d. induction chars as [|c chars IH]; intros d; [reflexivity|].
  simpl typing_events. simpl List.length. simpl seq. simpl map. simpl combine.
  simpl key_waits. now rewrite IH.
Qed.

(** The jitter of one draw lies between [-variation] and [+variation]. *)
Lemma actualDelay_bounds delay variation r :
  0 <= variation -> 0 <= r -> r < 1 ->
  delay - variation <= actualDelay delay variation r /\
  actualDelay delay variation r <= delay + variation.
Proof.
  intros Hv Hr0 Hr1. unfold actualDelay.
  assert (H0 : 0 <= r * variation * 2).
  { apply Qmult_le_0_compat; [apply Qmult_le_0_compat; assumption | lra]. }
  assert (H1 : r * variation * 2 <= 2 * variation).
  { assert (0 <= (1 - r) * variation) by (apply Qmult_le_0_compat; lra).
    setoid_replace (2 * variation) with (r * variation * 2 + 2 * ((1 - r) * variation))
      by ring. lra. }
  pose proof (Qfloor_le (r * variation * 2)) as Hfl.
  assert (Hf0 : 0 <= inject_Z (Qfloor (r * variation * 2))).
  { apply Qfloor_resp_le in H0. change (Qfloor 0) with 0%Z in H0.
    now rewrite Zle_Qle in H0. }
  split; lra.
Qed.

(** C6, as the code has it: a typeAnimated that finds its element issues
    exactly one keyboard-input call per character of the text, each followed
    by a wait of [max(10, delay + jitter)], where the jitter comes from a
    [Math.random()] draw of its own (one draw per character) and, for
    [variation >= 0], lies in [-variation, +variation]; when
    [delay - variation >= 10] the floor is not reached and the wait is in
    [delay - variation, delay + variation].  For 'hi' with delay 50 and
    variation 20: two key calls, each followed by a wait in [30, 70]. *)
Theorem typeAnimated_types_each_character env s selector text options element :
  no_faults env ->
  querySelector env selector = Some element ->
  (forall k, 0 <= random env k /\ random env k < 1) ->
  let delay := nullish (optional options type_delay) 50 in
  let variation := nullish (optional options type_variation) 20 in
  let chars := list_ascii_of_string text in
  let tr := trace_of (typeAnimated selector text options env s) in
  keyboard_inputs tr = chars /\
  key_waits tr =
    combine chars
      (map (fun k => Qmax 10 (actualDelay delay variation (random env k)))
           (seq (draws s) (List.length chars))) /\
  (0 <= variation ->
   forall k, delay - variation <= actualDelay delay variation (random env k) /\
             actualDelay delay variation (random env k) <= delay + variation) /\
  (0 <= variation -> 10 <= delay - variation ->
   Forall (fun cw => delay - variation <= snd cw /\ snd cw <= delay + variation)
          (key_waits tr)) /\
  (text = "hi"%string -> options = Some (mkTypeOptions (Some 50) (Some 20)) ->
   keyboard_inputs tr = ["h"%char; "i"%char] /\
   exists w1 w2,
     key_waits tr = [("h"%char, w1); ("i"%char, w2)] /\
     (30 <= w1 /\ w1 <= 70) /\ (30 <= w2 /\ w2 <= 70)).
Proof.
  intros Hnf Hq Hrand delay variation chars tr.
  destruct (typeAnimated_quiet env s selector text options element Hnf Hq) as [s' E].
  assert (Hkeys : keyboard_inputs tr = chars).
  { unfold tr. rewrite E. unfold trace_of. simpl. apply keyboard_inputs_typing. }
  assert (Hwaits : key_waits tr =
            combine chars
              (map (fun k => Qmax 10 (actualDelay delay variation (random env k)))
                   (seq (draws s) (List.length chars)))).
  { unfold tr. rewrite E. unfold trace_of. simpl snd.
    change (key_waits (Click selector :: WaitForTimeout 100 :: ?t)) with (key_waits t).
    apply key_waits_typing. }
  assert (Hjit : 0 <= variation ->
            forall k, delay - variation <= actualDelay delay variation (random env k) /\
                      actualDelay delay variation (random env k) <= delay + variation).
  { intros Hv k. destruct (Hrand k). now apply actualDelay_bounds. }
  assert (Hrange : 0 <= variation -> 10 <= delay - variation ->
            Forall (fun cw => delay - variation <= snd cw /\ snd cw <= delay + variation)
                   (key_waits tr)).
  { intros Hv Hfloor. rewrite Hwaits. apply Forall_forall. intros [c w] Hin.
    apply in_combine_r in Hin. apply in_map_iff in Hin. destruct Hin as [k [<- _]].
    destruct (Hjit Hv k) as [Hlo Hhi]. simpl. split.
    - apply Qle_trans with (actualDelay delay variation (random env k));
        [exact Hlo | apply Q.le_max_r].
    - apply Q.max_lub; [lra | exact Hhi]. }
  repeat split; try assumption.
  - now apply Hjit.
  - now apply Hjit.
  - subst text. exact Hkeys.
  - intros. subst text options.
    assert (Hv : 0 <= variation) by (unfold variation; simpl; lra).
    assert (Hf : 10 <= delay - variation) by (unfold delay, variation; simpl; lra).
    specialize (Hrange Hv Hf). rewrite Hwaits in *. simpl in Hrange |- *.
    inversion Hrange as [|? ? H1 Hrest]; subst.
    inversion Hrest as [|? ? H2 _]; subst.
    eexists. eexists. split; [reflexivity|].
    unfold delay, variation in H1, H2 |- *. simpl in H1, H2 |- *.
    split; split; lra.
Qed.

Lemma typeAnimated_types_each_character_witness :
  let tr := trace_of (typeAnimated "#btn" "hi" (Some (mkTypeOptions (Some 50) (Some 20)))
                        sample_env fresh_page) in
  keyboard_inputs tr = ["h"%char; "i"%char] /\
  exists w1 w2,
    key_waits tr = [("h"%char, w1); ("i"%char, w2)] /\
    (30 <= w1 /\ w1 <= 70) /\ (30 <= w2 /\ w2 <= 70).
Proof.
  cbv zeta.
  assert (Hrand : forall k, 0 <= random sample_env k /\ random sample_env k < 1).
  { intros k. simpl. destruct (Nat.even k); split;
      (unfold Qle, Qlt; simpl; lia). }
  apply (typeAnimated_types_each_character sample_env fresh_page "#btn" "hi"
           (Some (mkTypeOptions (Some 50) (Some 20))) btn
           (fun _ => eq_refl) eq_refl Hrand); reflexivity.
Defined.

(** C6 as stated fails where the 10 ms floor is reached: with delay 5 and
    variation 0 the wait after the character is 10 ms, which is not
    [delay] plus a value of [-variation, +variation].  (It also fails for a
    negative [variation], where that interval is empty: with delay 50 and
    variation -20 the wait is 70 ms.) *)
Lemma typeAnimated_floor_overrides_delay :
  let options := Some (mkTypeOptions (Some 5) (Some 0)) in
  let tr := trace_of (typeAnimated "#btn" "a" options sample_env fresh_page) in
  let options' := Some (mkTypeOptions (Some 50) (Some (- 20))) in
  let tr' := trace_of (typeAnimated "#btn" "a" options' sample_env fresh_page) in
  (outcome_of (typeAnimated "#btn" "a" options sample_env fresh_page) = Ok tt /\
   keyboard_inputs tr = ["a"%char] /\
   map (fun cw => (fst cw, Qred (snd cw))) (key_waits tr) = [("a"%char, 10)] /\
   ~ Forall (fun cw => exists jitter,
                 - 0 <= jitter /\ jitter <= 0 /\ snd cw == 5 + jitter)
            (key_waits tr)) /\
  (map (fun cw => (fst cw, Qred (snd cw))) (key_waits tr') = [("a"%char, 70)] /\
   ~ Forall (fun cw => exists jitter,
                 - - 20 <= jitter /\ jitter <= - 20 /\ snd cw == 50 + jitter)
            (key_waits tr')).
Proof.
  cbv zeta. split.
  - split; [reflexivity|]. split; [reflexivity|]. split; [reflexivity|].
    intros H.
    assert (E : key_waits (trace_of (typeAnimated "#btn" "a"
                  (Some (mkTypeOptions (Some 5) (Some 0))) sample_env fresh_page)) =
                [("a"%char, Qmax 10 (actualDelay 5 0 0))]) by reflexivity.
    rewrite E in H. inversion H as [|? ? [jitter [Hlo [Hhi Hw]]] _]; subst.
    simpl in Hw.
    assert (Hm : Qmax 10 (actualDelay 5 0 0) == 10) by reflexivity.
    rewrite Hm in Hw. lra.
  - split; [reflexivity|].
    intros H.
    assert (E : key_waits (trace_of (typeAnimated "#btn" "a"
                  (Some (mkTypeOptions (Some 50) (Some (- 20)))) sample_env fresh_page)) =
                [("a"%char, Qmax 10 (actualDelay 50 (- 20) 0))]) by reflexivity.
    rewrite E in H. inversion H as [|? ? [jitter [Hlo [Hhi _]]] _]; subst. lra.
Qed.

(** ** Rules of the program logic *)

Lemma hoare_consequence {S A} env (P P' : S -> list Event -> Prop) (m : M S A)
    (Q Q' : Outcome A -> S -> list Event -> Prop) :
  (forall s t, P' s t -> P s t) ->
  hoare env P m Q ->
  (forall o s t, Q o s t -> Q' o s t) ->
  hoare env P' m Q'.
Proof. intros HP Hm HQ s t0 H. apply HQ, Hm, HP, H. Qed.


Lemma hoare_bind {S A B} env (P : S -> list Event -> Prop) (m : M S A) (k : A -> M S B)
    (Q : Outcome A -> S -> list Event -> Prop)
    (R : Outcome B -> S -> list Event -> Prop) :
  hoare env P m Q ->
  (forall s t, Q Throw s t -> R Throw s t) ->
  (forall a, hoare env (Q (Ok a)) (k a) R) ->
  hoare env P (bind m k) R.
Proof.
  intros Hm Ht Hk s t0 HP. specialize (Hm s t0 HP).
  unfold bind, outcome_of, state_of, trace_of in *.
  destruct (m env s) as [[[a|] s1] t1]; simpl in *.
  - specialize (Hk a s1 (t0 ++ t1) Hm).
    unfold outcome_of, state_of, trace_of in Hk.
    destruct (k a env s1) as [[o s2] t2]. simpl in *.
    now rewrite app_assoc.
  - now apply Ht.
Qed.

Lemma hoare_try_finally {S A} env (P : S -> list Event -> Prop) (m : M S A) (f : M S unit)
    (Q : Outcome A -> S -> list Event -> Prop)
    (R : Outcome A -> S -> list Event -> Prop) :
  hoare env P m Q ->
  (forall o,
     hoare env (Q o) f
       (fun o' s t => R (match o' with Ok _ => o | Throw => Throw end) s t)) ->
  hoare env P (try_finally m f) R.
Proof.
  intros Hm Hf s t0 HP. specialize (Hm s t0 HP).
  unfold try_finally, outcome_of, state_of, trace_of in *.
  destruct (m env s) as [[o s1] t1]. simpl in *.
  specialize (Hf o s1 (t0 ++ t1) Hm).
  unfold outcome_of, state_of, trace_of in Hf.
  destruct (f env s1) as [[[u|] s2] t2]; simpl in *; now rewrite app_assoc.
Qed.

(** ** Traces and handles *)

Section Handles.
Variables acq cls : Event -> bool.

Lemma followed_by_none t : existsb acq t = false -> followed_by acq cls t = true.
Proof.
  induction t as [|e t IH]; simpl; [reflexivity|].
  intros H. apply orb_false_iff in H. destruct H as [-> H]. simpl. now apply IH.
Qed.


End Handles.

Lemma neutral_no_launch t : Forall neutral t -> existsb is_launch t = false.
Proof.
  induction 1 as [|e t [H _] _ IH]; simpl; [reflexivity | now rewrite H, IH].
Qed.

Lemma neutral_no_context t : Forall neutral t -> existsb is_context_created t = false.
Proof.
  induction 1 as [|e t [_ H] _ IH]; simpl; [reflexivity | now rewrite H, IH].
Qed.

(** ** Steps of [record] that open nothing *)

Lemma keeps_this_on_page {A} (m : M PageSt A) : keeps_this (on_page m).
Proof.
  intros env s. unfold on_page, state_of.
  destruct (m env (world s)) as [[o p] t]. reflexivity.
Qed.

Lemma keeps_this_run_script m : keeps_this (run_script m).
Proof.
  intros env s. unfold run_script, state_of.
  destruct (m env (world s)) as [[o p] t]. reflexivity.
Qed.

Lemma keeps_this_emit e : keeps_this (emit e).
Proof. intros env s. reflexivity. Qed.

Lemma keeps_this_get : keeps_this get.
Proof. intros env s. reflexivity. Qed.

Lemma Untouched_step {A} env options (m : M RecSt A) :
  keeps_this m -> emits_only neutral m ->
  hoare env (Untouched options) m (fun _ => Untouched options).
Proof.
  intros Hk He s t0 [H1 [H2 H3]]. specialize (Hk env s). specialize (He env s).
  unfold Untouched. rewrite Hk, !existsb_app, H2, H3.
  now rewrite (neutral_no_launch _ He), (neutral_no_context _ He).
Qed.


Lemma Untouched_Tracked options s t : Untouched options s t -> Tracked options s t.
Proof.
  intros [H1 [H2 H3]]. unfold Tracked. rewrite H1. simpl.
  split; [reflexivity|]. split; intros _; [exact H2 | now apply followed_by_none].
Qed.

Lemma Untouched_Released options s t : Untouched options s t -> Released options s t.
Proof.
  intros [H1 [H2 H3]]. split; [exact H1|]. unfold released.
  now rewrite !followed_by_none.
Qed.

(** Walks through a page-level or recorder-level computation, leaving the
    events it emits to be checked. *)
Ltac emits_walk :=
  unfold findRecordedVideo; unfold fs_mkdir, fs_readdir, chromium_launch, browser_newContext,
    context_newPage, page_goto, hideDevTools, page_addStyleTag, initFakeCursor,
    page_evaluate, page_waitForTimeout, logger_info;
  repeat first [ emits_step
               | apply emits_run_script; intros
               | apply emits_user_code; intros ].

Ltac emits_neutral := emits_walk; try (split; reflexivity).

Ltac keeps :=
  first [ apply keeps_this_on_page | apply keeps_this_run_script
        | apply keeps_this_emit | apply keeps_this_get ].


(** ** Steps of [record] that open or close a handle *)











(** *** What the fields held when [record] was called *)

Section Held.
Variables (env : Env) (browser_held context_held : Prop).






End Held.





(** When the directory cannot be created [record] throws before its [try]
    block: nothing is opened or closed and the fields are left alone. *)
Lemma record_mkdir_failure env s demo outputDir :
  fault env (tick (world s)) = true ->
  outcome_of (record demo outputDir env s) = Throw /\
  this (state_of (record demo outputDir env s)) = this s /\
  trace_of (record demo outputDir env s) = [].
Proof.
  intros H.
  assert (E : record demo outputDir env s =
              (Throw, mkRecSt (this s) (bump (world s)), [])).
  { unfold record. rewrite bind_run.
    unfold on_page at 1, fs_mkdir, external. now rewrite H. }
  rewrite E. split; [reflexivity | split; reflexivity].
Qed.

Example record_sample_demo :
  record sample_demo "./output" sample_env
    (mkRecSt (new_PlaywrightRecorder (mkRecorderOptions None)) fresh_page) =
  (Ok (mkRecordingResult "./output/example-demo/a1b2c3.webm" (10 + - 0)),
   mkRecSt (new_PlaywrightRecorder (mkRecorderOptions None))
           (mkPageSt (Some (mkCursor (Some 0) (Some 0))) false false 12 0),
   [Mkdir "./output/example-demo";
    LoggerInfo (StartingRecording "Example Demo");
    LoggerInfo (Resolution 1920 1080);
    LoggerInfo (Url "http://localhost:3000");
    BrowserLaunched true;
    ContextCreated 1920 1080 "./output/example-demo"; PageCreated;
    LoggerInfo NavigatingToUrl; Goto "http://localhost:3000";
    StyleTagAdded; CursorCreated; LoggerInfo RunningDemoScript;
    FromScript (WaitForTimeout 1000); WaitForTimeout 500;
    ContextClose true; Readdir "./output/example-demo";
    LoggerInfo (RecordingComplete "./output/example-demo/a1b2c3.webm");
    LoggerInfo (DurationSeconds (10 + - 0)); BrowserClose true]).
Proof. reflexivity. Qed.

Example record_failing_demo :
  let run := record failing_demo "./output" sample_env
               (mkRecSt (new_PlaywrightRecorder (mkRecorderOptions None)) fresh_page) in
  outcome_of run = Throw /\
  this (state_of run) = new_PlaywrightRecorder (mkRecorderOptions None) /\
  skipn 12 (trace_of run) = [ContextClose true; BrowserClose true].
Proof. cbv zeta. repeat split. Qed.

(** ** File names *)

Lemma endsWith_path_join dir file suffix :
  endsWith file suffix = true -> endsWith (path_join dir file) suffix = true.
Proof.
  intros H. unfold path_join. induction dir as [|c dir IH]; simpl.
  - rewrite H. apply orb_true_r.
  - simpl in IH. rewrite IH. apply orb_true_r.
Qed.

Lemma webm_is_not_mp4 s : endsWith s ".webm" = true -> endsWith s ".mp4" = false.
Proof.
  induction s as [|c s IH]; [discriminate|].
  intros H. cbn [endsWith] in H |- *. apply orb_true_iff in H. destruct H as [H | H].
  - apply String.eqb_eq in H. injection H as -> ->. reflexivity.
  - rewrite (IH H), orb_false_r.
    destruct (String.eqb_spec (String c s) ".mp4") as [E | E]; [|reflexivity].
    injection E as _ ->. discriminate.
Qed.

(** ** What [record] returns and prints *)

Lemma hoare_any {S A} env (P : S -> list Event -> Prop) (m : M S A) :
  hoare env P m (fun _ _ _ => True).
Proof. intros s t0 _. exact I. Qed.

Lemma cleanup_ok env s : outcome_of (cleanup env s) = Ok tt.
Proof.
  destruct s as [[b c o] w].
  unfold cleanup, bind, get, try_catch, on_page, close_call, set_context, set_browser,
    ret, outcome_of.
  destruct c as [c|], b as [b|]; simpl;
    repeat match goal with
           | |- context [fault env ?n] => destruct (fault env n); simpl
           end; reflexivity.
Qed.

Lemma findRecordedVideo_webm env dir :
  hoare env (fun _ _ => True) (on_page (findRecordedVideo dir))
    (fun o _ _ =>
       match o with Ok path => endsWith path ".webm" = true | Throw => True end).
Proof.
  intros s t0 _.
  unfold on_page, findRecordedVideo, fs_readdir, external, bind, emit, ask, ret, throw,
    outcome_of.
  destruct (fault env (tick (world s))); simpl; [exact I|].
  destruct (find (fun f => endsWith f ".webm") (readdir env dir)) as [f|] eqn:E;
    simpl; [|exact I].
  apply find_some in E. apply endsWith_path_join, E.
Qed.

(** Skips one step of [record] whose result does not matter here. *)
Ltac skip_step :=
  apply hoare_bind with (Q := fun _ _ _ => True); [apply hoare_any | trivial | intro].

(** When [record] returns, the path it returns is the [.webm] file it found
    and logged. *)
Lemma record_result env demo outputDir :
  hoare env (fun _ _ => True) (record demo outputDir)
    (fun o _ t =>
       match o with
       | Ok result =>
           endsWith (videoPath result) ".webm" = true /\
           In (LoggerInfo (RecordingComplete (videoPath result))) t
       | Throw => True
       end).
Proof.
  unfold record. do 5 skip_step.
  apply hoare_try_finally
    with (Q := fun o _ t =>
                 match o with
                 | Ok result =>
                     endsWith (videoPath result) ".webm" = true /\
                     In (LoggerInfo (RecordingComplete (videoPath result))) t
                 | Throw => True
                 end).
  - do 15 skip_step.
    eapply hoare_bind; [apply findRecordedVideo_webm | trivial | intros path].
    intros s t0 H.
    unfold bind, on_page, Date_now, logger_info, emit, ret, outcome_of, trace_of. simpl.
    split; [exact H|]. apply in_or_app. right. now left.
  - intros o s t0 H. rewrite cleanup_ok. destruct o as [result|]; [|exact I].
    destruct H as [H1 H2]. split; [exact H1|]. apply in_or_app. now left.
Qed.

Lemma record_prints_no_console_log demo outputDir :
  emits_only not_console_log (record demo outputDir).
Proof. unfold record, cleanup. emits_walk; reflexivity. Qed.

(** ** The record command without FFmpeg *)

Lemma file_line_injective a b :
  ConsoleLog ("File: " ++ a) = ConsoleLog ("File: " ++ b) -> a = b.
Proof. intros H. simpl in H. now injection H. Qed.

(** Splits a hypothesis [In e (l1 ++ l2 ++ ...)] into its cases. *)
Ltac split_in H :=
  repeat match type of H with
         | In _ (_ ++ _) => apply in_app_or in H; destruct H as [H | H]
         | In _ (_ :: _) => destruct H as [H | H]
         | In _ [] => destruct H
         end.

(** Finds an event in a trace made of known pieces. *)
Ltac find_in := repeat (progress (simpl; rewrite ?in_app_iff)); auto 20.

(** C8: when the record command runs with conversion enabled and FFmpeg is
    not installed, it warns as soon as the demo definition is loaded, and
    the path it reports in the end is the path of the captured video as the
    recorder returned it: it ends in [.webm], never in [.mp4]. *)
Theorem record_without_ffmpeg_keeps_webm env loadDemo demoFile options page :
  convert options = true ->
  ffmpeg_installed env = false ->
  let tr := trace_of (recordCommand loadDemo demoFile options env page) in
  let warning := SpinnerWarn "FFmpeg not found - video will be saved as WebM" in
  (forall demo page1 t1,
     loadDemo (path_resolve env demoFile) env page = (Ok demo, page1, t1) ->
     In warning tr /\
     forall result s2 t2,
       record demo (output options) env
         (mkRecSt (new_PlaywrightRecorder (mkRecorderOptions (Some (opt_headed options))))
                  page1) = (Ok result, s2, t2) ->
       In (ConsoleLog ("File: " ++ videoPath result)) tr) /\
  (forall finalPath,
     In (ConsoleLog ("File: " ++ finalPath)) tr ->
     In warning tr /\
     In (LoggerInfo (RecordingComplete finalPath)) tr /\
     endsWith finalPath ".webm" = true /\
     endsWith finalPath ".mp4" = false).
Proof.
  intros Hc Hf tr warning. unfold tr, warning. clear tr warning.
  unfold recordCommand. rewrite Hc.
  cbv [try_catch bind emit ask ret checkFfmpegInstalled user_code with_recorder].
  rewrite Hf.
  destruct (loadDemo (path_resolve env demoFile) env page) as [[[demo|] p1] t1].
  - pose proof (record_prints_no_console_log demo (output options) env
                  (mkRecSt (new_PlaywrightRecorder
                              (mkRecorderOptions (Some (opt_headed options)))) p1)) as Hlog.
    pose proof (record_result env demo (output options)
                  (mkRecSt (new_PlaywrightRecorder
                              (mkRecorderOptions (Some (opt_headed options)))) p1)
                  [] I) as Hres.
    destruct (record demo (output options) env _) as [[[result|] s2] t2] eqn:E;
      unfold trace_of, outcome_of in *; simpl fst in *; simpl snd in *.
    + destruct Hres as [Hwebm Hcomplete]. simpl in Hcomplete. split.
      * intros demo' page1 t1' Hload. injection Hload as -> -> ->. split.
        { find_in. }
        intros result' s2' t2' Hrec. rewrite E in Hrec. injection Hrec as -> _ _.
        find_in.
      * intros finalPath Hin.
        assert (Hpath : finalPath = videoPath result).
        { split_in Hin; try discriminate.
          - apply in_map_iff in Hin. destruct Hin as [e [He _]]. discriminate.
          - rewrite Forall_forall in Hlog. apply Hlog in Hin. discriminate.
          - symmetry. now apply file_line_injective. }
        subst finalPath. split; [find_in|].
        split; [find_in|].
        split; [exact Hwebm | now apply webm_is_not_mp4].
    + split.
      * intros demo' page1 t1' Hload. injection Hload as -> -> ->. split.
        { find_in. }
        intros result' s2' t2' Hrec. rewrite E in Hrec. discriminate.
      * intros finalPath Hin. exfalso.
        split_in Hin; try discriminate.
        -- apply in_map_iff in Hin. destruct Hin as [e [He _]]. discriminate.
        -- rewrite Forall_forall in Hlog. apply Hlog in Hin. discriminate.
  - unfold trace_of. simpl snd. split.
    + intros demo page1 t1' Hload. discriminate.
    + intros finalPath Hin. exfalso.
      split_in Hin; try discriminate.
      apply in_map_iff in Hin. destruct Hin as [e [He _]]. discriminate.
Qed.

Lemma record_without_ffmpeg_keeps_webm_witness :
  let tr := trace_of (recordCommand sample_loadDemo "demos/example.demo.ts"
                        (mkRecordOptions "./output" true false) sample_env fresh_page) in
  In (ConsoleLog "File: ./output/example-demo/a1b2c3.webm") tr /\
  In (SpinnerWarn "FFmpeg not found - video will be saved as WebM") tr /\
  endsWith "./output/example-demo/a1b2c3.webm" ".webm" = true /\
  endsWith "./output/example-demo/a1b2c3.webm" ".mp4" = false.
Proof.
  cbv zeta.
  assert (Hin : In (ConsoleLog ("File: " ++ "./output/example-demo/a1b2c3.webm"))
                   (trace_of (recordCommand sample_loadDemo "demos/example.demo.ts"
                                (mkRecordOptions "./output" true false)
                                sample_env fresh_page))).
  { vm_compute. auto 40. }
  destruct (record_without_ffmpeg_keeps_webm sample_env sample_loadDemo
              "demos/example.demo.ts" (mkRecordOptions "./output" true false) fresh_page
              eq_refl eq_refl) as [_ H].
  destruct (H _ Hin) as [Hw [_ [Hwebm Hmp4]]].
  split; [exact Hin|]. split; [exact Hw|]. split; [exact Hwebm | exact Hmp4].
Defined.

(** * Further properties of the engine *)

(** ** initFakeCursor *)

(** [initFakeCursor] creates the cursor element at (0, 0) only when the page
    has none: an existing cursor stays where it is, and a second call adds
    nothing. *)
Theorem initFakeCursor_creates_once env s :
  fault env (tick s) = false ->
  let run := initFakeCursor env s in
  outcome_of run = Ok tt /\
  (forall c, cursor s = Some c ->
     cursor (state_of run) = Some c /\ trace_of run = []) /\
  (cursor s = None ->
     cursor (state_of run) = Some (mkCursor (Some 0) (Some 0)) /\
     trace_of run = [CursorCreated]) /\
  trace_of (initFakeCursor env (state_of run)) = [] /\
  cursor (state_of (initFakeCursor env (state_of run))) = cursor (state_of run).
Proof.
  intros Hf run. unfold run, initFakeCursor, page_evaluate, external.
  rewrite Hf. unfold bind, get, put, emit, ret, outcome_of, state_of, trace_of.
  destruct (cursor s) as [c|] eqn:Hc; simpl; rewrite ?Hc; simpl.
  - split; [reflexivity|]. split; [intros c' E; injection E as <-; now split|].
    split; [discriminate|].
    destruct (fault env (S (tick s))); simpl; rewrite ?Hc; now split.
  - split; [reflexivity|]. split; [discriminate|]. split; [now split|].
    destruct (fault env (S (tick s))); now split.
Qed.

Lemma initFakeCursor_creates_once_witness :
  cursor (state_of (initFakeCursor sample_env fresh_page)) =
    Some (mkCursor (Some 0) (Some 0)) /\
  trace_of (initFakeCursor sample_env fresh_page) = [CursorCreated] /\
  trace_of (initFakeCursor sample_env (state_of (initFakeCursor sample_env fresh_page))) = [].
Proof.
  destruct (initFakeCursor_creates_once sample_env fresh_page eq_refl)
    as [_ [_ [H [H2 _]]]].
  destruct (H eq_refl) as [Hc Ht].
  split; [exact Hc|]. split; [exact Ht | exact H2].
Defined.

(** ** highlight and zoomHighlight on an element that is there *)

(** The rectangle an overlay event carries holds the CSS [left], [top],
    [width] and [height] the source writes.  Both overlays also have a 3px
    border; whether it is painted inside or outside that width and height
    is decided by the box sizing in force on the page, so the statements
    below are about the style values, not about painted edges. *)

(** On an element that is found, and with no call rejected, highlight logs
    no warning and appends exactly one overlay: its [left] and [top] are
    the element's, in page coordinates (scroll offsets added), less 3 px,
    its [width] and [height] are the element's plus 6 px, and it is removed
    after [durationMs + 200] -- which is also the one wait of the call. *)
Theorem highlight_overlay_style env s selector durationMs element :
  no_faults env ->
  querySelector env selector = Some element ->
  let rect := getBoundingClientRect element in
  let run := highlightElement selector durationMs env s in
  outcome_of run = Ok tt /\
  existsb is_warning (trace_of run) = false /\
  waits (trace_of run) = [durationMs + 200] /\
  exists style,
    filter is_overlay (trace_of run) =
      [OverlayAppended HighlightBox style (durationMs + 200)] /\
    rect_x style == rect_x rect + scrollX env - 3 /\
    rect_y style == rect_y rect + scrollY env - 3 /\
    rect_width style == rect_width rect + 6 /\
    rect_height style == rect_height rect + 6.
Proof.
  intros Hnf Hq rect run.
  assert (E : run =
              (Ok tt, bump (bump s),
               [OverlayAppended HighlightBox
                  (mkRect (rect_x rect + scrollX env - 3) (rect_y rect + scrollY env - 3)
                          (rect_width rect + 6) (rect_height rect + 6))
                  (durationMs + 200);
                WaitForTimeout (durationMs + 200)])).
  { unfold run, highlightElement, try_catch, bind, page_evaluate, page_waitForTimeout.
    rewrite !external_quiet by assumption.
    unfold bind, ask. rewrite Hq. unfold emit.
    rewrite external_quiet by assumption. reflexivity. }
  rewrite E. split; [reflexivity|]. split; [reflexivity|]. split; [reflexivity|].
  eexists. split; [reflexivity|]. simpl. repeat split; reflexivity.
Qed.

Lemma highlight_overlay_style_witness :
  exists style,
    filter is_overlay (trace_of (highlightElement "#btn" 500 sample_env fresh_page)) =
      [OverlayAppended HighlightBox style (500 + 200)] /\
    rect_x style == 247 /\ rect_y style == 177 /\
    rect_width style == 106 /\ rect_height style == 46.
Proof.
  destruct (highlight_overlay_style sample_env fresh_page "#btn" 500 btn
              (fun _ => eq_refl) eq_refl) as [_ [_ [_ [style [E [Hx [Hy [Hw Hh]]]]]]]].
  exists style. split; [exact E|].
  split; [rewrite Hx; reflexivity|]. split; [rewrite Hy; reflexivity|].
  split; [rewrite Hw; reflexivity | rewrite Hh; reflexivity].
Defined.

Lemma zoomHighlight_quiet_missing env s selector options :
  no_faults env ->
  querySelector env selector = None ->
  zoomHighlight selector options env s =
    (Ok tt, bump (bump s),
     [WaitForTimeout (nullish (optional options zoom_duration) 600)]).
Proof.
  intros Hnf Hq.
  unfold zoomHighlight, try_catch, page_evaluate, page_waitForTimeout.
  rewrite bind_run, external_quiet by assumption.
  unfold bind at 1, ask. cbn iota beta. rewrite Hq.
  unfold ret, emit. rewrite external_quiet by assumption. reflexivity.
Qed.

Lemma zoomHighlight_quiet_found env s selector options element :
  no_faults env ->
  querySelector env selector = Some element ->
  let duration := nullish (optional options zoom_duration) 600 in
  let rect := getBoundingClientRect element in
  zoomHighlight selector options env s =
    (Ok tt,
     mkPageSt (cursor s) (ripple_style s) true (S (S (tick s))) (draws s),
     (if zoom_style s then [] else [StyleAppended "__demo-zoom-style"]) ++
     [OverlayAppended ZoomFrame
        (mkRect (rect_x rect - 4) (rect_y rect - 4)
                (rect_width rect + 8) (rect_height rect + 8)) duration;
      WaitForTimeout duration]).
Proof.
  intros Hnf Hq duration rect.
  unfold zoomHighlight, try_catch, page_evaluate, page_waitForTimeout.
  fold duration.
  rewrite bind_run, external_quiet by assumption.
  unfold bind at 1, ask. cbn iota beta. rewrite Hq.
  destruct (zoom_style s) eqn:Hz;
    unfold bind, get, put, emit, ret; simpl; rewrite Hz; simpl;
    rewrite external_quiet by assumption; simpl; [|reflexivity].
  destruct s as [c r z t d]. simpl in Hz. subst z. reflexivity.
Qed.

(** zoomHighlight blocks for the whole [duration] whether or not the
    element exists.  Only when the element exists does it append its
    overlay: [left] and [top] are the element's less 4 px, [width] and
    [height] the element's plus 8 px, and it is removed after [duration];
    the keyframes style is in the page then. *)
Theorem zoomHighlight_blocks_for_duration env s selector options :
  no_faults env ->
  let duration := nullish (optional options zoom_duration) 600 in
  let run := zoomHighlight selector options env s in
  outcome_of run = Ok tt /\
  waits (trace_of run) = [duration] /\
  (querySelector env selector = None -> trace_of run = [WaitForTimeout duration]) /\
  (forall element,
     querySelector env selector = Some element ->
     let rect := getBoundingClientRect element in
     zoom_style (state_of run) = true /\
     exists style,
       filter is_overlay (trace_of run) = [OverlayAppended ZoomFrame style duration] /\
       rect_x style == rect_x rect - 4 /\ rect_y style == rect_y rect - 4 /\
       rect_width style == rect_width rect + 8 /\
       rect_height style == rect_height rect + 8).
Proof.
  intros Hnf duration run.
  split; [apply try_catch_warn_never_throws|].
  destruct (querySelector env selector) as [element|] eqn:Hq.
  - pose proof (zoomHighlight_quiet_found env s selector options element Hnf Hq) as E.
    cbv zeta in E. fold duration in E. fold run in E. rewrite E.
    unfold trace_of, state_of. simpl fst. simpl snd.
    split; [destruct (zoom_style s); reflexivity|].
    split; [discriminate|].
    intros element' E'. injection E' as <-. split; [reflexivity|].
    eexists. split.
    + destruct (zoom_style s); reflexivity.
    + simpl. repeat split; reflexivity.
  - pose proof (zoomHighlight_quiet_missing env s selector options Hnf Hq) as E.
    fold duration in E. fold run in E. rewrite E.
    split; [reflexivity|]. split; [reflexivity|]. intros element E'. discriminate.
Qed.

Lemma zoomHighlight_blocks_for_duration_witness :
  waits (trace_of (zoomHighlight ".missing" None sample_env fresh_page)) = [600] /\
  waits (trace_of (zoomHighlight "#btn" None sample_env fresh_page)) = [600].
Proof.
  split.
  - destruct (zoomHighlight_blocks_for_duration sample_env fresh_page ".missing" None
                (fun _ => eq_refl)) as [_ [H _]]. exact H.
  - destruct (zoomHighlight_blocks_for_duration sample_env fresh_page "#btn" None
                (fun _ => eq_refl)) as [_ [H _]]. exact H.
Defined.

(** ** moveTo: edge cases, path and cursor state *)

(** An element that is in the page but has no bounding box (it is not
    visible) makes moveTo return silently: no movement, no wait and, unlike
    a missing element, no warning. *)
Theorem moveTo_hidden_element_is_silent env s selector options element :
  no_faults env ->
  querySelector env selector = Some element ->
  boundingBox element = None ->
  moveTo selector options env s = (Ok tt, bump (bump s), []).
Proof.
  intros Hnf Hq Hb.
  unfold moveTo, try_catch, page_query, element_boundingBox.
  rewrite bind_run, external_quiet by assumption.
  unfold bind at 1, ask, ret. cbn iota beta. rewrite Hq. cbn iota beta zeta.
  rewrite bind_run, external_quiet by assumption. rewrite Hb. reflexivity.
Qed.

Lemma moveTo_hidden_element_is_silent_witness :
  moveTo "#hidden" None sample_env_hidden fresh_page = (Ok tt, bump (bump fresh_page), []).
Proof.
  apply (moveTo_hidden_element_is_silent sample_env_hidden fresh_page "#hidden" None
           hidden_element (fun _ => eq_refl) eq_refl eq_refl).
Defined.

(** With [steps] below 1 (0, a fraction, a negative number) the loop body
    never runs: moveTo finds the element, reads the cursor and returns
    without any position update, mouse move or wait. *)
Theorem moveTo_without_steps_does_not_move env s selector options element box :
  no_faults env ->
  querySelector env selector = Some element ->
  boundingBox element = Some box ->
  nullish (optional options move_steps) 20 < 1 ->
  outcome_of (moveTo selector options env s) = Ok tt /\
  trace_of (moveTo selector options env s) = [] /\
  cursor (state_of (moveTo selector options env s)) = cursor s.
Proof.
  intros Hnf Hq Hb Hlt.
  assert (Hl : loop_indices (nullish (optional options move_steps) 20) = []).
  { unfold loop_indices. set (steps := nullish (optional options move_steps) 20) in *.
    pose proof (Qfloor_le steps) as Hfl.
    assert (Hz : (Qfloor steps < 1)%Z).
    { rewrite Zlt_Qlt. eapply Qle_lt_trans; [exact Hfl | exact Hlt]. }
    replace (Z.to_nat (Qfloor steps)) with 0%nat by lia.
    reflexivity. }
  assert (E : moveTo selector options env s = (Ok tt, bump (bump (bump s)), [])).
  { unfold moveTo, try_catch, page_query, element_boundingBox, page_evaluate.
    rewrite bind_run, external_quiet by assumption.
    unfold bind at 1, ask, ret. cbn iota beta. rewrite Hq. cbn iota beta zeta.
    rewrite bind_run, external_quiet by assumption. rewrite Hb. cbn iota beta zeta.
    rewrite bind_run, external_quiet by assumption.
    unfold currentPos, bind at 1, get, ret. cbn iota beta zeta.
    rewrite Hl. reflexivity. }
  rewrite E. repeat split.
Qed.

Lemma moveTo_without_steps_does_not_move_witness :
  trace_of (moveTo "#btn" (Some (mkMoveOptions None (Some 0))) sample_env page_with_cursor)
    = [] /\
  cursor (state_of (moveTo "#btn" (Some (mkMoveOptions None (Some 0)))
                      sample_env page_with_cursor)) = cursor page_with_cursor.
Proof.
  destruct (moveTo_without_steps_does_not_move sample_env page_with_cursor "#btn"
              (Some (mkMoveOptions None (Some 0))) btn (mkRect 250 180 100 40)
              (fun _ => eq_refl) eq_refl eq_refl ltac:(reflexivity)) as [_ [Ht Hc]].
  split; assumption.
Defined.

Lemma eased_unit p : 0 <= p -> p <= 1 -> 0 <= eased p /\ eased p <= 1.
Proof.
  intros H0 H1. unfold eased.
  set (q := 1 - p).
  assert (Hq0 : 0 <= q) by (unfold q; lra).
  assert (Hq1 : q <= 1) by (unfold q; lra).
  assert (Hqq0 : 0 <= q * q) by now apply Qmult_le_0_compat.
  assert (Hqq1 : q * q <= q).
  { assert (0 <= q * (1 - q)) by (apply Qmult_le_0_compat; lra).
    setoid_replace (q * q) with (q - q * (1 - q)) by ring. lra. }
  assert (Hc0 : 0 <= q * q * q) by now apply Qmult_le_0_compat.
  assert (Hc1 : q * q * q <= q * q).
  { assert (0 <= q * q * (1 - q)) by (apply Qmult_le_0_compat; lra).
    setoid_replace (q * q * q) with (q * q - q * q * (1 - q)) by ring. lra. }
  assert (E : q ^ 3 == q * q * q) by ring.
  rewrite E. split; lra.
Qed.

Lemma interpolate_between current target steps i :
  In i (loop_indices steps) ->
  between current target (interpolate current target steps i).
Proof.
  intros Hi. apply loop_indices_spec in Hi. destruct Hi as [Hi1 Hi2].
  assert (H1 : 1 <= inject_Z i) by (rewrite Zle_Qle in Hi1; exact Hi1).
  assert (Hs : 0 < steps) by lra.
  assert (Hp0 : 0 <= inject_Z i / steps).
  { apply Qle_shift_div_l; [exact Hs | lra]. }
  assert (Hp1 : inject_Z i / steps <= 1).
  { apply Qle_shift_div_r; [exact Hs | lra]. }
  destruct (eased_unit _ Hp0 Hp1) as [He0 He1].
  unfold interpolate, between.
  set (e := eased (inject_Z i / steps)) in *.
  destruct (Qlt_le_dec target current) as [Hlt | Hle].
  - right.
    assert (0 <= (current - target) * e) by (apply Qmult_le_0_compat; lra).
    assert (0 <= (current - target) * (1 - e)) by (apply Qmult_le_0_compat; lra).
    split.
    + setoid_replace (current + (target - current) * e)
        with (target + (current - target) * (1 - e)) by ring. lra.
    + setoid_replace (current + (target - current) * e)
        with (current - (current - target) * e) by ring. lra.
  - left.
    assert (0 <= (target - current) * e) by (apply Qmult_le_0_compat; lra).
    assert (0 <= (target - current) * (1 - e)) by (apply Qmult_le_0_compat; lra).
    split.
    + lra.
    + setoid_replace (current + (target - current) * e)
        with (target - (target - current) * (1 - e)) by ring. lra.
Qed.

(** moveTo does not overshoot between points of the pixel grid: every
    position it hands to the cursor overlay and to the mouse lies, on each
    axis, between the starting position and the centre of the target,
    whatever [steps] and [duration] are.  (Off the grid the rounding of the
    last step can carry it past the centre by one unit in the last place.) *)
Theorem moveTo_stays_between_start_and_target env s selector options element box :
  no_faults env ->
  querySelector env selector = Some element ->
  boundingBox element = Some box ->
  on_pixel_grid (fst (read_cursor (cursor s))) ->
  on_pixel_grid (snd (read_cursor (cursor s))) ->
  on_pixel_grid (fst (center box)) ->
  on_pixel_grid (snd (center box)) ->
  let start := read_cursor (cursor s) in
  let tr := trace_of (moveTo selector options env s) in
  cursor_updates tr = mouse_moves tr /\
  Forall (fun p => between (fst start) (fst (center box)) (fst p) /\
                   between (snd start) (snd (center box)) (snd p))
         (mouse_moves tr).
Proof.
  intros Hnf Hq Hb _ _ _ _ start tr.
  destruct (moveTo_quiet env s selector options element box Hnf Hq Hb) as [s' E].
  unfold tr. rewrite E. unfold trace_of. simpl snd.
  rewrite mouse_moves_steps, cursor_updates_steps. split; [reflexivity|].
  apply Forall_forall. intros p Hp. apply in_map_iff in Hp.
  destruct Hp as [i [<- Hi]]. simpl. split; now apply interpolate_between.
Qed.

Lemma moveTo_stays_between_start_and_target_witness :
  let target := center (mkRect 250 180 100 40) in
  Forall (fun p => between 100 (fst target) (fst p) /\ between 100 (snd target) (snd p))
         (mouse_moves (trace_of (moveTo "#btn" None sample_env fresh_page))).
Proof.
  destruct (moveTo_stays_between_start_and_target sample_env fresh_page "#btn" None btn
              (mkRect 250 180 100 40) (fun _ => eq_refl) eq_refl eq_refl
              ltac:(grid_point 102400%Z) ltac:(grid_point 102400%Z)
              ltac:(grid_point 307200%Z) ltac:(grid_point 204800%Z)) as [_ H].
  exact H.
Defined.

Lemma move_step_state env s x y d :
  no_faults env ->
  (updateCursorPosition x y ;; page_mouse_move x y ;; page_waitForTimeout d) env s =
  (Ok tt, moved s (x, y), [UpdateCursorPosition x y; MouseMove x y; WaitForTimeout d]).
Proof.
  intros Hnf.
  unfold updateCursorPosition, page_evaluate, page_mouse_move, page_waitForTimeout.
  rewrite bind_run, external_quiet by assumption.
  unfold bind at 1 2, emit at 1, get. simpl.
  destruct s as [c r z t dr]. unfold moved. simpl.
  destruct c as [c|]; unfold put, ret; rewrite bind_run, external_quiet by assumption;
    unfold emit at 1; rewrite external_quiet by assumption; reflexivity.
Qed.

Lemma move_loop_state env pos tx ty steps d :
  no_faults env ->
  forall l s,
    for_of l
      (fun i =>
         updateCursorPosition (interpolate (fst pos) tx steps i)
                              (interpolate (snd pos) ty steps i) ;;
         page_mouse_move (interpolate (fst pos) tx steps i)
                         (interpolate (snd pos) ty steps i) ;;
         page_waitForTimeout d) env s =
    (Ok tt,
     fold_left moved
       (map (fun i => (interpolate (fst pos) tx steps i,
                       interpolate (snd pos) ty steps i)) l) s,
     flat_map (step_events pos tx ty steps d) l).
Proof.
  intros Hnf. induction l as [|i l IH]; intros s.
  - reflexivity.
  - simpl for_of. rewrite bind_run.
    rewrite (move_step_state env s _ _ d Hnf). rewrite IH. reflexivity.
Qed.

Lemma moveTo_quiet_state env s selector options element box :
  no_faults env ->
  querySelector env selector = Some element ->
  boundingBox element = Some box ->
  let duration := nullish (optional options move_duration) 500 in
  let steps := nullish (optional options move_steps) 20 in
  let start := read_cursor (cursor s) in
  moveTo selector options env s =
  (Ok tt,
   fold_left moved
     (map (fun i => (interpolate (fst start) (fst (center box)) steps i,
                     interpolate (snd start) (snd (center box)) steps i))
          (loop_indices steps))
     (bump (bump (bump s))),
   flat_map (step_events start (fst (center box)) (snd (center box))
                         steps (duration / steps))
            (loop_indices steps)).
Proof.
  intros Hnf Hq Hb duration steps start.
  unfold moveTo, try_catch.
  fold duration. fold steps.
  unfold page_query, element_boundingBox, page_evaluate.
  rewrite bind_run, external_quiet by assumption.
  unfold bind at 1, ask, ret. cbn iota beta. rewrite Hq. cbn iota beta zeta.
  rewrite bind_run, external_quiet by assumption. rewrite Hb. cbn iota beta zeta.
  rewrite bind_run, external_quiet by assumption.
  unfold currentPos, bind at 1, get, ret. cbn iota beta zeta.
  pose proof (move_loop_state env start (fst (center box)) (snd (center box)) steps
                (duration / steps) Hnf (loop_indices steps) (bump (bump (bump s)))) as E.
  unfold center in E |- *. simpl fst in E |- *. simpl snd in E |- *.
  unfold start in E |- *. simpl cursor. rewrite E. reflexivity.
Qed.

Lemma cursor_moved s p :
  cursor (moved s p) =
  match cursor s with
  | Some _ => Some (mkCursor (Some (fst p)) (Some (snd p)))
  | None => None
  end.
Proof. reflexivity. Qed.

Lemma fold_moved_styles ps s :
  ripple_style (fold_left moved ps s) = ripple_style s /\
  zoom_style (fold_left moved ps s) = zoom_style s /\
  draws (fold_left moved ps s) = draws s /\
  (cursor s = None -> cursor (fold_left moved ps s) = None) /\
  (cursor s <> None -> cursor (fold_left moved ps s) <> None).
Proof.
  revert s. induction ps as [|p ps IH]; intros s; simpl.
  - repeat split; auto.
  - destruct (IH (moved s p)) as [H1 [H2 [H3 [H4 H5]]]].
    rewrite H1, H2, H3. unfold moved at 1 2 3. simpl.
    repeat split.
    + intros Hc. apply H4. unfold moved. simpl. now rewrite Hc.
    + intros Hc. apply H5. unfold moved. simpl.
      destruct (cursor s); [discriminate | congruence].
Qed.

(** The cursor's position lives in the cursor element.  After a moveTo with
    a whole number of steps [n >= 1], from a position on the pixel grid to
    a centre in whole pixels -- a value that the last step reaches without
    rounding and that [style.left] and [style.top] give back as written --
    a cursor element that exists is left exactly on the centre of the
    target, so that the next moveTo starts from there (on an axis where the
    centre is not 0); a page without a cursor element still has none, and
    the next moveTo starts from (100, 100) again.  The injected styles are
    not touched. *)
Theorem moveTo_leaves_cursor_on_target env s selector options element box n :
  no_faults env ->
  querySelector env selector = Some element ->
  boundingBox element = Some box ->
  (1 <= n)%Z ->
  nullish (optional options move_steps) 20 == inject_Z n ->
  on_pixel_grid (fst (read_cursor (cursor s))) ->
  on_pixel_grid (snd (read_cursor (cursor s))) ->
  whole_pixel (fst (center box)) ->
  whole_pixel (snd (center box)) ->
  let after := state_of (moveTo selector options env s) in
  ripple_style after = ripple_style s /\
  zoom_style after = zoom_style s /\
  (cursor s = None ->
   cursor after = None /\ read_cursor (cursor after) = (100, 100)) /\
  (forall c, cursor s = Some c ->
     exists x y,
       cursor after = Some (mkCursor (Some x) (Some y)) /\
       x == fst (center box) /\ y == snd (center box) /\
       (~ fst (center box) == 0 -> fst (read_cursor (cursor after)) == fst (center box)) /\
       (~ snd (center box) == 0 -> snd (read_cursor (cursor after)) == snd (center box))).
Proof.
  intros Hnf Hq Hb Hn Hsteps _ _ _ _ after.
  pose proof (moveTo_quiet_state env s selector options element box Hnf Hq Hb) as E.
  cbv zeta in E. unfold after. rewrite E. unfold state_of. simpl fst. simpl snd.
  match goal with |- context [fold_left moved ?ps ?s0] =>
    destruct (fold_moved_styles ps s0) as [H1 [H2 [_ [H4 _]]]] end.
  split; [exact H1|]. split; [exact H2|]. split.
  - intros Hc. rewrite (H4 Hc). split; reflexivity.
  - intros c Hc.
    destruct (loop_indices_last _ n Hn Hsteps) as [before [-> _]].
    rewrite map_app, fold_left_app. simpl map. simpl fold_left.
    match goal with |- context [moved ?s1 ?p] =>
      assert (Hs1 : cursor s1 <> None) end.
    { match goal with |- cursor (fold_left moved ?ps ?s0) <> None =>
        destruct (fold_moved_styles ps s0) as [_ [_ [_ [_ H5]]]] end.
      apply H5. simpl. rewrite Hc. discriminate. }
    match goal with |- context [moved ?s1 ?p] =>
      destruct (cursor s1) as [c1|] eqn:Hc1; [|congruence];
      exists (fst p), (snd p) end.
    rewrite !cursor_moved, Hc1.
    split; [reflexivity|].
    assert (Hx := interpolate_last (fst (read_cursor (cursor s))) (fst (center box))
                    _ n Hn Hsteps).
    assert (Hy := interpolate_last (snd (read_cursor (cursor s))) (snd (center box))
                    _ n Hn Hsteps).
    simpl fst. simpl snd.
    split; [exact Hx|]. split; [exact Hy|]. split.
    + intros Hnz. unfold read_cursor, or_else. simpl.
      destruct (Qeq_bool _ 0) eqn:Hz; [|exact Hx].
      apply Qeq_bool_iff in Hz. rewrite Hx in Hz. contradiction.
    + intros Hnz. unfold read_cursor, or_else. simpl.
      destruct (Qeq_bool _ 0) eqn:Hz; [|exact Hy].
      apply Qeq_bool_iff in Hz. rewrite Hy in Hz. contradiction.
Qed.

Lemma moveTo_leaves_cursor_on_target_witness :
  exists x y,
    cursor (state_of (moveTo "#btn" None sample_env page_with_cursor)) =
      Some (mkCursor (Some x) (Some y)) /\
    x == 300 /\ y == 200.
Proof.
  destruct (moveTo_leaves_cursor_on_target sample_env page_with_cursor "#btn" None btn
              (mkRect 250 180 100 40) 20 (fun _ => eq_refl) eq_refl eq_refl
              ltac:(lia) ltac:(reflexivity)
              ltac:(grid_point 102400%Z) ltac:(grid_point 102400%Z)
              ltac:(grid_point 300%Z) ltac:(grid_point 200%Z)) as [_ [_ [_ H]]].
  destruct (H (mkCursor (Some 0) (Some 0)) eq_refl) as [x [y [Hc [Hx [Hy _]]]]].
  exists x, y. split; [exact Hc|].
  split; [rewrite Hx; reflexivity | rewrite Hy; reflexivity].
Defined.

(** ** typeAnimated under rejections *)

Lemma keyboard_inputs_app t1 t2 :
  keyboard_inputs (t1 ++ t2) = keyboard_inputs t1 ++ keyboard_inputs t2.
Proof. unfold keyboard_inputs. apply flat_map_app. Qed.

Lemma type_step_cases env delay variation c s :
  let step := page_keyboard_type c ;;
              r <- Math_random ;;
              page_waitForTimeout (Qmax 10 (actualDelay delay variation r)) in
  (exists s', step env s = (Throw, s', [])) \/
  (exists s', step env s = (Throw, s', [KeyboardType c])) \/
  (exists s' ms, step env s = (Ok tt, s', [KeyboardType c; WaitForTimeout ms])).
Proof.
  cbv zeta. unfold page_keyboard_type, page_waitForTimeout, Math_random, bind, external, emit.
  destruct (fault env (tick s)); simpl; [left; eexists; reflexivity|].
  destruct (fault env (S (tick s))); simpl.
  - right. left. eexists. reflexivity.
  - right. right. eexists. eexists. reflexivity.
Qed.

Lemma typing_loop_prefix env delay variation :
  forall chars s,
  exists typed rest,
    chars = typed ++ rest /\
    keyboard_inputs
      (trace_of
         (for_of chars
            (fun char =>
               page_keyboard_type char ;;
               r <- Math_random ;;
               page_waitForTimeout (Qmax 10 (actualDelay delay variation r))) env s))
    = typed /\
    (outcome_of
       (for_of chars
          (fun char =>
             page_keyboard_type char ;;
             r <- Math_random ;;
             page_waitForTimeout (Qmax 10 (actualDelay delay variation r))) env s)
     = Ok tt -> rest = []).
Proof.
  induction chars as [|c chars IH]; intros s.
  - exists [], []. repeat split.
  - simpl for_of. rewrite bind_run.
    destruct (type_step_cases env delay variation c s)
      as [[s' E] | [[s' E] | [s' [ms E]]]]; cbv zeta in E; rewrite E.
    + exists [], (c :: chars). split; [reflexivity|]. split; [reflexivity | discriminate].
    + exists [c], chars. split; [reflexivity|]. split; [reflexivity | discriminate].
    + destruct (IH s') as [typed [rest [Hsplit [Hkeys Hok]]]].
      match goal with |- context [for_of chars ?body env s'] =>
        destruct (for_of chars body env s') as [[o s1] t1] end.
      unfold trace_of, outcome_of in *. simpl in *.
      exists (c :: typed), rest. split; [now rewrite Hsplit|].
      split; [now rewrite Hkeys | exact Hok].
Qed.

Lemma page_click_cases env selector s :
  (exists s', page_click selector env s = (Throw, s', [])) \/
  (exists s', page_click selector env s = (Ok tt, s', [Click selector])).
Proof.
  unfold page_click, external, bind, ask, emit, throw.
  destruct (fault env (tick s)); [left; eexists; reflexivity|].
  simpl. destruct (querySelector env selector); simpl;
    [right | left]; eexists; reflexivity.
Qed.

Lemma page_waitForTimeout_cases env ms s :
  page_waitForTimeout ms env s = (Throw, bump s, []) \/
  page_waitForTimeout ms env s = (Ok tt, bump s, [WaitForTimeout ms]).
Proof.
  unfold page_waitForTimeout, external, emit.
  destruct (fault env (tick s)); auto.
Qed.

Lemma typing_body_prefix env delay variation selector chars s :
  let body :=
    page_click selector ;;
    page_waitForTimeout 100 ;;
    for_of chars
      (fun char =>
         page_keyboard_type char ;;
         r <- Math_random ;;
         page_waitForTimeout (Qmax 10 (actualDelay delay variation r))) in
  exists typed rest,
    chars = typed ++ rest /\
    keyboard_inputs (trace_of (body env s)) = typed /\
    (outcome_of (body env s) = Ok tt -> rest = []).
Proof.
  cbv zeta. rewrite bind_run.
  destruct (page_click_cases env selector s) as [[s0 E] | [s0 E]]; rewrite E.
  { exists [], chars. split; [reflexivity|]. split; [reflexivity | discriminate]. }
  rewrite bind_run.
  destruct (page_waitForTimeout_cases env 100 s0) as [E1 | E1]; rewrite E1.
  { exists [], chars. split; [reflexivity|]. split; [reflexivity | discriminate]. }
  destruct (typing_loop_prefix env delay variation chars (bump s0))
    as [typed [rest [Hsplit [Hkeys Hok]]]].
  match goal with |- context [for_of chars ?body env ?s1] =>
    destruct (for_of chars body env s1) as [[o s2] t2] end.
  unfold trace_of, outcome_of in *. simpl in *.
  exists typed, rest. split; [exact Hsplit|]. split; [exact Hkeys | exact Hok].
Qed.

(** Whatever rejects on the way, the keys typeAnimated sends are a prefix of
    the text, in order; and when no warning was logged the whole text was
    typed. *)
Theorem typeAnimated_types_a_prefix env s selector text options :
  let tr := trace_of (typeAnimated selector text options env s) in
  exists typed rest,
    list_ascii_of_string text = typed ++ rest /\
    keyboard_inputs tr = typed /\
    (existsb is_warning tr = false -> rest = []).
Proof.
  intros tr. unfold tr, typeAnimated. rewrite try_catch_warn_trace.
  destruct (typing_body_prefix env (nullish (optional options type_delay) 50)
              (nullish (optional options type_variation) 20) selector
              (list_ascii_of_string text) s) as [typed [rest [Hsplit [Hkeys Hok]]]].
  cbv zeta in Hkeys, Hok.
  match goal with |- context [trace_of (?body env s)] =>
    destruct (body env s) as [[o s1] t1] end.
  unfold trace_of, outcome_of in *. simpl in *.
  exists typed, rest. split; [exact Hsplit|].
  destruct o as [[]|]; simpl.
  - rewrite app_nil_r. split; [exact Hkeys|]. intros _. now apply Hok.
  - rewrite keyboard_inputs_app. simpl. rewrite app_nil_r. split; [exact Hkeys|].
    rewrite existsb_app. simpl. rewrite orb_true_r. discriminate.
Qed.

(** When the element cannot be focused -- the selector matches nothing --
    typeAnimated types nothing and waits for nothing: the warning is all
    it leaves. *)
Theorem typeAnimated_missing_types_nothing env s selector text options :
  querySelector env selector = None ->
  typeAnimated selector text options env s =
    (Ok tt, bump s, [LoggerWarn ("Failed to type in element: " ++ selector)]).
Proof.
  intros Hq. unfold typeAnimated, try_catch. rewrite bind_run.
  unfold page_click, external, bind at 1, ask.
  destruct (fault env (tick s)); simpl; [reflexivity|].
  rewrite Hq. reflexivity.
Qed.

Lemma typeAnimated_missing_types_nothing_witness :
  keyboard_inputs (trace_of (typeAnimated ".missing" "hi" None sample_env fresh_page)) = [] /\
  waits (trace_of (typeAnimated ".missing" "hi" None sample_env fresh_page)) = [].
Proof.
  rewrite (typeAnimated_missing_types_nothing sample_env fresh_page ".missing" "hi" None
             eq_refl).
  split; reflexivity.
Defined.

(** ** clickAnimated *)

Lemma page_click_missing_run env selector s :
  querySelector env selector = None ->
  page_click selector env s = (Throw, bump s, []).
Proof.
  intros Hq. unfold page_click, external, bind, ask, throw.
  destruct (fault env (tick s)); [reflexivity|]. simpl. now rewrite Hq.
Qed.

Lemma moveTo_missing_run env selector options s :
  querySelector env selector = None ->
  exists msg, moveTo selector options env s = (Ok tt, bump s, [LoggerWarn msg]).
Proof.
  intros Hq. unfold moveTo, try_catch, page_query. rewrite bind_run.
  unfold external, bind at 1, ask, ret, logger_warn, emit.
  destruct (fault env (tick s)); simpl; [eexists; reflexivity|].
  rewrite Hq. eexists. reflexivity.
Qed.

Lemma clickAnimated_missing_run env selector options s :
  querySelector env selector = None ->
  let hoverDuration := nullish (optional options click_hoverDuration) 200 in
  let failed := LoggerWarn ("Failed to click element: " ++ selector) in
  exists s' msg,
    clickAnimated selector options env s = (Ok tt, s', [LoggerWarn msg; failed]) \/
    clickAnimated selector options env s =
      (Ok tt, s', [LoggerWarn msg; WaitForTimeout hoverDuration; failed]).
Proof.
  intros Hq hoverDuration failed. unfold clickAnimated, try_catch.
  rewrite bind_run.
  destruct (moveTo_missing_run env selector
              (Some (mkMoveOptions
                       (Some (nullish (optional options click_moveDuration) 400)) None))
              s Hq) as [msg ->].
  rewrite bind_run. fold hoverDuration.
  destruct (page_waitForTimeout_cases env hoverDuration (bump s)) as [E | E]; rewrite E.
  { eexists. exists msg. left. reflexivity. }
  rewrite bind_run. unfold page_evaluate.
  match goal with |- context [external ?e env ?s0] =>
    assert (Ecb : e env (bump s0) = (Ok tt, bump s0, []))
      by (unfold bind, ask, ret; simpl; now rewrite Hq);
    destruct (external_cases e env s0) as [Ee | Ee]; rewrite Ee; clear Ee end.
  { eexists. exists msg. right. reflexivity. }
  rewrite Ecb, (page_click_missing_run env selector _ Hq).
  eexists. exists msg. right. reflexivity.
Qed.

(** On a selector that matches nothing clickAnimated never clicks and adds
    no ripple, whatever else rejects: all it does is warn and, at most,
    wait out the hover. *)
Theorem clickAnimated_missing_never_clicks env s selector options :
  querySelector env selector = None ->
  let tr := trace_of (clickAnimated selector options env s) in
  existsb is_click tr = false /\
  existsb is_overlay tr = false /\
  existsb is_style tr = false /\
  mouse_moves tr = [].
Proof.
  intros Hq tr. unfold tr.
  destruct (clickAnimated_missing_run env selector options s Hq)
    as [s' [msg [E | E]]]; rewrite E; repeat split.
Qed.

Lemma clickAnimated_missing_never_clicks_witness :
  existsb is_click (trace_of (clickAnimated ".missing" None sample_env fresh_page)) = false /\
  mouse_moves (trace_of (clickAnimated ".missing" None sample_env fresh_page)) = [].
Proof.
  destruct (clickAnimated_missing_never_clicks sample_env fresh_page ".missing" None eq_refl)
    as [H1 [_ [_ H2]]].
  split; assumption.
Defined.

(** A clickAnimated that finds its element and meets no rejection first
    does what moveTo does with [duration = moveDuration] (20 position
    updates), then waits [hoverDuration], adds the ripple with [left] and
    [top] at the centre of the element's client rectangle, and clicks last.
    The keyframes style of the ripple is added only when the page does not
    hold it yet, and it does afterwards: a page gets it once. *)
Theorem clickAnimated_moves_hovers_then_clicks env s selector options element box :
  no_faults env ->
  querySelector env selector = Some element ->
  boundingBox element = Some box ->
  let hoverDuration := nullish (optional options click_hoverDuration) 200 in
  let moveDuration := nullish (optional options click_moveDuration) 400 in
  let rect := getBoundingClientRect element in
  let moves :=
    trace_of (moveTo selector (Some (mkMoveOptions (Some moveDuration) None)) env s) in
  let run := clickAnimated selector options env s in
  outcome_of run = Ok tt /\
  trace_of run =
    moves ++
    [WaitForTimeout hoverDuration] ++
    (if ripple_style s then [] else [StyleAppended "__demo-ripple-style"]) ++
    [OverlayAppended Ripple
       (mkRect (rect_x rect + rect_width rect / 2) (rect_y rect + rect_height rect / 2)
               10 10) 400;
     Click selector] /\
  ripple_style (state_of run) = true /\
  List.length (mouse_moves moves) = 20%nat.
Proof.
  intros Hnf Hq Hb hoverDuration moveDuration rect moves run.
  split; [apply try_catch_warn_never_throws|].
  pose proof (moveTo_quiet_state env s selector
                (Some (mkMoveOptions (Some moveDuration) None)) element box Hnf Hq Hb) as Em.
  cbv zeta in Em.
  assert (Hmoves : moves = snd (moveTo selector (Some (mkMoveOptions (Some moveDuration) None))
                                  env s)) by reflexivity.
  match type of Em with _ = (_, ?st, ?tr0) =>
    set (s1 := st) in *; set (tr1 := tr0) in * end.
  assert (Hr1 : ripple_style s1 = ripple_style s).
  { unfold s1. match goal with |- context [fold_left moved ?ps ?s0] =>
      destruct (fold_moved_styles ps s0) as [H1 _] end. exact H1. }
  clearbody s1. destruct s1 as [c1 r1 z1 t1 d1]. simpl in Hr1. subst r1.
  assert (Erun : run =
            (Ok tt,
             mkPageSt c1 true z1 (S (S (S t1))) d1,
             tr1 ++ [WaitForTimeout hoverDuration] ++
             (if ripple_style s then [] else [StyleAppended "__demo-ripple-style"]) ++
             [OverlayAppended Ripple
                (mkRect (rect_x rect + rect_width rect / 2)
                        (rect_y rect + rect_height rect / 2) 10 10) 400;
              Click selector])).
  { unfold run, clickAnimated, try_catch. fold moveDuration. fold hoverDuration.
    rewrite bind_run, Em. rewrite bind_run.
    unfold page_waitForTimeout at 1. rewrite external_quiet by assumption.
    unfold emit at 1. rewrite bind_run.
    unfold page_evaluate at 1. rewrite external_quiet by assumption.
    match goal with |- context [bind ask ?k env ?s2] =>
      assert (Ecb : bind ask k env s2 =
                (Ok tt, mkPageSt c1 true z1 (S (S t1)) d1,
                 (if ripple_style s then [] else [StyleAppended "__demo-ripple-style"]) ++
                 [OverlayAppended Ripple
                    (mkRect (rect_x rect + rect_width rect / 2)
                            (rect_y rect + rect_height rect / 2) 10 10) 400]))
        by (unfold bind, ask, get, put, emit, ret; simpl; rewrite Hq; simpl;
            destruct (ripple_style s); reflexivity);
      rewrite Ecb end.
    unfold page_click. rewrite external_quiet by assumption.
    unfold bind, ask, emit. simpl. rewrite Hq. simpl.
    now rewrite <- !app_assoc. }
  rewrite Erun. unfold trace_of, state_of. simpl fst. simpl snd.
  rewrite Hmoves, Em. simpl snd.
  split; [reflexivity|]. split; [reflexivity|].
  unfold tr1. rewrite mouse_moves_steps, length_map.
  simpl nullish. rewrite (loop_indices_integer 20 20) by reflexivity.
  now rewrite length_map, length_seq.
Qed.

Lemma clickAnimated_moves_hovers_then_clicks_witness :
  let tr := trace_of (clickAnimated "#btn" None sample_env page_with_cursor) in
  List.length tr = 64%nat /\
  skipn 60 tr =
    [WaitForTimeout 200; StyleAppended "__demo-ripple-style";
     OverlayAppended Ripple (mkRect (250 + 100 / 2) (180 + 40 / 2) 10 10) 400;
     Click "#btn"] /\
  ripple_style (state_of (clickAnimated "#btn" None sample_env page_with_cursor)) = true.
Proof.
  destruct (clickAnimated_moves_hovers_then_clicks sample_env page_with_cursor "#btn" None
              btn (mkRect 250 180 100 40) (fun _ => eq_refl) eq_refl eq_refl)
    as [_ [Ht [Hr _]]].
  cbv zeta. split; [|split; [|exact Hr]]; rewrite Ht; reflexivity.
Defined.

(** * Further properties of the recorder *)

(** ** cleanup *)

(** [cleanup] never throws.  It calls [context.close()] and then
    [browser.close()], each only when the field holds a handle; a rejected
    [context.close()] does not keep [browser.close()] from being called.
    Afterwards both fields are [null], the options are untouched, and a
    second [cleanup] does nothing. *)
Theorem cleanup_closes_context_then_browser env s :
  let run := cleanup env s in
  outcome_of run = Ok tt /\
  (exists context_ok browser_ok,
     trace_of run =
       match this_context (this s) with Some _ => [ContextClose context_ok] | None => [] end ++
       match this_browser (this s) with Some _ => [BrowserClose browser_ok] | None => [] end) /\
  this (state_of run) = new_PlaywrightRecorder (this_options (this s)) /\
  cleanup env (state_of run) = (Ok tt, state_of run, []).
Proof.
  destruct s as [[b c o] w]. cbv zeta.
  unfold cleanup, bind, get, try_catch, on_page, close_call, set_context, set_browser,
    ret, new_PlaywrightRecorder, outcome_of, state_of, trace_of.
  destruct c as [c|], b as [b|]; simpl;
    repeat match goal with
           | |- context [fault env ?n] => destruct (fault env n); simpl
           end;
    (split; [reflexivity|]);
    (split;
     [ first [ exists true, true; reflexivity | exists true, false; reflexivity
             | exists false, true; reflexivity | exists false, false; reflexivity ]
     | split; reflexivity ]).
Qed.

Example cleanup_when_both_closes_reject :
  cleanup failing_env busy_recorder =
  (Ok tt,
   mkRecSt (new_PlaywrightRecorder (mkRecorderOptions None))
           (bump (bump fresh_page)),
   [ContextClose false; BrowserClose false]).
Proof. reflexivity. Qed.

(** ** What [record] needs in order to return *)

Lemma find_first {A} (f : A -> bool) l x :
  find f l = Some x ->
  exists before after,
    l = before ++ x :: after /\ Forall (fun y => f y = false) before /\ f x = true.
Proof.
  induction l as [|y l IH]; simpl; [discriminate|].
  destruct (f y) eqn:Hy.
  - intros [= ->]. exists [], l. repeat split; [constructor | exact Hy].
  - intros H. destruct (IH H) as [before [after [-> [Hb Hx]]]].
    exists (y :: before), after. repeat split; [now constructor | exact Hx].
Qed.

Lemma hoare_keeps_event {S A} env e (m : M S A) :
  hoare env (fun _ t => In e t) m (fun _ _ t => In e t).
Proof. intros s t0 H. apply in_or_app. now left. Qed.

Lemma context_close_logged env :
  hoare env (fun _ _ => True) (on_page (close_call ContextClose))
    (fun o _ t => match o with Ok _ => In (ContextClose true) t | Throw => True end).
Proof.
  intros s t0 _. unfold on_page, close_call, outcome_of, trace_of.
  destruct (fault env (tick (world s))); simpl; [exact I|].
  apply in_or_app. right. now left.
Qed.

Lemma findRecordedVideo_first env dir e :
  hoare env (fun _ t => In e t) (on_page (findRecordedVideo dir))
    (fun o _ t =>
       match o with
       | Ok path => In e t /\
                    exists file, first_webm (readdir env dir) file /\
                                 path = path_join dir file
       | Throw => True
       end).
Proof.
  intros s t0 Hin.
  unfold on_page, findRecordedVideo, fs_readdir, external, bind, emit, ask, ret, throw,
    outcome_of, trace_of.
  destruct (fault env (tick (world s))); simpl; [exact I|].
  destruct (find (fun f => endsWith f ".webm") (readdir env dir)) as [f|] eqn:E;
    simpl; [|exact I].
  split; [apply in_or_app; now left|].
  exists f. split; [|reflexivity]. apply find_first in E. exact E.
Qed.

(** [record] returns only when [context.close()] resolved -- that is what
    makes Playwright write the video -- and the directory of the demo then
    holds a [.webm] file; the path it returns is that directory joined with
    the first such file.  So with no [.webm] file there, [record] throws. *)
Theorem record_returns_first_webm env s demo outputDir result s' tr :
  record demo outputDir env s = (Ok result, s', tr) ->
  let videoDir := path_join outputDir (demo_id demo) in
  In (ContextClose true) tr /\
  exists file,
    first_webm (readdir env videoDir) file /\
    videoPath result = path_join videoDir file.
Proof.
  intros Hrun videoDir.
  assert (H : hoare env (fun _ _ => True) (record demo outputDir)
                (fun o _ t =>
                   match o with
                   | Ok result =>
                       In (ContextClose true) t /\
                       exists file,
                         first_webm (readdir env videoDir) file /\
                         videoPath result = path_join videoDir file
                   | Throw => True
                   end)).
  { unfold record. do 5 skip_step.
    apply hoare_try_finally
      with (Q := fun o _ t =>
                   match o with
                   | Ok result =>
                       In (ContextClose true) t /\
                       exists file,
                         first_webm (readdir env videoDir) file /\
                         videoPath result = path_join videoDir file
                   | Throw => True
                   end).
    - do 13 skip_step.
      eapply hoare_bind; [apply context_close_logged | trivial | intros []].
      eapply hoare_bind; [apply hoare_keeps_event | trivial | intros []].
      eapply hoare_bind; [apply findRecordedVideo_first | trivial | intros path].
      intros s0 t0 [Hin [file [Hfirst Hpath]]].
      unfold bind, on_page, Date_now, logger_info, emit, ret, outcome_of, trace_of. simpl.
      split; [apply in_or_app; now left|].
      exists file. split; [exact Hfirst | exact Hpath].
    - intros o s0 t0 H0. rewrite cleanup_ok. destruct o as [r|]; [|exact I].
      destruct H0 as [Hin Hfile]. split; [apply in_or_app; now left | exact Hfile]. }
  specialize (H s [] I). rewrite Hrun in H. exact H.
Qed.

Lemma record_returns_first_webm_witness :
  first_webm (readdir sample_env "./output/example-demo") "a1b2c3.webm" /\
  In (ContextClose true)
     (trace_of (record sample_demo "./output" sample_env
                  (mkRecSt (new_PlaywrightRecorder (mkRecorderOptions None)) fresh_page))).
Proof.
  destruct (record_returns_first_webm sample_env
              (mkRecSt (new_PlaywrightRecorder (mkRecorderOptions None)) fresh_page)
              sample_demo "./output" _ _ _ record_sample_demo) as [Hin [file [Hfirst Hpath]]].
  split; [|exact Hin].
  simpl in Hpath. injection Hpath as <-. exact Hfirst.
Defined.

(** ** The script inside [record] *)

Lemma hoare_emits {S A} env (P : Event -> Prop) (m : M S A) :
  emits_only P m ->
  hoare env (fun _ t => Forall P t) m (fun _ _ t => Forall P t).
Proof. intros Hm s t0 H. apply Forall_app. split; [exact H | apply Hm]. Qed.

Lemma hoare_false {S A} env (P : S -> list Event -> Prop) (m : M S A)
    (Q : Outcome A -> S -> list Event -> Prop) :
  (forall s t, P s t -> False) -> hoare env P m Q.
Proof. intros H s t0 HP. destruct (H s t0 HP). Qed.

(** One step of [record] that does not report completion. *)
Ltac silent_step :=
  apply hoare_bind with (Q := fun _ _ t => Forall not_complete t);
  [ apply hoare_emits; emits_walk; reflexivity
  | intros ? ? ?; split; [reflexivity | assumption]
  | intro ].

(** A demo script that throws makes [record] throw: the error is not
    swallowed, and no [Recording complete] line is logged. *)
Theorem record_script_failure_is_fatal env s demo outputDir :
  (forall ctx page, outcome_of (demo_run demo ctx env page) = Throw) ->
  outcome_of (record demo outputDir env s) = Throw /\
  Forall not_complete (trace_of (record demo outputDir env s)).
Proof.
  intros Hthrow.
  assert (H : hoare env (fun _ t => Forall not_complete t) (record demo outputDir)
                (fun o _ t => o = Throw /\ Forall not_complete t)).
  { unfold record. do 5 silent_step.
    apply hoare_try_finally with (Q := fun o _ t => o = Throw /\ Forall not_complete t).
    - do 11 silent_step.
      apply hoare_bind with (Q := fun o _ t => o = Throw /\ Forall not_complete t).
      + intros s0 t0 H0. split.
        * unfold run_script, outcome_of in *.
          match goal with
          | |- context [demo_run demo ?ctx env ?page] => specialize (Hthrow ctx page)
          end.
          destruct (demo_run demo _ env (world s0)) as [[o p] t]. exact Hthrow.
        * apply Forall_app. split; [exact H0|].
          apply emits_run_script. reflexivity.
      + intros ? ? [_ H1]. split; [reflexivity | exact H1].
      + intros []. apply hoare_false. intros s0 t0 [H0 _]. discriminate.
    - intros o s0 t0 [-> H0]. split.
      + destruct (outcome_of (cleanup env s0)); reflexivity.
      + apply Forall_app. split; [exact H0|].
        assert (Hc : emits_only not_complete cleanup).
        { unfold cleanup. emits_walk; reflexivity. }
        apply Hc. }
  exact (H s [] (Forall_nil _)).
Qed.

Lemma record_script_failure_is_fatal_witness :
  outcome_of (record failing_demo "./output" sample_env
                (mkRecSt (new_PlaywrightRecorder (mkRecorderOptions None)) fresh_page)) = Throw.
Proof.
  apply (record_script_failure_is_fatal sample_env
           (mkRecSt (new_PlaywrightRecorder (mkRecorderOptions None)) fresh_page)
           failing_demo "./output").
  intros ctx page. reflexivity.
Defined.

Lemma hoare_grows {S A} env (P : list Event -> Prop) (m : M S A) :
  (forall t t', P t -> P (t ++ t')) ->
  hoare env (fun _ t => P t) m (fun _ _ t => P t).
Proof. intros Hmono s t0 H. now apply Hmono. Qed.

Lemma script_started_grows env demo t t' :
  script_started env demo t -> script_started env demo (t ++ t').
Proof.
  intros [before [browser [context [page [rest [-> Hready]]]]]].
  exists before, browser, context, page, (rest ++ t'). split; [|exact Hready].
  now rewrite <- !app_assoc.
Qed.

Lemma newPage_blank env :
  hoare env (fun _ t => Forall not_running t) (on_page context_newPage)
    (fun o s t =>
       Forall not_running t /\
       match o with Ok _ => blank (world s) | Throw => True end).
Proof.
  intros s t0 H.
  unfold on_page, context_newPage, external, bind, get, put, emit, blank,
    outcome_of, state_of, trace_of.
  destruct (fault env (tick (world s))); simpl.
  - split; [now rewrite app_nil_r | exact I].
  - split; [|repeat split]. apply Forall_app. split; [exact H|]. now repeat constructor.
Qed.

Lemma blank_step {A} env (m : M PageSt A) :
  emits_only not_running m ->
  (forall s, cursor (state_of (m env s)) = cursor s /\
             ripple_style (state_of (m env s)) = ripple_style s /\
             zoom_style (state_of (m env s)) = zoom_style s) ->
  hoare env (fun s t => Forall not_running t /\ blank (world s)) (on_page m)
    (fun _ s t => Forall not_running t /\ blank (world s)).
Proof.
  intros He Hs s t0 [H [Hc [Hr Hz]]].
  specialize (He env (world s)). specialize (Hs (world s)).
  unfold on_page, blank, outcome_of, state_of, trace_of in *.
  destruct (m env (world s)) as [[o p] t]. simpl in *.
  destruct Hs as [-> [-> ->]].
  split; [apply Forall_app; now split | now repeat split].
Qed.

Lemma blank_info env msg :
  is_running (LoggerInfo msg) = false ->
  hoare env (fun (s : RecSt) t => Forall not_running t /\ blank (world s)) (logger_info msg)
    (fun _ s t => Forall not_running t /\ blank (world s)).
Proof.
  intros Hm s t0 [H Hb]. unfold logger_info, emit, outcome_of, state_of, trace_of. simpl.
  split; [|exact Hb]. apply Forall_app. split; [exact H|]. now repeat constructor.
Qed.

Lemma hideDevTools_adds_style env :
  hoare env (fun s t => Forall not_running t /\ blank (world s)) (on_page hideDevTools)
    (fun o s t =>
       Forall not_running t /\
       match o with
       | Ok _ => blank (world s) /\ exists before, t = before ++ [StyleTagAdded]
       | Throw => True
       end).
Proof.
  intros s t0 [H Hb].
  unfold on_page, hideDevTools, page_addStyleTag, external, emit, blank,
    outcome_of, state_of, trace_of in *.
  destruct (fault env (tick (world s))); simpl.
  - split; [now rewrite app_nil_r | exact I].
  - split; [apply Forall_app; split; [exact H | now repeat constructor]|].
    split; [exact Hb | now exists t0].
Qed.

Lemma initFakeCursor_on_blank env :
  hoare env
    (fun s t => Forall not_running t /\ blank (world s) /\
                exists before, t = before ++ [StyleTagAdded])
    (on_page initFakeCursor)
    (fun o s t =>
       Forall not_running t /\
       match o with
       | Ok _ => ready (world s) /\
                 exists before, t = before ++ [StyleTagAdded; CursorCreated]
       | Throw => True
       end).
Proof.
  intros s t0 [H [[Hc [Hr Hz]] [before ->]]].
  unfold on_page, initFakeCursor, page_evaluate, external, bind, get, put, emit, ret,
    ready, outcome_of, state_of, trace_of.
  destruct (fault env (tick (world s))); simpl.
  - split; [now rewrite app_nil_r | exact I].
  - rewrite Hc. simpl.
    split; [apply Forall_app; split; [exact H | now repeat constructor]|].
    split; [now repeat split|].
    exists before. now rewrite <- app_assoc.
Qed.

(** One step of [record] before the script is announced. *)
Ltac earlier_step :=
  apply hoare_bind with (Q := fun _ _ t => Forall not_running t);
  [ apply hoare_emits; emits_walk; reflexivity
  | intros ? ? ?; now left
  | intro ].

(** Whenever [record] announces the script, the script was started right
    after the style tag that hides the development overlays and the cursor
    element were added, on a page whose cursor sits at (0, 0) and that holds
    neither the ripple nor the zoom style, and with the recorder's own
    helpers ([highlight] lasting 500 ms unless told otherwise).  The events
    of the script follow the announcement at once. *)
Theorem record_runs_script_on_prepared_page env s demo outputDir :
  let tr := trace_of (record demo outputDir env s) in
  In (LoggerInfo RunningDemoScript) tr ->
  exists before browser context page rest,
    tr = before ++ [StyleTagAdded; CursorCreated; LoggerInfo RunningDemoScript] ++
         map FromScript (trace_of (demo_run demo (demoContext_of browser context) env page)) ++
         rest /\
    cursor page = Some (mkCursor (Some 0) (Some 0)) /\
    ripple_style page = false /\
    zoom_style page = false.
Proof.
  intros tr Hin.
  assert (H : hoare env (fun _ t => Forall not_running t) (record demo outputDir)
                (fun _ _ t => Forall not_running t \/ script_started env demo t)).
  { unfold record. do 5 earlier_step.
    apply hoare_try_finally
      with (Q := fun _ _ t => Forall not_running t \/ script_started env demo t).
    - do 5 earlier_step.
      eapply hoare_bind; [apply newPage_blank | intros ? ? [? _]; now left | intros []].
      eapply hoare_bind; [apply blank_info; reflexivity | intros ? ? [? _]; now left | intros []].
      eapply hoare_bind;
        [ apply blank_step;
          [ emits_walk; reflexivity
          | intros p; unfold page_goto, external, emit, state_of;
            destruct (fault env (tick p)); repeat split ]
        | intros ? ? [? _]; now left | intros [] ].
      eapply hoare_bind;
        [apply hideDevTools_adds_style | intros ? ? [? _]; now left | intros []].
      eapply hoare_bind;
        [apply initFakeCursor_on_blank | intros ? ? [? _]; now left | intros []].
      apply hoare_bind
        with (Q := fun (o : Outcome unit) s0 t =>
                     match o with
                     | Ok _ =>
                         ready (world s0) /\
                         exists before,
                           t = before ++
                               [StyleTagAdded; CursorCreated; LoggerInfo RunningDemoScript]
                     | Throw => False
                     end).
      + intros s0 t0 [_ [Hready [before ->]]].
        unfold logger_info, emit, outcome_of, state_of, trace_of. simpl.
        split; [exact Hready|]. exists before. now rewrite <- app_assoc.
      + intros ? ? [].
      + intros [].
        apply hoare_bind with (Q := fun _ _ t => script_started env demo t).
        * intros s0 t0 [Hready [before ->]].
          unfold run_script, trace_of.
          match goal with
          | |- context [demo_run demo (mkDemoContext ?b ?c _ _ _ _ _ _ _) env ?page] =>
              exists before, b, c, page, [];
              change (mkDemoContext b c _ _ _ _ _ _ _) with (demoContext_of b c);
              destruct (demo_run demo (demoContext_of b c) env page) as [[o p] t]
          end.
          split; [|exact Hready].
          unfold trace_of. simpl. now rewrite app_nil_r, <- app_assoc.
        * intros ? ? ?. now right.
        * intros [].
          apply hoare_consequence
            with (P := fun _ t => script_started env demo t)
                 (Q := fun _ _ t => script_started env demo t);
            [ trivial | apply hoare_grows; apply script_started_grows | intros; now right ].
    - intros o s0 t0 [H0 | H0].
      + left. apply Forall_app. split; [exact H0|].
        assert (Hc : emits_only not_running cleanup).
        { unfold cleanup. emits_walk; reflexivity. }
        apply Hc.
      + right. now apply script_started_grows. }
  destruct (H s [] (Forall_nil _)) as [Hno | Hstarted].
  - exfalso. simpl in Hno. rewrite Forall_forall in Hno.
    specialize (Hno _ Hin). discriminate.
  - simpl in Hstarted.
    destruct Hstarted as [before [browser [context [page [rest [E [Hc [Hr Hz]]]]]]]].
    exists before, browser, context, page, rest. repeat split; assumption.
Qed.

Lemma record_runs_script_on_prepared_page_witness :
  exists before browser context page rest,
    trace_of (record sample_demo "./output" sample_env
                (mkRecSt (new_PlaywrightRecorder (mkRecorderOptions None)) fresh_page)) =
    before ++ [StyleTagAdded; CursorCreated; LoggerInfo RunningDemoScript] ++
    map FromScript
        (trace_of (demo_run sample_demo (demoContext_of browser context) sample_env page)) ++
    rest /\
    cursor page = Some (mkCursor (Some 0) (Some 0)) /\
    ripple_style page = false /\
    zoom_style page = false.
Proof.
  apply (record_runs_script_on_prepared_page sample_env
           (mkRecSt (new_PlaywrightRecorder (mkRecorderOptions None)) fresh_page)
           sample_demo "./output").
  vm_compute. auto 20.
Defined.

(** * Further properties of the record command *)

Lemma hoare_try_catch {S A} env (P : S -> list Event -> Prop) (m h : M S A)
    (Q : Outcome A -> S -> list Event -> Prop)
    (R : Outcome A -> S -> list Event -> Prop) :
  hoare env P m Q ->
  (forall a s t, Q (Ok a) s t -> R (Ok a) s t) ->
  hoare env (Q Throw) h R ->
  hoare env P (try_catch m h) R.
Proof.
  intros Hm Hok Hh s t0 HP. specialize (Hm s t0 HP).
  unfold try_catch, outcome_of, state_of, trace_of in *.
  destruct (m env s) as [[[a|] s1] t1]; simpl in *.
  - now apply Hok.
  - specialize (Hh s1 (t0 ++ t1) Hm).
    unfold outcome_of, state_of, trace_of in Hh.
    destruct (h env s1) as [[o s2] t2]. simpl in *.
    now rewrite app_assoc.
Qed.

(** One step of the command that neither prints a line nor exits. *)
Ltac unreported_step :=
  apply hoare_bind with (Q := fun _ _ t => Forall unreported t);
  [ apply hoare_emits;
    unfold checkFfmpegInstalled, convertToMp4, record, cleanup;
    emits_walk; split; reflexivity
  | intros ? ? H; exact H
  | intro ].

(** The record command never throws, and it ends in exactly one of two
    ways: with the four lines that report the saved file, never having
    called [process.exit]; or with the spinner failing, the error logged and
    [process.exit(1)], never having printed a line with [console.log]. *)
Theorem recordCommand_reports_or_exits env loadDemo demoFile options page :
  let run := recordCommand loadDemo demoFile options env page in
  outcome_of run = Ok tt /\
  ((exists before finalPath,
      trace_of run = before ++ saved_lines finalPath /\ Forall unreported before) \/
   (exists before,
      trace_of run = before ++ failure_lines /\ Forall unreported before)).
Proof.
  cbv zeta.
  assert (H : hoare env (fun _ t => Forall unreported t)
                (recordCommand loadDemo demoFile options)
                (fun o _ t =>
                   o = Ok tt /\
                   ((exists before finalPath,
                       t = before ++ saved_lines finalPath /\ Forall unreported before) \/
                    (exists before,
                       t = before ++ failure_lines /\ Forall unreported before)))).
  { unfold recordCommand.
    apply hoare_bind with (Q := fun o _ t => o = Ok tt /\ Forall unreported t).
    { intros s t0 H0. unfold emit, outcome_of, trace_of. simpl.
      split; [reflexivity|]. apply Forall_app. split; [exact H0|].
      repeat constructor. }
    { intros ? ? [? _]. discriminate. }
    intros [].
    apply hoare_try_catch
      with (Q := fun (o : Outcome unit) _ t =>
                   match o with
                   | Ok _ => exists before finalPath,
                               t = before ++ saved_lines finalPath /\
                               Forall unreported before
                   | Throw => Forall unreported t
                   end).
    - apply hoare_consequence
        with (P := fun _ t => Forall unreported t)
             (Q := fun (o : Outcome unit) _ t =>
                     match o with
                     | Ok _ => exists before finalPath,
                                 t = before ++ saved_lines finalPath /\
                                 Forall unreported before
                     | Throw => Forall unreported t
                     end);
        [ intros ? ? [_ H0]; exact H0 | | trivial ].
      do 7 unreported_step.
      apply hoare_bind with (Q := fun _ _ t => Forall unreported t);
        [ apply hoare_emits; unfold checkFfmpegInstalled, convertToMp4;
          emits_walk; split; reflexivity
        | intros ? ? H0; exact H0
        | intros finalPath ].
      intros s0 t0 H0. unfold bind, emit, outcome_of, trace_of. simpl.
      now exists t0, finalPath.
    - intros [] s0 t0 H0. split; [reflexivity | now left].
    - intros s0 t0 H0. unfold bind, emit, outcome_of, trace_of. simpl.
      split; [reflexivity|]. right. now exists t0. }
  exact (H page [] (Forall_nil _)).
Qed.

(** ** File names of the conversion *)

Lemma length_append (a b : string) :
  String.length (a ++ b) = (String.length a + String.length b)%nat.
Proof. induction a as [|c a IH]; simpl; [reflexivity | now rewrite IH]. Qed.

Lemma replace_webm_stem stem :
  replace_webm (stem ++ ".webm") = (stem ++ ".mp4")%string.
Proof.
  induction stem as [|c stem IH]; [reflexivity|].
  cbn [String.append replace_webm]. fold (String.append stem ".webm").
  destruct (String.eqb_spec (String c (stem ++ ".webm")) ".webm") as [E | _].
  - exfalso. apply (f_equal String.length) in E. cbn [String.length] in E.
    rewrite length_append in E. simpl in E. lia.
  - now rewrite IH.
Qed.

Lemma replace_webm_other p : endsWith p ".webm" = false -> replace_webm p = p.
Proof.
  induction p as [|c p IH]; [reflexivity|].
  cbn [endsWith replace_webm]. intros H. apply orb_false_iff in H. destruct H as [H1 H2].
  rewrite H1. now rewrite (IH H2).
Qed.

Lemma replace_webm_mp4 p :
  endsWith p ".webm" = true -> endsWith (replace_webm p) ".mp4" = true.
Proof.
  induction p as [|c p IH]; [discriminate|].
  cbn [endsWith replace_webm]. intros H.
  destruct (String.eqb (String c p) ".webm") eqn:E; [reflexivity|].
  simpl in H. cbn [endsWith]. rewrite (IH H). apply orb_true_r.
Qed.

(** The record command, run by run. *)
Lemma recordCommand_run env loadDemo demoFile options page :
  recordCommand loadDemo demoFile options env page =
  let recorder := new_PlaywrightRecorder (mkRecorderOptions (Some (opt_headed options))) in
  let warning :=
    if convert options && negb (ffmpeg_installed env)
    then [SpinnerWarn "FFmpeg not found - video will be saved as WebM"] else [] in
  match loadDemo (path_resolve env demoFile) env page with
  | (Throw, p1, t1) =>
      (Ok tt, p1, SpinnerStart LoadingDemoDefinition :: map FromScript t1 ++ failure_lines)
  | (Ok demo, p1, t1) =>
      let loaded :=
        SpinnerStart LoadingDemoDefinition :: map FromScript t1 ++
        [SpinnerSucceed (LoadedDemo (demo_name demo))] ++ warning ++
        [SpinnerStart RecordingDemo] in
      match record demo (output options) env (mkRecSt recorder p1) with
      | (Throw, s2, t2) => (Ok tt, world s2, loaded ++ t2 ++ failure_lines)
      | (Ok result, s2, t2) =>
          let recorded :=
            loaded ++ t2 ++ [SpinnerSucceed (RecordingCompleteIn (durationMs result))] in
          if convert options && ffmpeg_installed env
          then
            let mp4 := replace_webm (videoPath result) in
            if fault env (tick (world s2))
            then (Ok tt, bump (world s2),
                  recorded ++
                  [SpinnerStart ConvertingToMP4;
                   LoggerInfo (ConvertingToMp4 (videoPath result))] ++
                  failure_lines)
            else (Ok tt, bump (world s2),
                  recorded ++
                  [SpinnerStart ConvertingToMP4;
                   LoggerInfo (ConvertingToMp4 (videoPath result));
                   FfmpegRun (videoPath result) mp4;
                   LoggerInfo (ConversionComplete mp4);
                   SpinnerSucceed ConversionDone] ++
                  saved_lines mp4)
          else (Ok tt, world s2, recorded ++ saved_lines (videoPath result))
      end
  end.
Proof.
  cbv zeta. unfold recordCommand, failure_lines, saved_lines.
  cbv [try_catch bind emit ask ret throw checkFfmpegInstalled user_code with_recorder
       convertToMp4 conversion_target logger_info external outputPath inputPath].
  destruct (loadDemo (path_resolve env demoFile) env page) as [[[demo|] p1] t1];
    [|simpl; now rewrite <- ?app_assoc].
  destruct (convert options), (ffmpeg_installed env) eqn:Hf; simpl;
    destruct (record demo (output options) env _) as [[[result|] s2] t2]; simpl;
    rewrite ?Hf; simpl;
    try destruct (fault env (tick (world s2))); simpl;
    repeat (rewrite <- ?app_assoc; simpl); reflexivity.
Qed.

Lemma record_never_converts demo outputDir :
  emits_only not_conversion (record demo outputDir).
Proof. unfold record, cleanup. emits_walk; reflexivity. Qed.

Lemma script_event_in e t : In e (map FromScript t) -> exists e', e = FromScript e'.
Proof. intros H. apply in_map_iff in H. destruct H as [e' [<- _]]. now exists e'. Qed.

(** Settles a hypothesis [In e tr] that no piece of [tr] can satisfy. *)
Ltac absent H Hlog :=
  split_in H; try discriminate;
  first [ apply script_event_in in H; destruct H as [? H]; discriminate
        | rewrite Forall_forall in Hlog; apply Hlog in H; discriminate ].

(** With conversion enabled and FFmpeg installed, the file the record
    command reports is the [.mp4] next to the captured [.webm]: FFmpeg was
    run from the one to the other, and the command never warned that the
    video would stay a WebM. *)
Theorem recordCommand_reports_mp4_when_converted
    env loadDemo demoFile options page finalPath :
  convert options = true ->
  ffmpeg_installed env = true ->
  let tr := trace_of (recordCommand loadDemo demoFile options env page) in
  In (ConsoleLog ("File: " ++ finalPath)) tr ->
  endsWith finalPath ".mp4" = true /\
  ~ In (SpinnerWarn "FFmpeg not found - video will be saved as WebM") tr /\
  exists webm,
    endsWith webm ".webm" = true /\
    finalPath = replace_webm webm /\
    In (LoggerInfo (RecordingComplete webm)) tr /\
    In (FfmpegRun webm finalPath) tr.
Proof.
  intros Hc Hf tr. unfold tr. clear tr.
  rewrite recordCommand_run. cbv zeta. rewrite Hc, Hf. simpl andb. cbv iota.
  unfold failure_lines, saved_lines.
  destruct (loadDemo (path_resolve env demoFile) env page) as [[[demo|] p1] t1].
  - pose proof (record_prints_no_console_log demo (output options) env
                  (mkRecSt (new_PlaywrightRecorder
                              (mkRecorderOptions (Some (opt_headed options)))) p1)) as Hlog.
    pose proof (record_never_converts demo (output options) env
                  (mkRecSt (new_PlaywrightRecorder
                              (mkRecorderOptions (Some (opt_headed options)))) p1)) as Hconv.
    pose proof (record_result env demo (output options)
                  (mkRecSt (new_PlaywrightRecorder
                              (mkRecorderOptions (Some (opt_headed options)))) p1)
                  [] I) as Hres.
    destruct (record demo (output options) env _) as [[[result|] s2] t2];
      unfold trace_of, outcome_of in *; simpl fst in *; simpl snd in *.
    + destruct Hres as [Hwebm Hcomplete]. simpl in Hcomplete.
      destruct (fault env (tick (world s2))); simpl snd; intros Hin.
      * exfalso. absent Hin Hlog.
      * assert (Hpath : finalPath = replace_webm (videoPath result)).
        { split_in Hin; try discriminate.
          - apply script_event_in in Hin. destruct Hin as [? Hin]. discriminate.
          - rewrite Forall_forall in Hlog. apply Hlog in Hin. discriminate.
          - symmetry. now apply file_line_injective. }
        subst finalPath. split; [now apply replace_webm_mp4|]. split.
        { intros Hw. absent Hw Hconv. }
        exists (videoPath result).
        split; [exact Hwebm|]. split; [reflexivity|]. split; find_in.
    + intros Hin. exfalso. absent Hin Hlog.
  - unfold trace_of. simpl snd. intros Hin. exfalso.
    split_in Hin; try discriminate.
    apply script_event_in in Hin. destruct Hin as [? Hin]. discriminate.
Qed.

Lemma recordCommand_reports_mp4_when_converted_witness :
  let tr := trace_of (recordCommand sample_loadDemo "demos/example.demo.ts"
                        (mkRecordOptions "./output" true false)
                        sample_env_ffmpeg fresh_page) in
  endsWith "./output/example-demo/a1b2c3.mp4" ".mp4" = true /\
  ~ In (SpinnerWarn "FFmpeg not found - video will be saved as WebM") tr /\
  exists webm,
    endsWith webm ".webm" = true /\
    "./output/example-demo/a1b2c3.mp4"%string = replace_webm webm /\
    In (LoggerInfo (RecordingComplete webm)) tr /\
    In (FfmpegRun webm "./output/example-demo/a1b2c3.mp4") tr.
Proof.
  apply (recordCommand_reports_mp4_when_converted sample_env_ffmpeg sample_loadDemo
           "demos/example.demo.ts" (mkRecordOptions "./output" true false) fresh_page
           "./output/example-demo/a1b2c3.mp4" eq_refl eq_refl).
  vm_compute. auto 40.
Defined.

(** When the recording succeeded but the FFmpeg run fails, the command
    fails as a whole: it ends with [process.exit(1)] and prints no [File:]
    line, although the [.webm] exists and was logged by the recorder. *)
Theorem recordCommand_failed_conversion_exits
    env loadDemo demoFile options page demo page1 t1 result s2 t2 :
  convert options = true ->
  ffmpeg_installed env = true ->
  loadDemo (path_resolve env demoFile) env page = (Ok demo, page1, t1) ->
  record demo (output options) env
    (mkRecSt (new_PlaywrightRecorder (mkRecorderOptions (Some (opt_headed options))))
             page1) = (Ok result, s2, t2) ->
  fault env (tick (world s2)) = true ->
  let tr := trace_of (recordCommand loadDemo demoFile options env page) in
  (exists before, tr = before ++ failure_lines) /\
  In (LoggerInfo (RecordingComplete (videoPath result))) tr /\
  forall path, ~ In (ConsoleLog ("File: " ++ path)) tr.
Proof.
  intros Hc Hf Hload Hrec Hfault tr. unfold tr. clear tr.
  pose proof (record_prints_no_console_log demo (output options) env
                (mkRecSt (new_PlaywrightRecorder
                            (mkRecorderOptions (Some (opt_headed options)))) page1)) as Hlog.
  pose proof (record_result env demo (output options)
                (mkRecSt (new_PlaywrightRecorder
                            (mkRecorderOptions (Some (opt_headed options)))) page1)
                [] I) as Hres.
  rewrite Hrec in Hlog, Hres. unfold trace_of, outcome_of in Hlog, Hres.
  simpl in Hlog, Hres. destruct Hres as [_ Hcomplete].
  rewrite recordCommand_run. cbv zeta. rewrite Hc, Hf, Hload, Hrec, Hfault.
  unfold trace_of, failure_lines. simpl andb. cbv iota. simpl snd.
  split; [|split].
  - exists (SpinnerStart LoadingDemoDefinition :: map FromScript t1 ++
            [SpinnerSucceed (LoadedDemo (demo_name demo)); SpinnerStart RecordingDemo] ++
            t2 ++
            [SpinnerSucceed (RecordingCompleteIn (durationMs result));
             SpinnerStart ConvertingToMP4;
             LoggerInfo (ConvertingToMp4 (videoPath result))]).
    repeat (rewrite <- ?app_assoc; simpl). reflexivity.
  - find_in.
  - intros path Hin. absent Hin Hlog.
Qed.

Lemma recordCommand_failed_conversion_exits_witness :
  let tr := trace_of (recordCommand sample_loadDemo "demos/example.demo.ts"
                        (mkRecordOptions "./output" true false)
                        sample_env_ffmpeg_fails fresh_page) in
  (exists before, tr = before ++ failure_lines) /\
  In (LoggerInfo (RecordingComplete "./output/example-demo/a1b2c3.webm")) tr /\
  forall path, ~ In (ConsoleLog ("File: " ++ path)) tr.
Proof.
  assert (Hrec : record sample_demo "./output" sample_env_ffmpeg_fails
                   (mkRecSt (new_PlaywrightRecorder (mkRecorderOptions (Some false)))
                            fresh_page) =
                 (Ok (mkRecordingResult "./output/example-demo/a1b2c3.webm" (10 + - 0)),
                  mkRecSt (new_PlaywrightRecorder (mkRecorderOptions (Some false)))
                          (mkPageSt (Some (mkCursor (Some 0) (Some 0))) false false 12 0),
                  [Mkdir "./output/example-demo";
                   LoggerInfo (StartingRecording "Example Demo");
                   LoggerInfo (Resolution 1920 1080);
                   LoggerInfo (Url "http://localhost:3000");
                   BrowserLaunched true;
                   ContextCreated 1920 1080 "./output/example-demo"; PageCreated;
                   LoggerInfo NavigatingToUrl; Goto "http://localhost:3000";
                   StyleTagAdded; CursorCreated; LoggerInfo RunningDemoScript;
                   FromScript (WaitForTimeout 1000); WaitForTimeout 500;
                   ContextClose true; Readdir "./output/example-demo";
                   LoggerInfo (RecordingComplete "./output/example-demo/a1b2c3.webm");
                   LoggerInfo (DurationSeconds (10 + - 0)); BrowserClose true])).
  { reflexivity. }
  exact (recordCommand_failed_conversion_exits sample_env_ffmpeg_fails sample_loadDemo
           "demos/example.demo.ts" (mkRecordOptions "./output" true false) fresh_page
           sample_demo fresh_page [] _ _ _ eq_refl eq_refl eq_refl Hrec eq_refl).
Defined.

(** With conversion switched off the command does nothing about MP4,
    whether or not FFmpeg is installed: no check is reported, nothing is
    converted, and the file it reports is the [.webm] the recorder
    logged. *)
Theorem recordCommand_without_convert_keeps_webm env loadDemo demoFile options page :
  convert options = false ->
  let tr := trace_of (recordCommand loadDemo demoFile options env page) in
  Forall not_conversion tr /\
  forall finalPath,
    In (ConsoleLog ("File: " ++ finalPath)) tr ->
    endsWith finalPath ".webm" = true /\
    In (LoggerInfo (RecordingComplete finalPath)) tr.
Proof.
  intros Hc tr. unfold tr. clear tr. split.
  - assert (H : emits_only not_conversion (recordCommand loadDemo demoFile options)).
    { unfold recordCommand. rewrite Hc. unfold record, cleanup. emits_walk; reflexivity. }
    apply H.
  - rewrite recordCommand_run. cbv zeta. rewrite Hc. simpl andb. cbv iota.
    unfold failure_lines, saved_lines.
    destruct (loadDemo (path_resolve env demoFile) env page) as [[[demo|] p1] t1].
    + pose proof (record_prints_no_console_log demo (output options) env
                    (mkRecSt (new_PlaywrightRecorder
                                (mkRecorderOptions (Some (opt_headed options)))) p1)) as Hlog.
      pose proof (record_result env demo (output options)
                    (mkRecSt (new_PlaywrightRecorder
                                (mkRecorderOptions (Some (opt_headed options)))) p1)
                    [] I) as Hres.
      destruct (record demo (output options) env _) as [[[result|] s2] t2];
        unfold trace_of, outcome_of in *; simpl fst in *; simpl snd in *.
      * destruct Hres as [Hwebm Hcomplete]. simpl in Hcomplete.
        intros finalPath Hin.
        assert (Hpath : finalPath = videoPath result).
        { split_in Hin; try discriminate.
          - apply script_event_in in Hin. destruct Hin as [? Hin]. discriminate.
          - rewrite Forall_forall in Hlog. apply Hlog in Hin. discriminate.
          - symmetry. now apply file_line_injective. }
        subst finalPath. split; [exact Hwebm | find_in].
      * intros finalPath Hin. exfalso. absent Hin Hlog.
    + unfold trace_of. simpl snd. intros finalPath Hin. exfalso.
      split_in Hin; try discriminate.
      apply script_event_in in Hin. destruct Hin as [? Hin]. discriminate.
Qed.

Lemma recordCommand_without_convert_keeps_webm_witness :
  let tr := trace_of (recordCommand sample_loadDemo "demos/example.demo.ts"
                        (mkRecordOptions "./output" false false)
                        sample_env_ffmpeg fresh_page) in
  Forall not_conversion tr /\
  In (ConsoleLog "File: ./output/example-demo/a1b2c3.webm") tr /\
  endsWith "./output/example-demo/a1b2c3.webm" ".webm" = true.
Proof.
  cbv zeta.
  assert (Hin : In (ConsoleLog ("File: " ++ "./output/example-demo/a1b2c3.webm"))
                   (trace_of (recordCommand sample_loadDemo "demos/example.demo.ts"
                                (mkRecordOptions "./output" false false)
                                sample_env_ffmpeg fresh_page))).
  { vm_compute. auto 40. }
  destruct (recordCommand_without_convert_keeps_webm sample_env_ffmpeg sample_loadDemo
              "demos/example.demo.ts" (mkRecordOptions "./output" false false) fresh_page
              eq_refl) as [Hnone H].
  destruct (H _ Hin) as [Hwebm _].
  split; [exact Hnone|]. split; [exact Hin | exact Hwebm].
Defined.

(** ** Where the conversion writes *)

(** Left to itself -- no output path, or an empty one -- the conversion
    writes next to its input: the final [.webm] of the input path, and only
    that, becomes [.mp4]. *)
Theorem conversion_target_defaults_to_mp4_sibling stem :
  conversion_target (mkConversionOptions (stem ++ ".webm") None) = (stem ++ ".mp4")%string /\
  conversion_target (mkConversionOptions (stem ++ ".webm") (Some ""%string)) =
    (stem ++ ".mp4")%string.
Proof.
  unfold conversion_target. simpl. split; apply replace_webm_stem.
Qed.

(** For an input whose name does not end in [.webm] the default output
    path is the input path itself, the replacement finding nothing to
    replace: whenever convertToMp4 runs FFmpeg on such an input, it hands it
    one and the same path to read and to write.  (What FFmpeg makes of that
    is not the program's to decide.) *)
Theorem conversion_target_of_other_input_is_the_input input :
  endsWith input ".webm" = false ->
  conversion_target (mkConversionOptions input None) = input /\
  conversion_target (mkConversionOptions input (Some ""%string)) = input /\
  forall env s i o,
    In (FfmpegRun i o) (trace_of (convertToMp4 (mkConversionOptions input None) env s)) ->
    i = input /\ o = input.
Proof.
  intros Hw.
  assert (E : conversion_target (mkConversionOptions input None) = input)
    by (unfold conversion_target; simpl; now apply replace_webm_other).
  split; [exact E|]. split.
  - unfold conversion_target. simpl. now apply replace_webm_other.
  - intros env s i o. unfold convertToMp4. rewrite E. simpl inputPath.
    unfold bind, logger_info, emit, ask, external, ret, throw, trace_of.
    destruct (ffmpeg_installed env); [destruct (fault env (tick s))|]; simpl;
      intros H; repeat (destruct H as [H | H]; try discriminate); try contradiction.
    injection H as <- <-. now split.
Qed.

Lemma conversion_target_of_other_input_is_the_input_witness :
  conversion_target (mkConversionOptions "clip.mov" None) = "clip.mov"%string /\
  In (FfmpegRun "clip.mov" "clip.mov")
     (trace_of (convertToMp4 (mkConversionOptions "clip.mov" None)
                  sample_env_ffmpeg fresh_page)).
Proof.
  destruct (conversion_target_of_other_input_is_the_input "clip.mov" eq_refl)
    as [E _].
  split; [exact E|]. simpl. auto.
Defined.

(** * What [record] opens, and with which settings *)

Lemma neutral_filters t :
  Forall neutral t -> filter is_launch t = [] /\ filter is_context_created t = [].
Proof.
  induction 1 as [|e t [He1 He2] _ [IH1 IH2]]; [now split|].
  simpl. rewrite He1, He2. now split.
Qed.

Lemma opened_step {S A} env dir launched created (m : M S A) :
  emits_only neutral m ->
  hoare env (fun _ t => opened dir launched created t) m
    (fun _ _ t => opened dir launched created t).
Proof.
  intros Hm s t0 [[rest ->] [Hl Hc]].
  destruct (neutral_filters _ (Hm env s)) as [H1 H2].
  split; [now exists (rest ++ trace_of (m env s))|].
  rewrite !filter_app, H1, H2, !app_nil_r. now split.
Qed.

Lemma hoare_pure {S A} env (fact : Prop) (P : S -> list Event -> Prop) (m : M S A)
    (Q : Outcome A -> S -> list Event -> Prop) :
  (fact -> hoare env P m Q) -> hoare env (fun s t => fact /\ P s t) m Q.
Proof. intros H s t0 [Hf HP]. now apply H. Qed.

Lemma launch_opened env dir headless :
  hoare env (fun _ t => opened dir [] [] t) (on_page (chromium_launch headless))
    (fun o _ t =>
       match o with
       | Ok _ => opened dir [BrowserLaunched headless] [] t
       | Throw => opened dir [] [] t
       end).
Proof.
  intros s t0 [[rest ->] [Hl Hc]].
  unfold on_page, chromium_launch, external, bind, emit, get, ret, opened,
    outcome_of, trace_of.
  destruct (fault env (tick (world s))); simpl.
  - rewrite app_nil_r. split; [now exists rest | now split].
  - split; [now exists (rest ++ [BrowserLaunched headless])|].
    simpl in Hl, Hc. rewrite !filter_app, Hl, Hc. now split.
Qed.

Lemma newContext_opened env dir launched width height videoDir :
  hoare env (fun _ t => opened dir launched [] t)
    (on_page (browser_newContext width height videoDir))
    (fun o _ t =>
       match o with
       | Ok _ => opened dir launched [ContextCreated width height videoDir] t
       | Throw => opened dir launched [] t
       end).
Proof.
  intros s t0 [[rest ->] [Hl Hc]].
  unfold on_page, browser_newContext, external, bind, emit, get, ret, opened,
    outcome_of, trace_of.
  destruct (fault env (tick (world s))); simpl.
  - rewrite app_nil_r. split; [now exists rest | now split].
  - split; [now exists (rest ++ [ContextCreated width height videoDir])|].
    simpl in Hl, Hc. rewrite !filter_app, Hl, Hc. simpl. rewrite app_nil_r. now split.
Qed.

(** A step of [record] before its [try] block: the recorder keeps its
    options and nothing is opened. *)
Lemma before_try_step {A} env options dir (m : M RecSt A) :
  keeps_this m ->
  emits_only neutral m ->
  hoare env (fun s t => this_options (this s) = options /\ opened dir [] [] t) m
    (fun _ s t => this_options (this s) = options /\ opened dir [] [] t).
Proof.
  intros Hk Hm s t0 [Ho Hop]. split.
  - now rewrite Hk.
  - now apply (opened_step env dir [] [] m Hm s t0).
Qed.

(** [record] creates the directory [outputDir/demo.id] before doing
    anything else that can be observed.  It launches at most one browser,
    headless unless the recorder was made with [headed: true], and creates
    at most one context, whose viewport and video size are those of the
    demo, a missing width or height being 1920 or 1080, and whose videos go
    to that directory. *)
Theorem record_opens_with_demo_settings env s demo outputDir :
  let tr := trace_of (record demo outputDir env s) in
  let videoDir := path_join outputDir (demo_id demo) in
  let headless := negb (nullish (headed (this_options (this s))) false) in
  let width := nullish (optional (demo_video demo) video_width) 1920 in
  let height := nullish (optional (demo_video demo) video_height) 1080 in
  (tr = [] \/ exists rest, tr = Mkdir videoDir :: rest) /\
  (filter is_launch tr = [] \/ filter is_launch tr = [BrowserLaunched headless]) /\
  (filter is_context_created tr = [] \/
   filter is_context_created tr = [ContextCreated width height videoDir]).
Proof.
  intros tr videoDir headless width height.
  set (Some_opened := fun t : list Event =>
         exists launched created,
           opened videoDir launched created t /\
           (launched = [] \/ launched = [BrowserLaunched headless]) /\
           (created = [] \/ created = [ContextCreated width height videoDir])).
  assert (H : hoare env
                (fun s0 t => this_options (this s0) = this_options (this s) /\ t = [])
                (record demo outputDir) (fun _ _ t => t = [] \/ Some_opened t)).
  { unfold record. fold videoDir width height.
    apply hoare_bind
      with (Q := fun (o : Outcome unit) s0 t =>
                   match o with
                   | Ok _ => this_options (this s0) = this_options (this s) /\
                             opened videoDir [] [] t
                   | Throw => t = []
                   end).
    { intros s0 t0 [Ho ->].
      unfold on_page, fs_mkdir, external, emit, outcome_of, state_of, trace_of.
      destruct (fault env (tick (world s0))); simpl; [reflexivity|].
      split; [exact Ho|]. split; [now exists []|now split]. }
    { intros ? ? ->. now left. }
    intros [].
    do 4 (eapply hoare_bind;
          [ apply before_try_step; [keeps | emits_neutral]
          | intros ? ? [_ Hop]; right; exists [], []; auto
          | intro ]).
    apply hoare_try_finally with (Q := fun _ _ t => Some_opened t).
    - apply hoare_bind
        with (Q := fun (o : Outcome RecSt) (_ : RecSt) t =>
                     match o with
                     | Ok a => this_options (this a) = this_options (this s) /\
                               opened videoDir [] [] t
                     | Throw => False
                     end).
      { intros s0 t0 [Ho Hop]. unfold get, outcome_of, trace_of. simpl.
        rewrite app_nil_r. now split. }
      { intros ? ? []. }
      intros s1. apply hoare_pure. intros Ho. rewrite Ho. fold headless.
      eapply hoare_bind;
        [ apply launch_opened | intros ? ? Hop; exists [], []; auto | intros browser ].
      eapply hoare_bind;
        [ apply opened_step; emits_neutral
        | intros ? ? Hop; exists [BrowserLaunched headless], []; auto
        | intros [] ].
      eapply hoare_bind;
        [ apply newContext_opened
        | intros ? ? Hop; exists [BrowserLaunched headless], []; auto
        | intros context ].
      apply hoare_consequence
        with (P := fun _ t =>
                     opened videoDir [BrowserLaunched headless]
                            [ContextCreated width height videoDir] t)
             (Q := fun _ _ t =>
                     opened videoDir [BrowserLaunched headless]
                            [ContextCreated width height videoDir] t);
        [ trivial
        | apply opened_step; emits_neutral
        | intros ? ? ? Hop;
          exists [BrowserLaunched headless], [ContextCreated width height videoDir]; auto ].
    - intros o s0 t0 [launched [created [Hop Hwhich]]]. right.
      exists launched, created. split; [|exact Hwhich].
      apply (opened_step env videoDir launched created cleanup); [|exact Hop].
      unfold cleanup. emits_neutral. }
  destruct (H s [] (conj eq_refl eq_refl)) as [Hnil | [launched [created [Hop [Hl Hc]]]]];
    simpl in *; fold tr in Hnil || fold tr in Hop.
  - rewrite Hnil. split; [now left | split; now left].
  - destruct Hop as [Hfirst [Hlaunch Hcreate]].
    rewrite Hlaunch, Hcreate. split; [now right | split; assumption].
Qed.

Example record_opens_with_demo_settings_sample :
  let tr := trace_of (record sample_demo "./output" sample_env
                        (mkRecSt (new_PlaywrightRecorder (mkRecorderOptions None))
                                 fresh_page)) in
  filter is_launch tr = [BrowserLaunched true] /\
  filter is_context_created tr = [ContextCreated 1920 1080 "./output/example-demo"].
Proof. rewrite record_sample_demo. now split. Qed.

(** * The create and list commands *)

(** ** The name of a new demo *)

Lemma concat_cons (sep x y : string) (l : list string) :
  String.concat sep (x :: y :: l) = (x ++ sep ++ String.concat sep (y :: l))%string.
Proof. reflexivity. Qed.

Lemma default_name_respell_from (start : bool) (s : string) :
  match split_hyphen s with
  | w :: ws =>
      String.concat " " ((if start then capitalize w else w) :: map capitalize ws) =
      respell start s
  | [] => False
  end.
Proof.
  revert start. induction s as [|c s IH]; intros start.
  - simpl. now destruct start.
  - cbn [split_hyphen respell]. destruct (Ascii.eqb c "-") eqn:Ec.
    + specialize (IH true). destruct (split_hyphen s) as [|w ws]; [destruct IH|].
      cbn [map]. rewrite concat_cons, IH. now destruct start.
    + specialize (IH false). destruct (split_hyphen s) as [|w ws]; [destruct IH|].
      rewrite <- IH.
      assert (E : (if start then capitalize (String c w) else String c w) =
                  String (if start then toUpperCase c else c) w) by now destruct start.
      rewrite E. destruct ws as [|w' ws]; reflexivity.
Qed.

Lemma default_name_respell id : default_name id = respell true id.
Proof.
  unfold default_name. pose proof (default_name_respell_from true id) as H.
  destruct (split_hyphen id) as [|w ws]; [destruct H | exact H].
Qed.

Lemma toUpperCase_hyphen c : Ascii.eqb c "-" = false -> Ascii.eqb (toUpperCase c) "-" = false.
Proof.
  destruct c as [b0 b1 b2 b3 b4 b5 b6 b7].
  destruct b0, b1, b2, b3, b4, b5, b6, b7; intros H; vm_compute in H |- *; congruence.
Qed.

Lemma toUpperCase_twice c : toUpperCase (toUpperCase c) = toUpperCase c.
Proof.
  destruct c as [b0 b1 b2 b3 b4 b5 b6 b7].
  destruct b0, b1, b2, b3, b4, b5, b6, b7; reflexivity.
Qed.

Lemma respell_length start s : String.length (respell start s) = String.length s.
Proof.
  revert start. induction s as [|c s IH]; intros start; [reflexivity|].
  cbn [respell]. destruct (Ascii.eqb c "-"); simpl; now rewrite IH.
Qed.

Lemma respell_no_hyphen start s n : String.get n (respell start s) <> Some "-"%char.
Proof.
  revert start n. induction s as [|c s IH]; intros start n; [discriminate|].
  cbn [respell]. destruct (Ascii.eqb c "-") eqn:Ec.
  - destruct n as [|n]; simpl; [discriminate | apply IH].
  - destruct n as [|n]; simpl; [|apply IH].
    intros [= E].
    assert (H : Ascii.eqb (if start then toUpperCase c else c) "-" = false).
    { destruct start; [now apply toUpperCase_hyphen | exact Ec]. }
    rewrite E in H. discriminate.
Qed.

Lemma respell_settled start s : respell false (respell start s) = respell start s.
Proof.
  revert start. induction s as [|c s IH]; intros start; [reflexivity|].
  cbn [respell]. destruct (Ascii.eqb c "-") eqn:Ec.
  - cbn [respell]. change (Ascii.eqb " " "-") with false. cbv iota. now rewrite IH.
  - cbn [respell].
    assert (H : Ascii.eqb (if start then toUpperCase c else c) "-" = false).
    { destruct start; [now apply toUpperCase_hyphen | exact Ec]. }
    rewrite H. now rewrite IH.
Qed.

(** The name made from an id is as long as the id, holds no hyphen, and is
    its own name: naming it again changes nothing. *)
Theorem default_name_spelling id :
  String.length (default_name id) = String.length id /\
  (forall n, String.get n (default_name id) <> Some "-"%char) /\
  default_name (default_name id) = default_name id.
Proof.
  rewrite !default_name_respell. split; [apply respell_length|].
  split; [intros n; apply respell_no_hyphen|].
  destruct id as [|c s]; [reflexivity|].
  cbn [respell]. destruct (Ascii.eqb c "-") eqn:Ec.
  - cbn [respell]. change (Ascii.eqb " " "-") with false. cbv iota.
    now rewrite respell_settled.
  - cbn [respell]. rewrite (toUpperCase_hyphen _ Ec), toUpperCase_twice.
    now rewrite respell_settled.
Qed.

Example default_name_of_my_feature : default_name "my-feature" = "My Feature"%string.
Proof. reflexivity. Qed.

(** ** createCommand *)

Lemma exit_code_script t : exit_code (map FromScript t) = None.
Proof. induction t as [|e t IH]; [reflexivity | exact IH]. Qed.

Lemma exit_code_1 t code : Forall exits_with_1 t -> exit_code t = Some code -> code = 1%Z.
Proof.
  induction 1 as [|e t He _ IH]; [discriminate|].
  destruct e; simpl; try exact IH. intros [= <-]. exact He.
Qed.

Lemma recordCommand_exits_with_1 loadDemo demoFile options :
  emits_only exits_with_1 (recordCommand loadDemo demoFile options).
Proof.
  unfold recordCommand, checkFfmpegInstalled, convertToMp4, record, cleanup.
  emits_walk; first [exact I | reflexivity].
Qed.

Lemma recordCommand_ok loadDemo demoFile options env page :
  outcome_of (recordCommand loadDemo demoFile options env page) = Ok tt.
Proof.
  rewrite recordCommand_run. cbv zeta.
  destruct (loadDemo (path_resolve env demoFile) env page) as [[[demo|] p1] t1];
    [|reflexivity].
  destruct (record demo (output options) env _) as [[[result|] s2] t2]; [|reflexivity].
  destruct (convert options && ffmpeg_installed env); [|reflexivity].
  destruct (fault env (tick (world s2))); reflexivity.
Qed.

(** The record command inside another command returns or exits with 1. *)
Lemma lift_recordCommand loadDemo demoFile options env s :
  let run := lift (recordCommand loadDemo demoFile options) env s in
  (ending_of run = Returned tt \/ ending_of run = Exited 1) /\
  disk_of run = disk s.
Proof.
  cbv zeta. unfold lift, ending_of, disk_of.
  pose proof (recordCommand_ok loadDemo demoFile options env (cli_page s)) as Hok.
  pose proof (recordCommand_exits_with_1 loadDemo demoFile options env (cli_page s)) as Hex.
  destruct (recordCommand loadDemo demoFile options env (cli_page s)) as [[o p] t].
  unfold outcome_of, trace_of in *. simpl in *. subst o. split; [|reflexivity].
  destruct (exit_code t) as [code|] eqn:E; [|now left].
  right. now rewrite (exit_code_1 t code Hex E).
Qed.

(** createCommand leaves an existing demo file alone: when the directory
    can be made and [fs.access] finds the file, the command reports that
    the file exists and ends the process with code 1 at once -- no file is
    written, the disk is as it was, and the [catch] at the end of the
    command does not run. *)
Theorem createCommand_keeps_existing_file env s loadDemo id options content :
  let demosDir := path_resolve env (create_dir options) in
  let filepath := path_join demosDir (id ++ ".demo.ts") in
  fault env (tick (cli_page s)) = false ->
  fault env (S (tick (cli_page s))) = false ->
  disk s filepath = Some content ->
  createCommand loadDemo id options env s =
  (Exited 1, mkCliSt (disk s) (bump (bump (cli_page s))),
   [Spinner_start "Creating demo file..."; Fs_mkdir demosDir; Fs_access filepath;
    Spinner_fail ("Demo file already exists: " ++ filepath); Process_exit 1]).
Proof.
  intros demosDir filepath H1 H2 Hfile. subst demosDir filepath.
  unfold createCommand.
  cbv [cli_bind cli_try_catch cli_emit cli_ask cli_mkdir fs_access cli_external
       process_exit cli_ret].
  cbn [cli_page disk bump tick]. rewrite H1.
  cbn [cli_page disk bump tick]. rewrite H2.
  cbn [cli_page disk bump tick]. rewrite Hfile. reflexivity.
Qed.

Lemma createCommand_keeps_existing_file_witness :
  createCommand sample_loadDemo "my-feature" sample_create sample_env sample_cli =
  (Exited 1, mkCliSt (disk sample_cli) (bump (bump fresh_page)),
   [Spinner_start "Creating demo file..."; Fs_mkdir "demos";
    Fs_access "demos/my-feature.demo.ts";
    Spinner_fail "Demo file already exists: demos/my-feature.demo.ts"; Process_exit 1]).
Proof.
  exact (createCommand_keeps_existing_file sample_env sample_cli sample_loadDemo
           "my-feature" sample_create "export default {}" eq_refl eq_refl eq_refl).
Defined.

(** When nothing rejects and the demo file does not exist yet, createCommand
    writes it: afterwards the file holds the template made from the id, the
    name ([options.name], or the name made from the id when that is absent
    or empty) and the url, and no other file has changed.  With [--record]
    it then runs the record command on the new file, with conversion on;
    without it the command returns. *)
Theorem createCommand_writes_template env s loadDemo id options :
  let demosDir := path_resolve env (create_dir options) in
  let filename := (id ++ ".demo.ts")%string in
  let filepath := path_join demosDir filename in
  let template := generateDemoTemplate id (demo_name_for id options) (create_url options) in
  let recordOptions := mkRecordOptions (create_output options) true (create_headed options) in
  no_faults env ->
  disk s filepath = None ->
  let run := createCommand loadDemo id options env s in
  (forall p, disk_of run p = if String.eqb p filepath then Some template else disk s p) /\
  events_of run =
    [Spinner_start "Creating demo file..."; Fs_mkdir demosDir; Fs_access filepath;
     Fs_writeFile filepath template; Spinner_succeed ("Created demo: " ++ filepath);
     Console_log "
Next steps:";
     Console_log ("  1. Edit " ++ filename ++ " to define your demo flow");
     Console_log ("  2. Run: demo-recorder record " ++ filepath)] ++
    (if create_record options
     then Console_log "
" :: map Inner (trace_of (recordCommand loadDemo filepath recordOptions env
                            (bump (bump (bump (cli_page s))))))
     else []) /\
  (create_record options = false -> ending_of run = Returned tt).
Proof.
  intros demosDir filename filepath template recordOptions Hq Hfile run.
  subst demosDir filename filepath template recordOptions run.
  unfold createCommand.
  cbv [cli_bind cli_try_catch cli_emit cli_ask cli_mkdir fs_access fs_writeFile
       cli_external process_exit cli_ret].
  cbn [cli_page disk bump tick]. rewrite Hq.
  cbn [cli_page disk bump tick]. rewrite Hq.
  cbn [cli_page disk bump tick]. rewrite Hfile.
  cbn [cli_page disk bump tick app]. rewrite Hq.
  destruct (create_record options).
  - unfold lift. cbn [cli_page disk bump tick].
    match goal with
    | |- context [recordCommand loadDemo ?f ?o env ?p] =>
        pose proof (recordCommand_ok loadDemo f o env p) as Hok;
        destruct (recordCommand loadDemo f o env p) as [[o' p'] t]
    end.
    unfold outcome_of in Hok. cbn [fst] in Hok. subst o'.
    unfold disk_of, events_of, ending_of, trace_of.
    destruct (exit_code t) as [code|];
      cbn [fst snd disk app];
      (split; [reflexivity|]); (split; [reflexivity | discriminate]).
  - unfold disk_of, events_of, ending_of. cbn [fst snd disk app].
    split; [reflexivity|]. split; reflexivity.
Qed.

Lemma createCommand_writes_template_witness :
  let run := createCommand sample_loadDemo "new-demo" sample_create sample_env sample_cli in
  disk_of run "demos/new-demo.demo.ts"%string =
    Some (generateDemoTemplate "new-demo" "New Demo" "http://localhost:3000") /\
  disk_of run "demos/my-feature.demo.ts"%string = Some "export default {}"%string /\
  ending_of run = Returned tt.
Proof.
  destruct (createCommand_writes_template sample_env sample_cli sample_loadDemo
              "new-demo" sample_create (fun _ => eq_refl) eq_refl) as [Hdisk [_ Hend]].
  split; [exact (Hdisk "demos/new-demo.demo.ts"%string)|].
  split; [exact (Hdisk "demos/my-feature.demo.ts"%string) | exact (Hend eq_refl)].
Defined.

(** createCommand never throws, and the only code it ends the process with
    is 1.  It returns only after having written the demo file: the file then
    holds the template. *)
Theorem createCommand_returns_only_after_writing env s loadDemo id options :
  let filepath := path_join (path_resolve env (create_dir options)) (id ++ ".demo.ts") in
  let template := generateDemoTemplate id (demo_name_for id options) (create_url options) in
  let run := createCommand loadDemo id options env s in
  (ending_of run = Returned tt \/ ending_of run = Exited 1) /\
  (ending_of run = Returned tt ->
   disk_of run filepath = Some template /\
   In (Fs_writeFile filepath template) (events_of run)).
Proof.
  intros filepath template run. subst filepath template run.
  unfold createCommand.
  cbv [cli_bind cli_try_catch cli_emit cli_ask cli_mkdir fs_access fs_writeFile
       cli_external process_exit cli_ret].
  cbn [cli_page disk bump tick].
  destruct (fault env (tick (cli_page s)));
    [unfold ending_of; cbn [fst]; split; [now right | discriminate]|].
  cbn [cli_page disk bump tick].
  repeat (cbn [cli_page disk bump tick fst snd app];
          match goal with
          | |- context [if fault _ ?n then _ else _] => destruct (fault env n)
          | |- context [match disk s ?p with _ => _ end] => destruct (disk s p)
          | |- context [if create_record options then _ else _] =>
              destruct (create_record options)
          end);
    cbn [cli_page disk bump tick fst snd app];
    try match goal with
        | |- context [lift ?m env ?s0] =>
            destruct (lift_recordCommand loadDemo
                        (path_join (path_resolve env (create_dir options)) (id ++ ".demo.ts"))
                        (mkRecordOptions (create_output options) true (create_headed options))
                        env s0) as [Hend Hdisk];
            destruct (lift m env s0) as [[e s4] t4];
            unfold ending_of, disk_of in Hend, Hdisk; cbn [fst snd disk] in Hend, Hdisk;
            destruct Hend as [-> | ->]
        end;
    unfold ending_of, disk_of, events_of; cbn [fst snd disk app];
    (split; [first [now left | now right]|]);
    try discriminate;
    intros _; rewrite ?Hdisk; cbn [disk]; rewrite String.eqb_refl;
    (split; [reflexivity|]); simpl; auto 20.
Qed.

(** ** listCommand *)

Lemma lift_user_code {A} (m : M PageSt A) env s :
  lift (user_code m) env s =
  let '(o, p, t) := m env (cli_page s) in
  (match o with Ok a => Returned a | Throw => Threw end,
   mkCliSt (disk s) p, map Inner (map FromScript t)).
Proof.
  unfold lift, user_code. destruct (m env (cli_page s)) as [[o p] t].
  now rewrite exit_code_script.
Qed.

(** One turn of the loop of [listCommand]. *)
Lemma list_one_run env (loadDemo : Loader) basename file s :
  exists block s',
    disk s' = disk s /\
    ((list_one loadDemo basename file env s = (Returned tt, s', block) /\
      fst (fst (loadDemo file env (cli_page s))) <> inr Nullish /\
      listed basename file block) \/
     (list_one loadDemo basename file env s = (Threw, s', block) /\
      fst (fst (loadDemo file env (cli_page s))) = inr Nullish /\
      block = map Inner (map FromScript (snd (loadDemo file env (cli_page s)))) ++
              [Console_log ("  " ++ basename file)])).
Proof.
  unfold list_one, cli_bind, settle, cli_emit, cli_throw.
  destruct (loadDemo file env (cli_page s)) as [[[demo | [|]] p] t]; simpl.
  - eexists. exists (mkCliSt (disk s) p). split; [reflexivity|]. left.
    split; [reflexivity|]. split; [discriminate|].
    exists t, [Console_log ("    ID: " ++ demo_id demo);
               Console_log ("    Name: " ++ demo_name demo);
               Console_log ("    URL: " ++ demo_url demo)].
    split; [reflexivity|]. right. now exists demo.
  - eexists. exists (mkCliSt (disk s) p). split; [reflexivity|]. right.
    split; [reflexivity|]. split; reflexivity.
  - eexists. exists (mkCliSt (disk s) p). split; [reflexivity|]. left.
    split; [reflexivity|]. split; [discriminate|].
    exists t, [Console_log_error]. split; [reflexivity | now left].
Qed.

(** The loop of [listCommand] goes through the files until a call of
    [loadDemo] rejects with [null] or [undefined]. *)
Lemma listing_loop env (loadDemo : Loader) (basename : string -> string)
    (files : list string) :
  forall s,
  exists blocks s',
    disk s' = disk s /\
    ((cli_for_of files (list_one loadDemo basename) env s =
        (Returned tt, s', List.concat blocks) /\
      Forall2 (listed basename) files blocks) \/
     (cli_for_of files (list_one loadDemo basename) env s =
        (Threw, s', List.concat blocks) /\
      exists file p, In file files /\ fst (fst (loadDemo file env p)) = inr Nullish)).
Proof.
  induction files as [|file files IH]; intros s.
  - exists [], s. split; [reflexivity|]. left. split; [reflexivity | constructor].
  - cbn [cli_for_of]. unfold cli_bind.
    destruct (list_one_run env loadDemo basename file s)
      as [block [s1 [Hd1 [[E [_ Hl]] | [E [Hn _]]]]]]; rewrite E.
    + destruct (IH s1) as [blocks [s' [Hd [[E' Hall] | [E' Hnull]]]]]; rewrite E'.
      * exists (block :: blocks), s'. split; [congruence|]. left.
        split; [reflexivity | now constructor].
      * exists (block :: blocks), s'. split; [congruence|]. right.
        split; [reflexivity|].
        destruct Hnull as [f [p [Hin Hf]]]. exists f, p. split; [now right | exact Hf].
    + exists [block], s1. split; [exact Hd1|]. right.
      split; [simpl; now rewrite app_nil_r|].
      exists file, (cli_page s). split; [now left | exact Hn].
Qed.

(** The run of [listCommand] once [listDemos] has resolved to some files. *)
Lemma listCommand_run env s listDemos (loadDemo : Loader) basename dir file files p1 t1 :
  listDemos (path_resolve env dir) env (cli_page s) = (Ok (file :: files), p1, t1) ->
  listCommand listDemos loadDemo basename dir env s =
  let '(e, s', t) :=
    cli_for_of (file :: files) (list_one loadDemo basename) env (mkCliSt (disk s) p1) in
  let head :=
    Spinner_start "Finding demo files..." :: map Inner (map FromScript t1) ++
    [Spinner_succeed (found_message (List.length (file :: files)));
     Console_log "
Available demos:
"] in
  match e with
  | Threw =>
      (Exited 1, s',
       head ++ t ++ [Spinner_fail "Failed to list demos"; Logger_error; Process_exit 1])
  | _ => (e, s', head ++ t)
  end.
Proof.
  intros Hlist. unfold listCommand.
  unfold cli_bind at 1. unfold cli_emit at 1. unfold cli_try_catch at 1.
  unfold cli_bind at 1. unfold cli_ask at 1. unfold cli_bind at 1.
  rewrite lift_user_code, Hlist.
  unfold cli_bind at 1. unfold cli_emit at 1.
  unfold cli_bind at 1. unfold cli_emit at 1.
  destruct (cli_for_of (file :: files) (list_one loadDemo basename) env _)
    as [[[[]| |code] s'] t]; cbv [cli_bind cli_emit process_exit]; cbn [app];
    rewrite <- ?app_assoc; reflexivity.
Qed.



Example listCommand_sample :
  events_of (listCommand sample_listDemos sample_loadDemo_or_fail (fun p => p) "demos"
               sample_env sample_cli) =
  [Spinner_start "Finding demo files..."; Spinner_succeed "Found 2 demo file(s)";
   Console_log "
Available demos:
";
   Console_log "  demos/example.demo.ts"; Console_log "    ID: example-demo";
   Console_log "    Name: Example Demo"; Console_log "    URL: http://localhost:3000";
   Console_log "";
   Console_log "  demos/broken.demo.ts"; Console_log_error; Console_log ""].
Proof. reflexivity. Qed.

(** listCommand never throws and touches no file: it returns or ends the
    process with code 1.  It ends the process when [listDemos] rejects; and
    when it ends the process although [listDemos] resolved, a call of
    [loadDemo] rejected with [null] or [undefined]. *)
Theorem listCommand_exits_only_on_failure
    env s listDemos loadDemo basename dir :
  let run := listCommand listDemos loadDemo basename dir env s in
  let listing := outcome_of (listDemos (path_resolve env dir) env (cli_page s)) in
  disk_of run = disk s /\
  (ending_of run = Returned tt \/ ending_of run = Exited 1) /\
  (listing = Throw -> ending_of run = Exited 1) /\
  (ending_of run = Exited 1 ->
   listing = Throw \/
   exists file p, fst (fst (loadDemo file env p)) = inr Nullish).
Proof.
  cbv zeta.
  destruct (listDemos (path_resolve env dir) env (cli_page s)) as [[[files|] p1] t1] eqn:Hlist;
    unfold outcome_of at 1 2; cbn [fst].
  - destruct files as [|file files].
    + assert (E : exists t,
                listCommand listDemos loadDemo basename dir env s =
                (Returned tt, mkCliSt (disk s) p1, t)).
      { unfold listCommand.
        unfold cli_bind at 1. unfold cli_emit at 1. unfold cli_try_catch at 1.
        unfold cli_bind at 1. unfold cli_ask at 1. unfold cli_bind at 1.
        rewrite lift_user_code, Hlist.
        cbv [cli_bind cli_emit]. cbn [app]. eexists. reflexivity. }
      destruct E as [t E]. rewrite E. unfold disk_of, ending_of. cbn [fst snd disk].
      split; [reflexivity|]. split; [now left|]. split; discriminate.
    + rewrite (listCommand_run env s listDemos loadDemo basename dir file files p1 t1 Hlist).
      destruct (listing_loop env loadDemo basename (file :: files) (mkCliSt (disk s) p1))
        as [blocks [s' [Hd [[E _] | [E [f [p [_ Hf]]]]]]]]; rewrite E;
        unfold disk_of, ending_of; cbn [fst snd]; (split; [exact Hd|]).
      * split; [now left|]. split; discriminate.
      * split; [now right|]. split; [discriminate|]. intros _. right. now exists f, p.
  - assert (E : exists t,
              listCommand listDemos loadDemo basename dir env s =
              (Exited 1, mkCliSt (disk s) p1, t)).
    { unfold listCommand.
      unfold cli_bind at 1. unfold cli_emit at 1. unfold cli_try_catch at 1.
      unfold cli_bind at 1. unfold cli_ask at 1. unfold cli_bind at 1.
      rewrite lift_user_code, Hlist.
      cbv [cli_bind cli_emit process_exit]. cbn [app]. eexists. reflexivity. }
    destruct E as [t E]. rewrite E. unfold disk_of, ending_of. cbn [fst snd disk].
    split; [reflexivity|]. split; [now right|]. split; [reflexivity | now left].
Qed.

(** A demo file whose loading rejects with [null] or [undefined] stops the
    listing: the handler prints the name of the file, throws on reading
    [error.message], and the command fails as a whole -- the files after it
    are neither loaded nor listed, and the process ends with code 1. *)
Theorem listCommand_stops_at_nullish_rejection
    env s listDemos (loadDemo : Loader) basename dir file files p1 t1 p2 t2 :
  listDemos (path_resolve env dir) env (cli_page s) = (Ok (file :: files), p1, t1) ->
  loadDemo file env p1 = (inr Nullish, p2, t2) ->
  listCommand listDemos loadDemo basename dir env s =
  (Exited 1, mkCliSt (disk s) p2,
   Spinner_start "Finding demo files..." :: map Inner (map FromScript t1) ++
   [Spinner_succeed (found_message (List.length (file :: files)));
    Console_log "
Available demos:
"] ++
   map Inner (map FromScript t2) ++
   [Console_log ("  " ++ basename file);
    Spinner_fail "Failed to list demos"; Logger_error; Process_exit 1]).
Proof.
  intros Hlist Hload.
  rewrite (listCommand_run env s listDemos loadDemo basename dir file files p1 t1 Hlist).
  cbn [cli_for_of]. unfold cli_bind at 1.
  unfold list_one at 1, cli_bind at 1, settle at 1. cbn [cli_page disk]. rewrite Hload.
  cbv [cli_bind cli_emit cli_throw]. cbn [app].
  rewrite <- !app_assoc. reflexivity.
Qed.

Lemma listCommand_stops_at_nullish_rejection_witness :
  listCommand sample_listDemos sample_loadDemo_null (fun p => p) "demos"
    sample_env sample_cli =
  (Exited 1, sample_cli,
   [Spinner_start "Finding demo files..."; Spinner_succeed "Found 2 demo file(s)";
    Console_log "
Available demos:
";
    Console_log "  demos/example.demo.ts";
    Spinner_fail "Failed to list demos"; Logger_error; Process_exit 1]).
Proof.
  exact (listCommand_stops_at_nullish_rejection sample_env sample_cli sample_listDemos
           sample_loadDemo_null (fun p => p) "demos" "demos/example.demo.ts"
           ["demos/broken.demo.ts"%string] fresh_page [] fresh_page [] eq_refl eq_refl).
Defined.
